(** * WSC script codec: decompiler.py, recompiler.py and validator.py

    A shallow embedding of the round-trip codec of the WSC tool
    (string extraction, text decoding, record classification, the
    speaker/narration convention, transcript parsing and binary
    reconstruction) and of the checks of its validator, followed by
    the properties established about them.

    Conventions.
    - A Python [str] is the list of its Unicode code points ([Z]).
    - A Python [bytes] value is a list of [byte].
    - A Python [int] is a [Z]; list indices and loop counters that only
      ever count upwards from zero are [nat].
    - An operation that can raise returns [option]; [None] is the raised
      exception, and [try ... except] is the match on it.
    - [WSCEntry] objects are mutated in place by the recompiler, so they
      live in a heap ([gmap] from object identities to records) and an
      entry list is a list of object identities. *)

From Stdlib Require Import ZArith List Bool Lia Ascii String.
From Stdlib.Strings Require Import Byte.
From stdpp Require Import base option list gmap.

Open Scope Z_scope.

(* ================================================================== *)
(** * Python built-ins used by the two modules                         *)
(* ================================================================== *)

Module Py.

Abbreviation str := (list Z).
Abbreviation bytes := (list byte).

(** [len(x)] *)
Definition len {A} (l : list A) : Z := Z.of_nat (length l).

(** An ASCII literal of the source, as code points. *)
Definition lit (s : string) : str :=
  map (fun a => Z.of_N (N_of_ascii a)) (list_ascii_of_string s).

(** A bytes literal given by its byte values. *)
Definition blit (l : list Z) : bytes :=
  map (fun n => default x00 (Byte.of_N (Z.to_N n))) l.

(** The ASCII bytes of a literal such as [b"DAY0904"]. *)
Definition bascii (s : string) : bytes :=
  map byte_of_ascii (list_ascii_of_string s).

Definition byte_val (b : byte) : Z := Z.of_N (Byte.to_N b).

(** [ch.isspace()]: the code points [str.strip()] removes. *)
Definition isspace (c : Z) : bool :=
  ((0x09 <=? c) && (c <=? 0x0D)) || ((0x1C <=? c) && (c <=? 0x20))
  || (c =? 0x85) || (c =? 0xA0) || (c =? 0x1680)
  || ((0x2000 <=? c) && (c <=? 0x200A))
  || (c =? 0x2028) || (c =? 0x2029) || (c =? 0x202F) || (c =? 0x205F)
  || (c =? 0x3000).

Fixpoint lstrip (s : str) : str :=
  match s with
  | c :: t => if isspace c then lstrip t else s
  | [] => []
  end.

Definition rstrip (s : str) : str := rev (lstrip (rev s)).

(** [s.strip()] *)
Definition strip (s : str) : str := rstrip (lstrip s).

(** [s.startswith(p)], for [str] and [bytes] alike. *)
Fixpoint startswith {A} (eqb : A -> A -> bool) (s p : list A) {struct p}
  : bool :=
  match p, s with
  | [], _ => true
  | a :: p', b :: s' => eqb b a && startswith eqb s' p'
  | _ :: _, [] => false
  end.

Definition str_startswith : str -> str -> bool := startswith Z.eqb.
Definition bytes_startswith : bytes -> bytes -> bool := startswith Byte.eqb.

(** [s.endswith(p)] *)
Definition str_endswith (s p : str) : bool := str_startswith (rev s) (rev p).

(** [c in s] for a one-character [c]. *)
Definition contains (c : Z) (s : str) : bool := existsb (Z.eqb c) s.

(** [s.split(sep)] for a one-character separator. *)
Fixpoint split (sep : Z) (s : str) : list str :=
  match s with
  | [] => [[]]
  | c :: t =>
      if c =? sep then [] :: split sep t
      else match split sep t with
           | l :: ls => (c :: l) :: ls
           | [] => [[c]]
           end
  end.

(** [s.replace(old, new)] for a non-empty [old]: a left-to-right scan
    over non-overlapping occurrences.  [skip] counts the characters of
    an occurrence that are still to be dropped. *)
Fixpoint replace_from (old new : str) (skip : nat) (s : str) : str :=
  match s with
  | [] => []
  | c :: t =>
      match skip with
      | S k => replace_from old new k t
      | O =>
          if str_startswith s old
          then new ++ replace_from old new (Nat.pred (length old)) t
          else c :: replace_from old new O t
      end
  end.

Definition replace (old new : str) (s : str) : str := replace_from old new O s.

(** ** [int(s, 16)] *)

(** C [isspace], used by the integer parser once the text is ASCII. *)
Definition c_isspace (c : Z) : bool :=
  (c =? 32) || ((9 <=? c) && (c <=? 13)).

Definition hex_digit (c : Z) : option Z :=
  if (48 <=? c) && (c <=? 57) then Some (c - 48)
  else if (97 <=? c) && (c <=? 102) then Some (c - 87)
  else if (65 <=? c) && (c <=? 70) then Some (c - 55)
  else None.

(** The conversion [int] applies first: ASCII stays, any other
    whitespace becomes a blank, any other decimal digit becomes its
    ASCII digit, anything else is rejected. [todecimal] is the Unicode
    decimal-digit table. *)
Definition to_ascii (todecimal : Z -> option Z) (c : Z) : option Z :=
  if c <? 127 then Some c
  else if isspace c then Some 32
  else match todecimal c with
       | Some d => Some (48 + d)
       | None => None
       end.

Fixpoint skip_spaces (s : str) : str :=
  match s with
  | c :: t => if c_isspace c then skip_spaces t else s
  | [] => []
  end.

(** The digit scan: hex digits with single underscores between them.
    [prev_us] says that the previous character was an underscore,
    [n] counts the characters consumed. Returns the value and the rest,
    or [None] on a doubled or trailing underscore. *)
Fixpoint scan_digits (prev_us : bool) (n : nat) (acc : Z) (s : str)
  : option (nat * Z * str) :=
  match s with
  | c :: t =>
      if c =? 95 then
        if prev_us then None else scan_digits true (S n) acc t
      else match hex_digit c with
           | Some d => scan_digits false (S n) (16 * acc + d) t
           | None => if prev_us then None else Some (n, acc, s)
           end
  | [] => if prev_us then None else Some (n, acc, [])
  end.

Definition int16 (todecimal : Z -> option Z) (s : str) : option Z :=
  match mapM (to_ascii todecimal) s with
  | None => None
  | Some a =>
      let s1 := skip_spaces a in
      let '(sign, s2) :=
        match s1 with
        | c :: t => if c =? 43 then (1, t)
                    else if c =? 45 then (-1, t) else (1, s1)
        | [] => (1, s1)
        end in
      let s3 :=
        match s2 with
        | c0 :: x :: t =>
            if (c0 =? 48) && ((x =? 120) || (x =? 88))
            then match t with
                 | u :: t' => if u =? 95 then t' else t
                 | [] => t
                 end
            else s2
        | _ => s2
        end in
      match s3 with
      | c :: _ =>
          if c =? 95 then None
          else match scan_digits false O 0 s3 with
               | Some (n, v, rest) =>
                   match n, skip_spaces rest with
                   | S _, [] => Some (sign * v)
                   | _, _ => None
                   end
               | None => None
               end
      | [] => None
      end
  end.

(** ** [f"{n:08X}"] *)

Definition hex_char (d : Z) : Z := if d <? 10 then 48 + d else 55 + d.

Fixpoint hex_digits (fuel : nat) (n : Z) (acc : str) : str :=
  match fuel with
  | O => acc
  | S f =>
      let acc' := hex_char (n mod 16) :: acc in
      if n / 16 =? 0 then acc' else hex_digits f (n / 16) acc'
  end.

Definition hex_upper (n : Z) : str :=
  hex_digits (S (Z.to_nat (Z.log2 n))) n [].

Definition zero_pad (width : nat) (s : str) : str :=
  repeat 48 (width - length s)%nat ++ s.

Definition format_08X (n : Z) : str :=
  if n <? 0 then 45 :: zero_pad 7 (hex_upper (- n))
  else zero_pad 8 (hex_upper n).

(** ** The [latin-1] codec *)

Definition latin1_decode (raw : bytes) : str := map byte_val raw.

Definition latin1_encode_char (c : Z) : option byte :=
  if (0 <=? c) && (c <? 256) then Byte.of_N (Z.to_N c) else None.

(** [s.encode('latin-1')] *)
Definition latin1_encode (s : str) : option bytes := mapM latin1_encode_char s.

(** [s.encode('latin-1', errors='replace')] *)
Definition latin1_encode_replace (s : str) : bytes :=
  map (fun c => default "?"%byte (latin1_encode_char c)) s.

(** ** [while cond: body]

    [cond] and [body] act on the loop's variables; [body] may raise.
    The result is [None] when the body raises or when [fuel]
    iterations do not reach the exit. *)
Fixpoint while {St} (fuel : nat) (cond : St -> bool) (body : St -> option St)
         (s : St) : option St :=
  if cond s then
    match fuel with
    | O => None
    | S f => match body s with
             | Some s' => while f cond body s'
             | None => None
             end
    end
  else Some s.

End Py.

(* ================================================================== *)
(** * The fragment of [re] the two modules use                         *)
(* ================================================================== *)

Module Re.
Import Py.

(** Patterns: anchors, one character of a class, a bounded or
    unbounded repetition of a class, sequence and alternation. Every
    pattern of the source is in this fragment. *)
Inductive regex : Type :=
| Eps
| Bol                                         (* ^ *)
| Eol                                         (* $ *)
| Chr (p : Z -> bool)                         (* [...] or a literal *)
| Rep (p : Z -> bool) (lo : nat) (hi : option nat)   (* [...]{lo,hi} *)
| Cat (r1 r2 : regex)
| Alt (r1 r2 : regex).

(** [$] without [re.MULTILINE]: the end of the text, or just before a
    newline that ends the text. *)
Definition at_eol (s : str) : bool :=
  match s with
  | [] => true
  | c :: [] => c =? 10
  | _ => false
  end.

(** Repetition of a class; [moved] records whether a character has
    been consumed, for [^]. *)
Fixpoint rep (p : Z -> bool) (lo : nat) (hi : option nat) (moved : bool)
         (s : str) (k : bool -> str -> bool) : bool :=
  (match lo with O => k moved s | S _ => false end)
  || match hi, s with
     | Some O, _ => false
     | _, c :: t => p c && rep p (Nat.pred lo) (option_map Nat.pred hi) true t k
     | _, [] => false
     end.

(** Backtracking match of [r] at the head of [s]; [at0] says that [s]
    is the whole text, [k] receives what is left. *)
Fixpoint run (r : regex) (at0 : bool) (s : str) (k : bool -> str -> bool)
  : bool :=
  match r with
  | Eps => k at0 s
  | Bol => at0 && k at0 s
  | Eol => at_eol s && k at0 s
  | Chr p => match s with
             | c :: t => p c && k false t
             | [] => false
             end
  | Rep p lo hi => rep p lo hi false s (fun moved t => k (at0 && negb moved) t)
  | Cat r1 r2 => run r1 at0 s (fun a t => run r2 a t k)
  | Alt r1 r2 => run r1 at0 s k || run r2 at0 s k
  end.

Definition accept : bool -> str -> bool := fun _ _ => true.

(** [p.match(s)] as a truth value. *)
Definition match_ (r : regex) (s : str) : bool := run r true s accept.

Fixpoint search_from (r : regex) (at0 : bool) (s : str) : bool :=
  run r at0 s accept
  || match s with
     | _ :: t => search_from r false t
     | [] => false
     end.

(** [p.search(s)] as a truth value. *)
Definition search (r : regex) (s : str) : bool := search_from r true s.

(** ** Classes and literals *)

Definition range (lo hi : Z) (c : Z) : bool := (lo <=? c) && (c <=? hi).
Definition one (a : Z) (c : Z) : bool := c =? a.
Definition union (p q : Z -> bool) (c : Z) : bool := p c || q c.

(** [.]: any character but a newline. *)
Definition dot (c : Z) : bool := negb (c =? 10).

(** [re.IGNORECASE] on a [str] pattern. Besides the two cases of an
    ASCII letter, four other characters fold to one: U+0130 and U+0131
    to [i], U+017F to [s], U+212A to [k]. *)
Definition fold (c : Z) : Z :=
  if (65 <=? c) && (c <=? 90) then c + 32
  else if (c =? 0x130) || (c =? 0x131) then 105
  else if c =? 0x17F then 115
  else if c =? 0x212A then 107
  else c.

Definition ione (a : Z) (c : Z) : bool := fold c =? fold a.
Definition iclass (p : Z -> bool) (c : Z) : bool := p c || p (fold c).

Fixpoint cats (rs : list regex) : regex :=
  match rs with
  | [] => Eps
  | r :: rest => Cat r (cats rest)
  end.

Fixpoint alts (rs : list regex) : regex :=
  match rs with
  | [] => Chr (fun _ => false)
  | r :: [] => r
  | r :: rest => Alt r (alts rest)
  end.

(** A literal text, case-sensitive or not. *)
Definition text (s : string) : regex := cats (map (fun c => Chr (one c)) (lit s)).
Definition itext (s : string) : regex := cats (map (fun c => Chr (ione c)) (lit s)).

Definition plus (p : Z -> bool) : regex := Rep p 1 None.
Definition star (p : Z -> bool) : regex := Rep p 0 None.

End Re.

(* ================================================================== *)
(** * Tables of the Python runtime                                     *)
(* ================================================================== *)

(** The multi-byte codecs and two Unicode character tables belong to the
    Python runtime, not to the program; the model takes them as a
    parameter. A codec call that raises is [None]. *)
Record Runtime : Type := {
  cp932_decode : Py.bytes -> option Py.str;
  cp932_encode : Py.str -> option Py.bytes;
  shift_jis_decode : Py.bytes -> option Py.str;
  shift_jis_encode : Py.str -> option Py.bytes;
  utf8_decode : Py.bytes -> option Py.str;
  isprintable : Z -> bool;          (* ch.isprintable() *)
  todecimal : Z -> option Z         (* value of a Unicode decimal digit *)
}.

Inductive encoding : Type := cp932 | shift_jis | utf_8 | latin_1.

(** [raw.decode(enc)] *)
Definition decode (R : Runtime) (enc : encoding) (raw : Py.bytes) : option Py.str :=
  match enc with
  | cp932 => cp932_decode R raw
  | shift_jis => shift_jis_decode R raw
  | utf_8 => utf8_decode R raw
  | latin_1 => Some (Py.latin1_decode raw)
  end.

(** [raw.decode("latin-1", errors="replace")]: every byte is a
    character of latin-1, so nothing is ever replaced. *)
Definition decode_latin1_replace (raw : Py.bytes) : option Py.str :=
  Some (Py.latin1_decode raw).

(* ================================================================== *)
(** * decompiler.py                                                    *)
(* ================================================================== *)

Module Decompiler.
Import Py Re.

(** [DECODERS] *)
Definition DECODERS : list encoding := [cp932; shift_jis; utf_8; latin_1].

Definition word : Z -> bool :=          (* [0-9A-Za-z_] *)
  union (range 48 57) (union (range 65 90) (union (range 97 122) (one 95))).
Definition word_dot_dash : Z -> bool :=  (* [0-9A-Za-z_.-] *)
  union word (union (one 46) (one 45)).
Definition digit_us : Z -> bool :=       (* [0-9_] *)
  union (range 48 57) (one 95).

(** [KEEP_PATTERNS]; all but the last are compiled with [re.I]. *)
Definition KEEP_PATTERNS : list regex :=
  [ cats [Bol; itext "SE_"; plus (iclass word_dot_dash); Eol];
    cats [Bol; itext "BGM_"; plus (iclass word_dot_dash); Eol];
    cats [Bol; itext "BG"; plus (iclass digit_us); Eol];
    cats [Bol; itext "ST"; plus (iclass word); Eol];
    cats [Bol; itext "DAY"; plus (iclass word); Eol];
    cats [Bol; itext "HOS_"; plus (iclass word); Eol];
    cats [plus dot; itext ".ogg"; Eol];
    text "%" ].

(** [re_cjk] *)
Definition cjk : Z -> bool :=
  union (range 0x3000 0x303F)
    (union (range 0x3040 0x309F)
       (union (range 0x30A0 0x30FF) (range 0x4E00 0x9FFF))).
Definition re_cjk : regex := Chr cjk.

(** [re_japanese_name] *)
Definition name_char : Z -> bool :=
  union (range 0x3040 0x30FF) (range 0x4E00 0x9FFF).
Definition re_japanese_name : regex :=
  cats [Bol; Rep name_char 1 (Some 8%nat); Eol].

(** [SPEAKER_BYTE] *)
Definition SPEAKER_BYTE : bytes := [x0f].

(** [data[start:end]] for [0 <= start <= end]. *)
Definition slice {A} (data : list A) (start end_ : nat) : list A :=
  take (end_ - start) (drop start data).

Section WithRuntime.
Context (R : Runtime).

(** The [for enc in DECODERS] loop of [decode_try]: the first decoder
    that does not raise returns; [None] is the loop running out. *)
Fixpoint decode_try_loop (encs : list encoding) (raw : bytes)
  : option (str * encoding) :=
  match encs with
  | [] => None
  | enc :: rest =>
      match decode R enc raw with
      | Some s => Some (s, enc)
      | None => decode_try_loop rest raw
      end
  end.

(** [decode_try]; the result is [None] if the call raises. *)
Definition decode_try (raw : bytes) : option (str * encoding) :=
  match decode_try_loop DECODERS raw with
  | Some r => Some r
  | None =>
      match decode_latin1_replace raw with
      | Some s => Some (s, latin_1)
      | None => None
      end
  end.

(** [pos < N and data[pos] != 0] *)
Definition in_run (data : bytes) (pos : nat) : bool :=
  (pos <? length data)%nat
  && match data !! pos with
     | Some b => negb (Byte.eqb b x00)
     | None => false
     end.

(** One turn of the outer loop of [extract_all_null_strings], on the
    loop variables [(pos, out)]. *)
Definition extract_body (data : bytes)
           (st : nat * list (nat * nat * bytes * str))
  : option (nat * list (nat * nat * bytes * str)) :=
  let '(pos, out) := st in
  match data !! pos with
  | None => None
  | Some b =>
      if Byte.eqb b x00 then Some (S pos, out)
      else
        let start := pos in
        match while (length data) (in_run data) (fun p => Some (S p)) pos with
        | None => None
        | Some end_ =>
            let raw := slice data start end_ in
            match decode_try raw with
            | None => None
            | Some (decoded, _) =>
                Some (S end_, out ++ [(start, end_, raw, decoded)])
            end
        end
  end.

(** [extract_all_null_strings] *)
Definition extract_all_null_strings (data : bytes)
  : option (list (nat * nat * bytes * str)) :=
  match while (length data)
              (fun st : nat * list (nat * nat * bytes * str) =>
                 (fst st <? length data)%nat)
              (extract_body data) (O, []) with
  | Some (_, out) => Some out
  | None => None
  end.

(** The [for p in KEEP_PATTERNS] loop of [is_meaningful]. *)
Fixpoint keep_loop (ps : list regex) (s : str) : bool :=
  match ps with
  | [] => false
  | p :: rest => if search p s then true else keep_loop rest s
  end.

(** [sum(1 for ch in s if ch.isprintable())] *)
Fixpoint count_printable (s : str) : Z :=
  match s with
  | [] => 0
  | ch :: t => if isprintable R ch then 1 + count_printable t
               else count_printable t
  end.

(** [a / b >= 0.5] for integers [a >= 0] and [b > 0]. True division
    of two integers is correctly rounded and [0.5] is a float, so
    for every text that fits in memory the comparison holds exactly
    when [b <= 2 * a]. *)
Definition ratio_ge_half (a b : Z) : bool := b <=? 2 * a.

(** [is_meaningful] *)
Definition is_meaningful (decoded : str) (raw : bytes) : bool :=
  let s := strip decoded in
  match s with
  | [] => false
  | _ :: _ =>
      if bytes_startswith raw SPEAKER_BYTE then true
      else if search re_cjk s then true
      else if keep_loop KEEP_PATTERNS s then true
      else
        let printable := count_printable s in
        if (3 <=? len s) && ratio_ge_half printable (len s) then true
        else false
  end.

(** [sanitize] *)
Definition sanitize (s : str) : str :=
  replace [10] [92; 110] (replace [13] [] s).

(** [raw[idx] == 0x0F], under [idx < len(raw)] *)
Definition at_marker (raw : bytes) (idx : nat) : bool :=
  (idx <? length raw)%nat
  && match raw !! idx with
     | Some b => Byte.eqb b x0f
     | None => false
     end.

(** [convert_speaker] *)
Definition convert_speaker (decoded : str) (raw : bytes) : option str :=
  if negb (bytes_startswith raw SPEAKER_BYTE) then Some decoded
  else
    match while (length raw) (at_marker raw) (fun i => Some (S i)) O with
    | None => None
    | Some idx =>
        let rest := drop idx raw in
        match rest with
        | [] => Some decoded
        | _ :: _ =>
            let remainder :=
              match cp932_decode R rest with
              | Some r => Some r
              | None =>
                  match decode_try rest with
                  | Some (r, _) => Some r
                  | None => None
                  end
              end in
            match remainder with
            | None => None
            | Some remainder =>
                let rem := strip remainder in
                if (1 <=? len rem) && (len rem <=? 8)
                   && match_ re_japanese_name rem
                then Some (46 :: rem)
                else Some rem
            end
        end
    end.

(** The body of the [for] loop of [decompile_wsc_file]: the text
    written for the remaining records. *)
Fixpoint write_records (strings : list (nat * nat * bytes * str))
  : option str :=
  match strings with
  | [] => Some []
  | (start, end_, raw, decoded) :: rest =>
      if negb (is_meaningful decoded raw) then write_records rest
      else
        let cleaned := sanitize decoded in
        match convert_speaker cleaned raw with
        | None => None
        | Some cleaned =>
            match write_records rest with
            | None => None
            | Some tail =>
                Some (lit "<" ++ format_08X (Z.of_nat start) ++ lit ":"
                      ++ format_08X (Z.of_nat end_) ++ lit ">" ++ [10]
                      ++ cleaned ++ [10; 10] ++ tail)
            end
        end
  end.

(** [decompile_wsc_file], from the bytes of the input file to the
    text of the output file. *)
Definition decompile_wsc_file (data : bytes) : option str :=
  match extract_all_null_strings data with
  | None => None
  | Some strings => write_records strings
  end.

End WithRuntime.
End Decompiler.


(* ================================================================== *)
(** * recompiler.py                                                    *)
(* ================================================================== *)

Module Recompiler.
Import Py Re Decompiler.

(** The texts handed to [add_error], [add_warning] and [add_suggestion],
    by the format string that builds them and the values it inserts. *)
Inductive message : Type :=
| InvalidOffsetFormat (line_no : Z) (line : str)
| EnsureFormat
| ExpectedOffsetFormat (line_no : Z) (line50 : str)
| OffsetOrderingIssue (i j : Z)
| NoValidEntries
| EnsureFileContains
| NotCp932Compatible (n : Z)
| ConsiderModifying (n : Z) (content50 : str)
| SpeakerNameUnusual (n : Z) (content : str)
| SpeakerNamesShouldBe
| EmptyContent (n : Z)
| OffsetConflict (i j : Z)
| FailedToRead
| SuccessfullyRecompiled (n : Z)
| OffsetsRecalculated
| FailedToReconstruct.

(** [class WSCEntry] *)
Record WSCEntry : Type := {
  start_offset : Z;
  end_offset : Z;
  content : str;
  is_speaker : bool;
  binary_data : option bytes;
  entry_warnings : list message;
  entry_errors : list message;
  original_length : Z
}.

(** [WSCEntry.__init__] *)
Definition new_entry (start_offset end_offset : Z) (content : str)
           (is_speaker : bool) : WSCEntry :=
  {| start_offset := start_offset;
     end_offset := end_offset;
     content := content;
     is_speaker := is_speaker;
     binary_data := None;
     entry_warnings := [];
     entry_errors := [];
     original_length := end_offset - start_offset |}.

(** [entry.binary_data = b] *)
Definition set_binary_data (b : bytes) (e : WSCEntry) : WSCEntry :=
  {| start_offset := start_offset e;
     end_offset := end_offset e;
     content := content e;
     is_speaker := is_speaker e;
     binary_data := Some b;
     entry_warnings := entry_warnings e;
     entry_errors := entry_errors e;
     original_length := original_length e |}.

(** [entry.start_offset = s; entry.end_offset = t] *)
Definition set_offsets (s t : Z) (e : WSCEntry) : WSCEntry :=
  {| start_offset := s;
     end_offset := t;
     content := content e;
     is_speaker := is_speaker e;
     binary_data := binary_data e;
     entry_warnings := entry_warnings e;
     entry_errors := entry_errors e;
     original_length := original_length e |}.

(** [class ValidationResult] *)
Record ValidationResult : Type := {
  is_valid : bool;
  errors : list message;
  warnings : list message;
  suggestions : list message;
  needs_recalculation : bool
}.

(** [ValidationResult()] *)
Definition new_result : ValidationResult :=
  {| is_valid := false; errors := []; warnings := []; suggestions := [];
     needs_recalculation := false |}.

Definition add_error (m : message) (r : ValidationResult) : ValidationResult :=
  {| is_valid := false;
     errors := errors r ++ [m];
     warnings := warnings r;
     suggestions := suggestions r;
     needs_recalculation := needs_recalculation r |}.

Definition add_warning (m : message) (r : ValidationResult) : ValidationResult :=
  {| is_valid := is_valid r;
     errors := errors r;
     warnings := warnings r ++ [m];
     suggestions := suggestions r;
     needs_recalculation := needs_recalculation r |}.

Definition add_suggestion (m : message) (r : ValidationResult) : ValidationResult :=
  {| is_valid := is_valid r;
     errors := errors r;
     warnings := warnings r;
     suggestions := suggestions r ++ [m];
     needs_recalculation := needs_recalculation r |}.

(** [result.is_valid = b] *)
Definition set_is_valid (b : bool) (r : ValidationResult) : ValidationResult :=
  {| is_valid := b;
     errors := errors r;
     warnings := warnings r;
     suggestions := suggestions r;
     needs_recalculation := needs_recalculation r |}.

(** [result.needs_recalculation = b] *)
Definition set_needs_recalculation (b : bool) (r : ValidationResult)
  : ValidationResult :=
  {| is_valid := is_valid r;
     errors := errors r;
     warnings := warnings r;
     suggestions := suggestions r;
     needs_recalculation := b |}.

(** [line[1:-1]] *)
Definition strip_brackets (line : str) : str :=
  take (length line - 2) (drop 1 line).

(** [len(result.errors) == 0] *)
Definition no_errors (r : ValidationResult) : bool :=
  match errors r with [] => true | _ :: _ => false end.

(** The ordering check that ends [parse_github_format]:
    [for i in range(1, len(entries))], with [prev] being
    [entries[i-1]]. *)
Fixpoint ordering_loop (i : Z) (prev : WSCEntry) (rest : list WSCEntry)
         (result : ValidationResult) : ValidationResult :=
  match rest with
  | [] => result
  | e :: rest' =>
      let result :=
        if start_offset e <=? start_offset prev
        then set_needs_recalculation true
               (add_warning (OffsetOrderingIssue i (i - 1)) result)
        else result in
      ordering_loop (i + 1) e rest' result
  end.

Section WithRuntime.
Context (R : Runtime).

(** The [try] block that reads one offset line and its content line;
    [None] is the [ValueError] of an unpacking or of [int]. *)
Definition parse_entry (lines : list str) (i : nat) (line : str)
  : option WSCEntry :=
  let offset_content := strip_brackets line in
  match split 58 offset_content with
  | [start_hex; end_hex] =>
      match int16 (todecimal R) start_hex with
      | None => None
      | Some start_offset =>
          match int16 (todecimal R) end_hex with
          | None => None
          | Some end_offset =>
              let content :=
                match lines !! S i with
                | Some l => strip l
                | None => []
                end in
              let is_speaker :=
                str_startswith content (lit ".") && (1 <? len content) in
              let clean_content :=
                if is_speaker then drop 1 content else content in
              let clean_content := replace [92; 110] [10] clean_content in
              Some (new_entry start_offset end_offset clean_content is_speaker)
          end
      end
  | _ => None
  end.

(** One turn of the [while i < len(lines)] loop, on the variables
    [(i, entries, result)]. *)
Definition parse_body (lines : list str)
           (st : nat * list WSCEntry * ValidationResult)
  : option (nat * list WSCEntry * ValidationResult) :=
  let '(i, entries, result) := st in
  match lines !! i with
  | None => None
  | Some l =>
      let line := strip l in
      match line with
      | [] => Some (S i, entries, result)
      | _ :: _ =>
          if str_startswith line (lit "<") && contains 58 line
             && str_endswith line (lit ">")
          then
            match parse_entry lines i line with
            | Some entry => Some (S (S i), entries ++ [entry], result)
            | None =>
                Some (S i, entries,
                      add_suggestion EnsureFormat
                        (add_error
                           (InvalidOffsetFormat (Z.of_nat i + 1) line) result))
            end
          else
            Some (S i, entries,
                  add_error
                    (ExpectedOffsetFormat (Z.of_nat i + 1) (take 50 line))
                    result)
      end
  end.

(** [parse_github_format]; [None] if the call raises. *)
Definition parse_github_format (text : str)
  : option (list WSCEntry * ValidationResult) :=
  let lines := split 10 (strip text) in
  match while (length lines)
              (fun st : nat * list WSCEntry * ValidationResult =>
                 (fst (fst st) <? length lines)%nat)
              (parse_body lines) (O, [], new_result) with
  | None => None
  | Some (_, entries, result) =>
      match entries with
      | e0 :: rest =>
          let result := set_is_valid (no_errors result) result in
          Some (entries, ordering_loop 1 e0 rest result)
      | [] =>
          Some (entries,
                add_suggestion EnsureFileContains
                  (add_error NoValidEntries result))
      end
  end.

(** [s.encode(enc)] for the encodings [content_to_binary] names. *)
Definition encode (enc : encoding) (s : str) : option bytes :=
  match enc with
  | cp932 => cp932_encode R s
  | shift_jis => shift_jis_encode R s
  | latin_1 => latin1_encode s
  | utf_8 => None
  end.

(** [s.encode('latin-1', errors='replace')], which does not raise. *)
Definition encode_latin1_replace (s : str) : option bytes :=
  Some (latin1_encode_replace s).

(** [for encoding in ['cp932', 'shift_jis', 'latin-1']] with its
    [try: ... return] and [except: continue]. *)
Fixpoint encode_loop (encs : list encoding) (s : str) : option bytes :=
  match encs with
  | [] => None
  | enc :: rest =>
      match encode enc s with
      | Some b => Some b
      | None => encode_loop rest s
      end
  end.

(** The cascade of [try] blocks that [content_to_binary] runs in each of
    its three branches, which differ in the marker bytes put in front
    and in the text encoded. *)
Definition encode_record (marker : bytes) (s : str) : bytes :=
  match encode cp932 s with
  | Some encoded => marker ++ encoded ++ [x00]
  | None =>
      match encode_loop [cp932; shift_jis; latin_1] s with
      | Some encoded => marker ++ encoded ++ [x00]
      | None =>
          match encode_latin1_replace s with
          | Some encoded => marker ++ encoded ++ [x00]
          | None => [x00]
          end
      end
  end.

(** [re.match(r'^(DAY|BG|ST|HOS|SE|BGM|%).*', content)] *)
Definition re_resource : regex :=
  cats [Bol;
       alts [text "DAY"; text "BG"; text "ST"; text "HOS"; text "SE";
            text "BGM"; text "%"];
       star dot].

(** [content_to_binary] *)
Definition content_to_binary (content : str) (is_speaker : bool) : bytes :=
  if is_speaker then
    match strip content with
    | _ :: _ => encode_record [x0f; x0f] (strip content)
    | [] => [x00]
    end
  else
    match strip content with
    | _ :: _ =>
        let has_japanese := search re_japanese_name content in
        let has_resource_pattern := match_ re_resource content in
        if has_japanese && negb has_resource_pattern
        then encode_record [x0f] content
        else encode_record [] content
    | [] => [x00]
    end.

(** ** The entry objects *)

(** Object identities are numbers; the heap maps the identity of every
    live [WSCEntry] to its current fields. An operation on an object
    that is not there is [None], like any other failure. *)
Definition M (A : Type) : Type := gmap nat WSCEntry -> option (A * gmap nat WSCEntry).

Definition ret {A} (a : A) : M A := fun h => Some (a, h).

Definition bind {A B} (m : M A) (f : A -> M B) : M B :=
  fun h => match m h with
           | Some (a, h') => f a h'
           | None => None
           end.

Definition raise {A} : M A := fun _ => None.

Definition load (r : nat) : M WSCEntry :=
  fun h => match h !! r with
           | Some e => Some (e, h)
           | None => None
           end.

Definition store (r : nat) (e : WSCEntry) : M unit :=
  fun h => Some (tt, <[r := e]> h).

Notation "x <- m ;; k" := (bind m (fun x => k))
  (at level 100, m at next level, right associativity).
Notation "m ;;; k" := (bind m (fun _ => k))
  (at level 100, right associativity).

(** The loop of [calculate_new_offsets], from [current_offset]. *)
Fixpoint calculate_loop (entries : list nat) (current_offset : Z) : M unit :=
  match entries with
  | [] => ret tt
  | r :: rest =>
      entry <- load r ;;
      let b := content_to_binary (content entry) (is_speaker entry) in
      store r (set_offsets current_offset (current_offset + len b - 1)
                 (set_binary_data b entry)) ;;;
      calculate_loop rest (current_offset + len b)
  end.

(** [calculate_new_offsets] *)
Definition calculate_new_offsets (entries : list nat) : M unit :=
  calculate_loop entries 0.

(** [preserve_original_offsets] *)
Fixpoint preserve_original_offsets (entries : list nat) : M bool :=
  match entries with
  | [] => ret true
  | r :: rest =>
      entry <- load r ;;
      let b := content_to_binary (content entry) (is_speaker entry) in
      store r (set_binary_data b entry) ;;;
      let expected_length := original_length entry + 1 in
      let actual_length := len b in
      if negb (actual_length =? expected_length) then ret false
      else preserve_original_offsets rest
  end.

(** The loop [for entry in entries: result += entry.binary_data]. *)
Fixpoint combine_loop (entries : list nat) (result : bytes) : M bytes :=
  match entries with
  | [] => ret result
  | r :: rest =>
      entry <- load r ;;
      match binary_data entry with
      | Some b => combine_loop rest (result ++ b)
      | None => raise
      end
  end.

(** [reconstruct_wsc_binary] *)
Definition reconstruct_wsc_binary (entries : list nat) (preserve_offsets : bool)
  : M bytes :=
  (if preserve_offsets then
     ok <- preserve_original_offsets entries ;;
     if negb ok then calculate_new_offsets entries else ret tt
   else calculate_new_offsets entries) ;;;
  combine_loop entries [].

(** The first loop of [validate_wsc_entries]:
    [for i, entry in enumerate(entries)]. *)
Fixpoint validate_loop (entries : list nat) (i : Z) (result : ValidationResult)
  : M ValidationResult :=
  match entries with
  | [] => ret result
  | r :: rest =>
      entry <- load r ;;
      let result :=
        match cp932_encode R (content entry) with
        | Some _ => result
        | None =>
            add_suggestion (ConsiderModifying (i + 1) (take 50 (content entry)))
              (add_warning (NotCp932Compatible (i + 1)) result)
        end in
      let result :=
        if is_speaker entry then
          if negb (match_ re_japanese_name (strip (content entry)))
             || (8 <? len (strip (content entry)))
          then add_suggestion SpeakerNamesShouldBe
                 (add_warning (SpeakerNameUnusual (i + 1) (content entry)) result)
          else result
        else result in
      let result :=
        match strip (content entry) with
        | [] => add_warning (EmptyContent (i + 1)) result
        | _ :: _ => result
        end in
      validate_loop rest (i + 1) result
  end.

(** Its second loop: [for i in range(1, len(entries))], with [prev]
    being [entries[i-1]]. *)
Fixpoint conflict_loop (i : Z) (prev : nat) (rest : list nat)
         (result : ValidationResult) : M ValidationResult :=
  match rest with
  | [] => ret result
  | r :: rest' =>
      e <- load r ;;
      p <- load prev ;;
      let result :=
        if start_offset e <=? end_offset p
        then set_needs_recalculation true
               (add_error (OffsetConflict i (i + 1)) result)
        else result in
      conflict_loop (i + 1) r rest' result
  end.

(** [validate_wsc_entries] *)
Definition validate_wsc_entries (entries : list nat) : M ValidationResult :=
  result <- validate_loop entries 0 new_result ;;
  result <- match entries with
            | r0 :: rest => conflict_loop 1 r0 rest result
            | [] => ret result
            end ;;
  ret (set_is_valid (no_errors result) result).

(** The entries a parse has created, as objects: the i-th entry of the
    list gets the identity [i]. *)
Definition objects (entries : list WSCEntry) : gmap nat WSCEntry :=
  map_seq O entries.
Definition identities (entries : list WSCEntry) : list nat :=
  seq O (length entries).

(** [recompile_wsc_file]. [file_text] is the text read from the input
    file, [None] if reading it failed. The result is the returned pair
    together with the bytes written to the output file, if it was
    written; writing is taken to succeed. *)
Definition recompile_wsc_file (file_text : option str) (preserve_offsets : bool)
  : option (bool * ValidationResult * option bytes) :=
  match file_text with
  | None => Some (false, add_error FailedToRead new_result, None)
  | Some text_content =>
      match parse_github_format text_content with
      | None => None
      | Some (entries, parse_result) =>
          if negb (is_valid parse_result) then Some (false, parse_result, None)
          else
            let refs := identities entries in
            match validate_wsc_entries refs (objects entries) with
            | None => None
            | Some (validation_result, h1) =>
                if negb (is_valid validation_result)
                then Some (false, validation_result, None)
                else
                  let final_result :=
                    {| is_valid := false;
                       errors := errors parse_result;
                       warnings := warnings parse_result
                                   ++ warnings validation_result;
                       suggestions := suggestions parse_result
                                      ++ suggestions validation_result;
                       needs_recalculation :=
                         needs_recalculation validation_result |} in
                  match reconstruct_wsc_binary refs preserve_offsets h1 with
                  | None =>
                      Some (false, add_error FailedToReconstruct final_result,
                            None)
                  | Some (binary_data, h2) =>
                      let final_result :=
                        add_suggestion
                          (SuccessfullyRecompiled (len entries))
                          (set_is_valid true final_result) in
                      if preserve_offsets then
                        match preserve_original_offsets refs h2 with
                        | None =>
                            Some (false,
                                  add_error FailedToReconstruct final_result,
                                  Some binary_data)
                        | Some (ok, _) =>
                            if negb ok
                            then Some (true,
                                       add_warning OffsetsRecalculated
                                         final_result,
                                       Some binary_data)
                            else Some (true, final_result, Some binary_data)
                        end
                      else Some (true, final_result, Some binary_data)
                  end
            end
      end
  end.

End WithRuntime.
End Recompiler.

(* ================================================================== *)
(** * validator.py                                                     *)
(* ================================================================== *)

Module Validator.
Import Py Re.

(** The texts the validator hands to [add_error], [add_warning] and
    [add_suggestion]. *)
Inductive message : Type :=
| InvalidOffsetFormat (line_no : Z) (line30 : str)
| UseFormat
| MissingContent (line_no : Z) (line : str)
| AddContentLine
| NoValidEntries
| EnsureProperLines
| NoEntriesToValidate
| OffsetOrderingIssue (n start m prev_start : Z)
| EnableRecalculationOrFix
| OffsetOverlap (i j : Z)
| RecalculateAllOffsets
| GapDetected (gap i j : Z)
| LargeGap
| LengthChanged (n expected actual : Z)
| ConsiderEnablingRecalculation (content30 : str).

(** [ValidationResult] of recompiler.py, holding the validator's
    texts. *)
Record ValidationResult : Type := {
  is_valid : bool;
  errors : list message;
  warnings : list message;
  suggestions : list message;
  needs_recalculation : bool
}.

Definition new_result : ValidationResult :=
  {| is_valid := false; errors := []; warnings := []; suggestions := [];
     needs_recalculation := false |}.

Definition add_error (m : message) (r : ValidationResult) : ValidationResult :=
  {| is_valid := false;
     errors := errors r ++ [m];
     warnings := warnings r;
     suggestions := suggestions r;
     needs_recalculation := needs_recalculation r |}.

Definition add_warning (m : message) (r : ValidationResult) : ValidationResult :=
  {| is_valid := is_valid r;
     errors := errors r;
     warnings := warnings r ++ [m];
     suggestions := suggestions r;
     needs_recalculation := needs_recalculation r |}.

Definition add_suggestion (m : message) (r : ValidationResult) : ValidationResult :=
  {| is_valid := is_valid r;
     errors := errors r;
     warnings := warnings r;
     suggestions := suggestions r ++ [m];
     needs_recalculation := needs_recalculation r |}.

Definition set_is_valid (b : bool) (r : ValidationResult) : ValidationResult :=
  {| is_valid := b;
     errors := errors r;
     warnings := warnings r;
     suggestions := suggestions r;
     needs_recalculation := needs_recalculation r |}.

Definition set_needs_recalculation (b : bool) (r : ValidationResult)
  : ValidationResult :=
  {| is_valid := is_valid r;
     errors := errors r;
     warnings := warnings r;
     suggestions := suggestions r;
     needs_recalculation := b |}.

(** [len(result.errors) == 0] *)
Definition no_errors (r : ValidationResult) : bool :=
  match errors r with [] => true | _ :: _ => false end.

Definition hex_class : Z -> bool :=      (* [0-9A-Fa-f] *)
  union (range 48 57) (union (range 65 70) (range 97 102)).

(** [wsc_patterns['offset_line']] *)
Definition offset_line : regex :=
  cats [Bol; Chr (one 60); Rep hex_class 8 (Some 8%nat); Chr (one 58);
        Rep hex_class 8 (Some 8%nat); Chr (one 62); Eol].

(** One turn of the loop of [validate_format_structure], on the
    variables [(i, entry_count, result)] and a flag that says that the
    loop was left by [break]. *)
Definition format_body (lines : list str)
           (st : nat * Z * ValidationResult * bool)
  : option (nat * Z * ValidationResult * bool) :=
  let '(i, entry_count, result, _) := st in
  match lines !! i with
  | None => None
  | Some l =>
      let line := strip l in
      match line with
      | [] => Some (S i, entry_count, result, false)
      | _ :: _ =>
          if negb (match_ offset_line line) then
            Some (S i, entry_count,
                  add_suggestion UseFormat
                    (add_error
                       (InvalidOffsetFormat (Z.of_nat i + 1) (take 30 line))
                       result),
                  false)
          else if (length lines <=? i + 1)%nat then
            Some (i, entry_count,
                  add_suggestion AddContentLine
                    (add_error (MissingContent (Z.of_nat i + 1) line) result),
                  true)
          else
            match lines !! S i with
            | None => None
            | Some _ => Some (S (S i), entry_count + 1, result, false)
            end
      end
  end.

(** [WSCValidator.validate_format_structure]; [None] if the call
    raises. *)
Definition validate_format_structure (text : str) : option ValidationResult :=
  let lines := split 10 (strip text) in
  match while (length lines)
              (fun st : nat * Z * ValidationResult * bool =>
                 negb (snd st) && (fst (fst (fst st)) <? length lines)%nat)
              (format_body lines) (O, 0, new_result, false) with
  | None => None
  | Some (_, entry_count, result, _) =>
      let result :=
        if entry_count =? 0
        then add_suggestion EnsureProperLines (add_error NoValidEntries result)
        else result in
      Some (set_is_valid (no_errors result) result)
  end.

Local Notation "x <- m ;; k" := (Recompiler.bind m (fun x => k))
  (at level 100, m at next level, right associativity).
Local Notation "m ;;; k" := (Recompiler.bind m (fun _ => k))
  (at level 100, right associativity).

(** The first loop of [validate_offset_consistency]:
    [for i in range(1, len(entries))], with [prev] being
    [entries[i-1]]. *)
Fixpoint ordering_loop (i : Z) (prev : nat) (rest : list nat)
         (result : ValidationResult) : Recompiler.M ValidationResult :=
  match rest with
  | [] => Recompiler.ret result
  | r :: rest' =>
      e <- Recompiler.load r ;;
      p <- Recompiler.load prev ;;
      let result :=
        if Recompiler.start_offset e <=? Recompiler.start_offset p
        then add_suggestion EnableRecalculationOrFix
               (add_error
                  (OffsetOrderingIssue (i + 1) (Recompiler.start_offset e)
                                       i (Recompiler.start_offset p))
                  result)
        else result in
      let result :=
        if Recompiler.start_offset e <=? Recompiler.end_offset p
        then add_suggestion RecalculateAllOffsets
               (add_error (OffsetOverlap i (i + 1)) result)
        else result in
      ordering_loop (i + 1) r rest' result
  end.

(** Its second loop, over the same indices. *)
Fixpoint gap_loop (i : Z) (prev : nat) (rest : list nat)
         (result : ValidationResult) : Recompiler.M ValidationResult :=
  match rest with
  | [] => Recompiler.ret result
  | r :: rest' =>
      e <- Recompiler.load r ;;
      p <- Recompiler.load prev ;;
      let gap := Recompiler.start_offset e - Recompiler.end_offset p - 1 in
      let result :=
        if 0 <? gap then
          let result := add_warning (GapDetected gap i (i + 1)) result in
          if 100 <? gap then add_suggestion LargeGap result else result
        else result in
      gap_loop (i + 1) r rest' result
  end.

(** [WSCValidator.validate_offset_consistency] *)
Definition validate_offset_consistency (entries : list nat)
  : Recompiler.M ValidationResult :=
  match entries with
  | [] => Recompiler.ret (add_error NoEntriesToValidate new_result)
  | r0 :: rest =>
      result <- ordering_loop 1 r0 rest new_result ;;
      result <- gap_loop 1 r0 rest result ;;
      Recompiler.ret (set_is_valid (no_errors result) result)
  end.

Section WithRuntime.
Context (R : Runtime).

(** The loop of [validate_binary_consistency]:
    [for i, entry in enumerate(entries)]. *)
Fixpoint binary_loop (entries : list nat) (i : Z) (result : ValidationResult)
  : Recompiler.M ValidationResult :=
  match entries with
  | [] => Recompiler.ret result
  | r :: rest =>
      entry <- Recompiler.load r ;;
      b <- match Recompiler.binary_data entry with
           | None =>
               let b := Recompiler.content_to_binary R
                          (Recompiler.content entry)
                          (Recompiler.is_speaker entry) in
               Recompiler.store r (Recompiler.set_binary_data b entry) ;;;
               Recompiler.ret b
           | Some b => Recompiler.ret b
           end ;;
      let actual_length := len b in
      let expected_length := Recompiler.original_length entry + 1 in
      let result :=
        if negb (actual_length =? expected_length)
        then set_needs_recalculation true
               (add_suggestion
                  (ConsiderEnablingRecalculation
                     (take 30 (Recompiler.content entry)))
                  (add_warning
                     (LengthChanged (i + 1) expected_length actual_length)
                     result))
        else result in
      binary_loop rest (i + 1) result
  end.

(** [WSCValidator.validate_binary_consistency] *)
Definition validate_binary_consistency (entries : list nat)
  : Recompiler.M ValidationResult :=
  result <- binary_loop entries 0 new_result ;;
  Recompiler.ret (set_is_valid (no_errors result) result).

(** The dictionary [quick_validate] returns; an issue is the number of
    a line and the start of its text. ['line_issues'] stays empty. *)
Record QuickResult : Type := {
  valid : bool;
  quick_errors : list (Z * str);
  quick_warnings : list (Z * str)
}.

(** The first loop of [quick_validate]:
    [for i, line in enumerate(lines)]. *)
Fixpoint quick_lines (lines : list str) (i : nat) (result : QuickResult)
  : QuickResult :=
  match lines with
  | [] => result
  | line :: rest =>
      let line_stripped := strip line in
      let result :=
        match line_stripped with
        | [] => result
        | _ :: _ =>
            if Nat.even i && negb (match_ offset_line line_stripped)
            then {| valid := false;
                    quick_errors := quick_errors result
                                    ++ [(Z.of_nat i + 1, take 30 line_stripped)];
                    quick_warnings := quick_warnings result |}
            else result
        end in
      quick_lines rest (S i) result
  end.

(** [[lines[i].strip() for i in range(1, len(lines), 2)]] *)
Fixpoint content_lines (lines : list str) : list str :=
  match lines with
  | _ :: l :: rest => strip l :: content_lines rest
  | _ => []
  end.

(** The second loop: [for i, content in enumerate(content_lines)]. *)
Fixpoint quick_contents (contents : list str) (i : Z) (result : QuickResult)
  : QuickResult :=
  match contents with
  | [] => result
  | content :: rest =>
      let result :=
        match content with
        | [] => result
        | _ :: _ =>
            match cp932_encode R content with
            | Some _ => result
            | None =>
                {| valid := valid result;
                   quick_errors := quick_errors result;
                   quick_warnings := quick_warnings result
                                     ++ [((i + 1) * 2, take 20 content)] |}
            end
        end in
      quick_contents rest (i + 1) result
  end.

(** [WSCValidator.quick_validate] *)
Definition quick_validate (text : str) : QuickResult :=
  let lines := split 10 text in
  let result :=
    quick_lines lines O
      {| valid := true; quick_errors := []; quick_warnings := [] |} in
  if valid result && negb (Nat.eqb (length lines) 0)
  then quick_contents (content_lines lines) 0 result
  else result.

End WithRuntime.
End Validator.

(* ================================================================== *)
(** * A fragment of the runtime tables, for evaluating examples        *)
(* ================================================================== *)

Module Fixture.
Import Py.

(** Rows of the CP932 table (code point, lead byte, trail byte) for the
    characters of the repository's test data; Shift-JIS has the same
    rows. *)
Definition table : list (Z * (Z * Z)) :=
  [ (0x3000, (0x81, 0x40));   (* ideographic space *)
    (0x3001, (0x81, 0x41));   (* ideographic comma *)
    (0x3002, (0x81, 0x42));   (* ideographic full stop *)
    (0x3044, (0x82, 0xA2));   (* hiragana i *)
    (0x3053, (0x82, 0xB1));   (* hiragana ko *)
    (0x3059, (0x82, 0xB7));   (* hiragana su *)
    (0x3061, (0x82, 0xBF));   (* hiragana ti *)
    (0x3067, (0x82, 0xC5));   (* hiragana de *)
    (0x306B, (0x82, 0xC9));   (* hiragana ni *)
    (0x306D, (0x82, 0xCB));   (* hiragana ne *)
    (0x306F, (0x82, 0xCD));   (* hiragana ha *)
    (0x3093, (0x82, 0xF1));   (* hiragana n *)
    (0x4E16, (0x90, 0xA2));   (* U+4E16 *)
    (0x4E45, (0x8B, 0x76));   (* U+4E45 *)
    (0x4ECA, (0x8D, 0xA1));   (* U+4ECA *)
    (0x591C, (0x96, 0xE9));   (* U+591C *)
    (0x5929, (0x93, 0x56));   (* U+5929 *)
    (0x65E5, (0x93, 0xFA));   (* U+65E5 *)
    (0x6C17, (0x8B, 0x43));   (* U+6C17 *)
    (0x754C, (0x8A, 0x45));   (* U+754C *)
    (0x7F8E, (0x94, 0xFC));   (* U+7F8E *)
    (0x826F, (0x97, 0xC7));   (* U+826F *)
    (0x91CC, (0x97, 0xA2)) ]. (* U+91CC *)

Fixpoint find_char (t : list (Z * (Z * Z))) (hi lo : Z) : option Z :=
  match t with
  | [] => None
  | (c, (h, l)) :: rest =>
      if (h =? hi) && (l =? lo) then Some c else find_char rest hi lo
  end.

Fixpoint find_bytes (t : list (Z * (Z * Z))) (c : Z) : option (Z * Z) :=
  match t with
  | [] => None
  | (c', hl) :: rest => if c' =? c then Some hl else find_bytes rest c
  end.

(** ASCII bytes decode to themselves, a table pair to its character;
    anything else is outside the fragment and is rejected. *)
Fixpoint dbcs_decode (raw : bytes) : option str :=
  match raw with
  | [] => Some []
  | b :: t =>
      if byte_val b <? 0x80 then
        match dbcs_decode t with
        | Some s => Some (byte_val b :: s)
        | None => None
        end
      else
        match t with
        | [] => None
        | b2 :: t' =>
            match find_char table (byte_val b) (byte_val b2), dbcs_decode t' with
            | Some c, Some s => Some (c :: s)
            | _, _ => None
            end
        end
  end.

Definition dbcs_encode_char (c : Z) : option bytes :=
  if (0 <=? c) && (c <? 0x80) then Some (blit [c])
  else match find_bytes table c with
       | Some (h, l) => Some (blit [h; l])
       | None => None
       end.

Fixpoint dbcs_encode (s : str) : option bytes :=
  match s with
  | [] => Some []
  | c :: t =>
      match dbcs_encode_char c, dbcs_encode t with
      | Some b, Some bs => Some (b ++ bs)
      | _, _ => None
      end
  end.

Definition ascii_decode (raw : bytes) : option str :=
  if forallb (fun b => byte_val b <? 0x80) raw
  then Some (map byte_val raw) else None.

Definition runtime : Runtime :=
  {| cp932_decode := dbcs_decode;
     cp932_encode := dbcs_encode;
     shift_jis_decode := dbcs_decode;
     shift_jis_encode := dbcs_encode;
     utf8_decode := ascii_decode;
     isprintable := fun c =>
       ((0x20 <=? c) && (c <=? 0x7E))
       || ((0x3001 <=? c) && match find_bytes table c with
                             | Some _ => true
                             | None => false
                             end);
     todecimal := fun c =>
       if (0xFF10 <=? c) && (c <=? 0xFF19) then Some (c - 0xFF10)
       else None |}.

(** The names and sentences of the repository's tests. *)
Definition yaku : str := [0x591C; 0x4E45].
Definition konnichiwa_sekai : str :=
  [0x3053; 0x3093; 0x306B; 0x3061; 0x306F; 0x4E16; 0x754C].
Definition kyou_wa_ii_tenki : str :=
  [0x4ECA; 0x65E5; 0x306F; 0x826F; 0x3044; 0x5929; 0x6C17; 0x3067; 0x3059; 0x306D].

(** The buffer of the repository's round-trip test: a resource record,
    the name U+591C U+4E45 behind two marker bytes, the sentence
    [konnichiwa_sekai] behind one marker byte, an audio record. *)
Definition scenario : bytes :=
  bascii "DAY0904" ++ [x00]
  ++ blit [0x0F; 0x0F; 0x96; 0xE9; 0x8B; 0x76; 0x00]
  ++ blit [0x0F; 0x82; 0xB1; 0x82; 0xF1; 0x82; 0xC9; 0x82; 0xBF; 0x82; 0xCD;
           0x90; 0xA2; 0x8A; 0x45; 0x00]
  ++ bascii "SE_104.ogg" ++ [x00].

(** The transcript [decompile_wsc_file] writes for it. *)
Definition scenario_transcript : str :=
  lit "<00000000:00000007>" ++ [10] ++ lit "DAY0904" ++ [10; 10]
  ++ lit "<00000008:0000000E>" ++ [10] ++ lit "." ++ yaku ++ [10; 10]
  ++ lit "<0000000F:0000001E>" ++ [10] ++ lit "." ++ konnichiwa_sekai ++ [10; 10]
  ++ lit "<0000001F:00000029>" ++ [10] ++ lit "SE_104.ogg" ++ [10; 10].

(** The buffer recompiled from that transcript: the sentence now sits
    behind two marker bytes. *)
Definition scenario_recompiled : bytes :=
  bascii "DAY0904" ++ [x00]
  ++ blit [0x0F; 0x0F; 0x96; 0xE9; 0x8B; 0x76; 0x00]
  ++ blit [0x0F; 0x0F; 0x82; 0xB1; 0x82; 0xF1; 0x82; 0xC9; 0x82; 0xBF; 0x82;
           0xCD; 0x90; 0xA2; 0x8A; 0x45; 0x00]
  ++ bascii "SE_104.ogg" ++ [x00].

(** The transcript [decompile_wsc_file] writes for the recompiled
    buffer: the same four content lines, the last two records one byte
    further on. *)
Definition scenario_transcript_again : str :=
  lit "<00000000:00000007>" ++ [10] ++ lit "DAY0904" ++ [10; 10]
  ++ lit "<00000008:0000000E>" ++ [10] ++ lit "." ++ yaku ++ [10; 10]
  ++ lit "<0000000F:0000001F>" ++ [10] ++ lit "." ++ konnichiwa_sekai ++ [10; 10]
  ++ lit "<00000020:0000002A>" ++ [10] ++ lit "SE_104.ogg" ++ [10; 10].

(** The records [extract_all_null_strings] finds in [scenario]. *)
Definition scenario_records : list (nat * nat * bytes * str) :=
  [ (0%nat, 7%nat, bascii "DAY0904", lit "DAY0904");
    (8%nat, 14%nat, blit [0x0F; 0x0F; 0x96; 0xE9; 0x8B; 0x76], 15 :: 15 :: yaku);
    (15%nat, 30%nat,
     blit [0x0F; 0x82; 0xB1; 0x82; 0xF1; 0x82; 0xC9; 0x82; 0xBF; 0x82; 0xCD;
           0x90; 0xA2; 0x8A; 0x45],
     15 :: konnichiwa_sekai);
    (31%nat, 41%nat, bascii "SE_104.ogg", lit "SE_104.ogg") ].

(** And in [scenario_recompiled]. *)
Definition scenario_records_again : list (nat * nat * bytes * str) :=
  [ (0%nat, 7%nat, bascii "DAY0904", lit "DAY0904");
    (8%nat, 14%nat, blit [0x0F; 0x0F; 0x96; 0xE9; 0x8B; 0x76], 15 :: 15 :: yaku);
    (15%nat, 31%nat,
     blit [0x0F; 0x0F; 0x82; 0xB1; 0x82; 0xF1; 0x82; 0xC9; 0x82; 0xBF; 0x82;
           0xCD; 0x90; 0xA2; 0x8A; 0x45],
     15 :: 15 :: konnichiwa_sekai);
    (32%nat, 42%nat, bascii "SE_104.ogg", lit "SE_104.ogg") ].

(** What the scenario asks of the CP932 codec of a runtime: the entries
    of the CP932 table for the byte strings and texts that occur in it. *)
Definition scenario_codec (R : Runtime) : Prop :=
  cp932_decode R (bascii "DAY0904") = Some (lit "DAY0904")
  /\ cp932_decode R (blit [0x0F; 0x0F; 0x96; 0xE9; 0x8B; 0x76])
     = Some (15 :: 15 :: yaku)
  /\ cp932_decode R (blit [0x96; 0xE9; 0x8B; 0x76]) = Some yaku
  /\ cp932_decode R (blit [0x0F; 0x82; 0xB1; 0x82; 0xF1; 0x82; 0xC9; 0x82; 0xBF;
                           0x82; 0xCD; 0x90; 0xA2; 0x8A; 0x45])
     = Some (15 :: konnichiwa_sekai)
  /\ cp932_decode R (blit [0x0F; 0x0F; 0x82; 0xB1; 0x82; 0xF1; 0x82; 0xC9; 0x82;
                           0xBF; 0x82; 0xCD; 0x90; 0xA2; 0x8A; 0x45])
     = Some (15 :: 15 :: konnichiwa_sekai)
  /\ cp932_decode R (blit [0x82; 0xB1; 0x82; 0xF1; 0x82; 0xC9; 0x82; 0xBF; 0x82;
                           0xCD; 0x90; 0xA2; 0x8A; 0x45])
     = Some konnichiwa_sekai
  /\ cp932_decode R (bascii "SE_104.ogg") = Some (lit "SE_104.ogg")
  /\ cp932_encode R (lit "DAY0904") = Some (bascii "DAY0904")
  /\ cp932_encode R yaku = Some (blit [0x96; 0xE9; 0x8B; 0x76])
  /\ cp932_encode R konnichiwa_sekai
     = Some (blit [0x82; 0xB1; 0x82; 0xF1; 0x82; 0xC9; 0x82; 0xBF; 0x82; 0xCD;
                   0x90; 0xA2; 0x8A; 0x45])
  /\ cp932_encode R (lit "SE_104.ogg") = Some (bascii "SE_104.ogg").

(** The CP932 bytes of [kyou_wa_ii_tenki]. *)
Definition kyou_wa_ii_tenki_cp932 : bytes :=
  blit [0x8D; 0xA1; 0x93; 0xFA; 0x82; 0xCD; 0x97; 0xC7; 0x82; 0xA2; 0x93; 0x56;
        0x8B; 0x43; 0x82; 0xC5; 0x82; 0xB7; 0x82; 0xCB].

(** Two entry objects as parsed from an unedited transcript, and the
    same two after the name has been edited to a shorter text. *)
Definition unedited : gmap nat Recompiler.WSCEntry :=
  Recompiler.objects
    [Recompiler.new_entry 0 7 (lit "DAY0904") false;
     Recompiler.new_entry 8 14 yaku true].

Definition edited : gmap nat Recompiler.WSCEntry :=
  Recompiler.objects
    [Recompiler.new_entry 0 7 (lit "DAY0904") false;
     Recompiler.new_entry 8 14 (lit "AB") true].

End Fixture.

(* ================================================================== *)
(** * Vocabulary of the statements                                     *)
(* ================================================================== *)

Module Spec.
Import Py Re Decompiler Recompiler.

(** The bytes [content_to_binary] gives for the entry object [r]. *)
Definition binary_of (R : Runtime) (h : gmap nat WSCEntry) (r : nat) : bytes :=
  match h !! r with
  | Some e => content_to_binary R (content e) (is_speaker e)
  | None => []
  end.

(** The re-encoded length of the entry object [r] is its
    [original_length + 1]. *)
Definition length_matches (R : Runtime) (h : gmap nat WSCEntry) (r : nat) : bool :=
  match h !! r with
  | Some e =>
      len (content_to_binary R (content e) (is_speaker e))
      =? original_length e + 1
  | None => false
  end.

(** The number of bytes the entries [rs] re-encode to. *)
Definition total_length (R : Runtime) (h : gmap nat WSCEntry) (rs : list nat) : Z :=
  len (mjoin (map (binary_of R h) rs)).

(** The fields of an entry other than its offsets and its binary. *)
Definition text_of (e : WSCEntry)
  : str * bool * Z * list message * list message :=
  (content e, is_speaker e, original_length e, entry_warnings e, entry_errors e).

(** The offsets of an entry. *)
Definition offsets_of (e : WSCEntry) : Z * Z := (start_offset e, end_offset e).

(** An entry with its offsets blanked. *)
Definition sans_offsets (e : WSCEntry) : WSCEntry := set_offsets 0 0 e.

(** One to eight characters, all in the ranges of the name pattern. *)
Definition name_shape (s : str) : bool :=
  (1 <=? len s) && (len s <=? 8) && forallb name_char s.

(** Every identity in the list is that of a live entry object. *)
Definition allocated (h : gmap nat WSCEntry) (refs : list nat) : Prop :=
  Forall (fun r => is_Some (h !! r)) refs.

(** No operation of the recompiler changes the text fields of any
    object, or creates or destroys one. *)
Definition stable (h h' : gmap nat WSCEntry) : Prop :=
  forall r, text_of <$> (h !! r) = text_of <$> (h' !! r).

Definition live (h : gmap nat WSCEntry) (refs : list nat) : Prop :=
  forall r, r ∈ refs -> is_Some (h !! r).

(** The object [r] carries the binary of its own content. *)
Definition bin_set (R : Runtime) (h : gmap nat WSCEntry) (r : nat) : Prop :=
  exists e, h !! r = Some e
            /\ binary_data e = Some (content_to_binary R (content e) (is_speaker e)).

End Spec.

Module SpecExtract.
Import Py Decompiler.

(** What the emitted runs spell together with the nulls around them:
    from position [pos], nulls up to the start of the next run, the
    bytes of that run, and so on from its end; after the last run,
    nulls up to the length [N] of the buffer. The nulls between two
    runs are the terminator of the first and the skipped empty runs. *)
Fixpoint rebuild (N pos : nat) (runs : list (nat * nat * bytes * str)) : bytes :=
  match runs with
  | [] => repeat x00 (N - pos)
  | (s, e, raw, _) :: rest => repeat x00 (s - pos) ++ raw ++ rebuild N e rest
  end.

(** [(s, e, raw, decoded)] is a maximal run of non-zero bytes of [data]
    with its half-open range and its decoded text. *)
Definition maximal_run (R : Runtime) (data : bytes)
           (run : nat * nat * bytes * str) : Prop :=
  let '(s, e, raw, decoded) := run in
  (s < e <= length data)%nat
  /\ raw = slice data s e
  /\ Forall (fun b => b <> x00) raw
  /\ (s = O \/ data !! (s - 1)%nat = Some x00)
  /\ (e = length data \/ data !! e = Some x00)
  /\ exists enc, decode_try R raw = Some (decoded, enc).

(** The runs come in ascending order from [pos] on, each one non-empty
    and at least one byte after the end of the one before. *)
Fixpoint ascending (pos : nat) (runs : list (nat * nat * bytes * str)) : Prop :=
  match runs with
  | [] => True
  | (s, e, _, _) :: rest => (pos <= s)%nat /\ (s < e)%nat /\ ascending (S e) rest
  end.

(** The position [i] lies in one of the runs. *)
Definition covered (runs : list (nat * nat * bytes * str)) (i : nat) : Prop :=
  exists s e raw decoded,
    (s, e, raw, decoded) ∈ runs /\ (s <= i < e)%nat.

(** A buffer tail [l] that starts at position [pos] splits into nulls
    and null-terminated runs of non-zero bytes, the last of which may
    lack its terminator. *)
Inductive decomposes (R : Runtime)
  : nat -> bytes -> list (nat * nat * bytes * str) -> Prop :=
| dec_nil pos : decomposes R pos [] []
| dec_null pos t rs :
    decomposes R (S pos) t rs -> decomposes R pos (x00 :: t) rs
| dec_tail pos r decoded enc :
    r <> [] -> Forall (fun b => b <> x00) r ->
    decode_try R r = Some (decoded, enc) ->
    decomposes R pos r [(pos, (pos + length r)%nat, r, decoded)]
| dec_run pos r t rs decoded enc :
    r <> [] -> Forall (fun b => b <> x00) r ->
    decode_try R r = Some (decoded, enc) ->
    decomposes R (S (pos + length r)) t rs ->
    decomposes R pos (r ++ x00 :: t)
               ((pos, (pos + length r)%nat, r, decoded) :: rs).

End SpecExtract.

Module SpecLayout.
Import Py Re.

(** The least number of characters a match of a pattern consumes. *)
Fixpoint min_len (r : regex) : nat :=
  match r with
  | Eps | Bol | Eol => O
  | Chr _ => 1%nat
  | Rep _ lo _ => lo
  | Cat r1 r2 => (min_len r1 + min_len r2)%nat
  | Alt r1 r2 => Nat.min (min_len r1) (min_len r2)
  end.

(** No backslash is directly followed by the letter [n]. *)
Fixpoint no_escape (s : str) : Prop :=
  match s with
  | a :: ((b :: _) as t) => ~ (a = 92 /\ b = 110) /\ no_escape t
  | _ => True
  end.

(** The offsets of the entry object [r]. *)
Definition offsets_at (h : gmap nat Recompiler.WSCEntry) (r : nat) : Z * Z :=
  match h !! r with
  | Some e => (Recompiler.start_offset e, Recompiler.end_offset e)
  | None => (0, 0)
  end.

(** Each range ends before the next one starts. *)
Fixpoint no_overlap (l : list (Z * Z)) : Prop :=
  match l with
  | (_, e) :: (((s, _) :: _) as t) => e < s /\ no_overlap t
  | _ => True
  end.

(** The ranges follow one another from [from] on without a gap, and
    none ends before it starts. *)
Fixpoint contiguous (from : Z) (l : list (Z * Z)) : Prop :=
  match l with
  | [] => True
  | (s, e) :: t => s = from /\ s <= e /\ contiguous (e + 1) t
  end.

(** A record of the container: a non-empty run of non-zero bytes and
    its terminator. *)
Definition well_terminated (b : bytes) : Prop :=
  exists body, b = body ++ [x00] /\ body <> []
               /\ Forall (fun c => c <> x00) body.

(** The offsets and the bytes of an extracted record. *)
Definition span_of (rec : nat * nat * bytes * str) : Z * Z :=
  let '(s, e, _, _) := rec in (Z.of_nat s, Z.of_nat e).

Definition raw_of (rec : nat * nat * bytes * str) : bytes :=
  let '(_, _, raw, _) := rec in raw.

(** The first and the last position of each binary of a list laid out
    from [pos] on. *)
Fixpoint spans (pos : Z) (bins : list bytes) : list (Z * Z) :=
  match bins with
  | [] => []
  | b :: t => (pos, pos + len b - 1) :: spans (pos + len b) t
  end.

End SpecLayout.

Module SpecTranscript.
Import Py.

(** The value of a string of hex digits read after [acc]. *)
Definition hex_value (acc : Z) (s : str) : Z :=
  fold_left (fun a c => 16 * a + default 0 (hex_digit c)) s acc.

Definition is_hex (c : Z) : bool :=
  match hex_digit c with Some _ => true | None => false end.

(** [<start:end>] as [decompile_wsc_file] writes it. *)
Definition header (s e : Z) : str :=
  lit "<" ++ format_08X s ++ lit ":" ++ format_08X e ++ lit ">".

(** The text [decompile_wsc_file] writes for records given by their
    offsets and their content line. *)
Fixpoint render (recs : list (Z * Z * str)) : str :=
  match recs with
  | [] => []
  | (s, e, l) :: t => header s e ++ [10] ++ l ++ [10; 10] ++ render t
  end.

(** The entry [parse_github_format] makes of a header and a trimmed
    content line. *)
Definition entry_of_content (s e : Z) (content : str) : Recompiler.WSCEntry :=
  let is_speaker := str_startswith content (lit ".") && (1 <? len content) in
  Recompiler.new_entry s e
    (replace [92; 110] [10] (if is_speaker then drop 1 content else content))
    is_speaker.


(** The lines of a rendered text, before [tail]. *)
Fixpoint lines_of (recs : list (Z * Z * str)) (tail : list str) : list str :=
  match recs with
  | [] => tail
  | (s, e, l) :: t => header s e :: l :: [] :: lines_of t tail
  end.

(** Offsets are not negative and the content has no newline. *)
Definition one_line (rec : Z * Z * str) : Prop :=
  let '(s, e, l) := rec in 0 <= s /\ 0 <= e /\ ~ In 10 l.

(** The records [decompile_wsc_file] writes: offsets and content line
    of every record that [is_meaningful] keeps. *)
Fixpoint written (R : Runtime) (strings : list (nat * nat * bytes * str))
  : list (Z * Z * str) :=
  match strings with
  | [] => []
  | (start, end_, raw, decoded) :: rest =>
      if Decompiler.is_meaningful R decoded raw then
        match Decompiler.convert_speaker R (Decompiler.sanitize decoded) raw with
        | Some cleaned => (Z.of_nat start, Z.of_nat end_, cleaned) :: written R rest
        | None => written R rest
        end
      else written R rest
  end.

End SpecTranscript.

Module SpecValidator.
Import Py Recompiler.

(** Every entry starts after the start and after the end of the entry
    before it. *)
Fixpoint ascending_spans (l : list (Z * Z)) : Prop :=
  match l with
  | (s, e) :: (((s', _) :: _) as t) => s < s' /\ e < s' /\ ascending_spans t
  | _ => True
  end.

(** The object [r] carries no binary, or the binary of its own
    content. *)
Definition binary_current (R : Runtime) (h : gmap nat WSCEntry) (r : nat)
  : Prop :=
  exists e, h !! r = Some e
            /\ (binary_data e = None
                \/ binary_data e
                   = Some (content_to_binary R (content e) (is_speaker e))).

(** The loop conditions of [validate_format_structure] and of
    [parse_github_format]. *)
Definition format_cond (lines : list str)
           (st : nat * Z * Validator.ValidationResult * bool) : bool :=
  negb (snd st) && (fst (fst (fst st)) <? length lines)%nat.

Definition parse_cond (lines : list str)
           (st : nat * list WSCEntry * ValidationResult) : bool :=
  (fst (fst st) <? length lines)%nat.

(** The warnings hold no note of a recalculation. *)
Definition other_warnings (r : ValidationResult) : Prop :=
  ~ In OffsetsRecalculated (warnings r).

End SpecValidator.

(* ================================================================== *)
(** * Properties                                                       *)
(* ================================================================== *)

Import Py Re Decompiler Recompiler Spec SpecExtract.

Section Properties.
Context (R : Runtime).

(** ** The text decoder *)

Lemma decode_try_some (raw : bytes) :
  exists s enc, decode_try R raw = Some (s, enc).
Proof.
  unfold decode_try, DECODERS; simpl.
  destruct (cp932_decode R raw); [eauto|].
  destruct (shift_jis_decode R raw); [eauto|].
  destruct (utf8_decode R raw); eauto.
Qed.

(** C7. For every byte slice, the empty one included, [decode_try]
    returns a text and an encoding tag and does not raise. The result is
    that of CP932 if CP932 accepts the slice, else that of Shift-JIS if
    it does, else that of UTF-8 if it does, else that of latin-1, whose
    decoder accepts every byte sequence and maps each byte to the
    character of the same value. *)
Theorem decode_try_total (raw : bytes) :
  (exists s enc, decode_try R raw = Some (s, enc))
  /\ decode_try R raw =
       match cp932_decode R raw with
       | Some s => Some (s, cp932)
       | None =>
           match shift_jis_decode R raw with
           | Some s => Some (s, shift_jis)
           | None =>
               match utf8_decode R raw with
               | Some s => Some (s, utf_8)
               | None => Some (map byte_val raw, latin_1)
               end
           end
       end
  /\ decode R latin_1 raw = Some (map byte_val raw)
  /\ decode_latin1_replace raw = Some (map byte_val raw).
Proof.
  split; [apply decode_try_some|].
  unfold decode_try, DECODERS; simpl.
  destruct (cp932_decode R raw); [auto|].
  destruct (shift_jis_decode R raw); [auto|].
  destruct (utf8_decode R raw); auto.
Qed.

(** ** Reconstruction *)


Lemma stable_refl h : stable h h.
Proof. intros r; reflexivity. Qed.

Lemma stable_trans h1 h2 h3 : stable h1 h2 -> stable h2 h3 -> stable h1 h3.
Proof. intros H12 H23 r. rewrite H12. apply H23. Qed.

Lemma stable_store h r e e' :
  h !! r = Some e -> text_of e' = text_of e -> stable h (<[r := e']> h).
Proof.
  intros Hr He r'. destruct (decide (r = r')) as [<-|Hne].
  - rewrite lookup_insert_eq, Hr. simpl. congruence.
  - rewrite lookup_insert_ne by done. reflexivity.
Qed.

Lemma stable_live h h' refs :
  stable h h' -> live h refs -> live h' refs.
Proof.
  intros Hs Ha r Hr. specialize (Ha r Hr). specialize (Hs r).
  destruct Ha as [e He]. rewrite He in Hs. simpl in Hs.
  destruct (h' !! r); [eauto|discriminate].
Qed.

Lemma stable_binary_of h h' r : stable h h' -> binary_of R h' r = binary_of R h r.
Proof.
  intros Hs. specialize (Hs r). unfold binary_of.
  destruct (h !! r) as [e|], (h' !! r) as [e'|]; simpl in Hs; try discriminate; auto.
  unfold text_of in Hs. injection Hs as <- <- _ _ _. reflexivity.
Qed.

Lemma stable_length_matches h h' r :
  stable h h' -> length_matches R h' r = length_matches R h r.
Proof.
  intros Hs. specialize (Hs r). unfold length_matches.
  destruct (h !! r) as [e|], (h' !! r) as [e'|]; simpl in Hs; try discriminate; auto.
  unfold text_of in Hs. injection Hs as <- <- <- _ _. reflexivity.
Qed.

Lemma stable_total_length h h' rs :
  stable h h' -> total_length R h' rs = total_length R h rs.
Proof.
  intros Hs. unfold total_length. f_equal. f_equal.
  apply map_ext. intros r. apply stable_binary_of, Hs.
Qed.

Lemma bin_set_binary_of h r :
  bin_set R h r ->
  exists e, h !! r = Some e /\ binary_data e = Some (binary_of R h r).
Proof.
  intros (e & He & Hb). exists e. split; [done|].
  unfold binary_of. rewrite He. done.
Qed.

Lemma total_length_cons h r rs :
  total_length R h (r :: rs) = len (binary_of R h r) + total_length R h rs.
Proof.
  unfold total_length, len. simpl. rewrite length_app. lia.
Qed.

(** [calculate_new_offsets], from any running total. *)
Lemma calculate_loop_spec refs : forall cur h,
  live h refs ->
  exists h',
    calculate_loop R refs cur h = Some (tt, h')
    /\ stable h h'
    /\ (forall r, r ∉ refs -> h' !! r = h !! r)
    /\ (forall r, r ∈ refs -> bin_set R h' r)
    /\ (NoDup refs ->
        forall i r, refs !! i = Some r ->
          exists e, h' !! r = Some e
                    /\ start_offset e = cur + total_length R h (take i refs)
                    /\ end_offset e = start_offset e + len (binary_of R h r) - 1).
Proof.
  induction refs as [|r rest IH]; intros cur h Ha.
  - exists h. simpl. unfold ret. split; [done|]. split; [apply stable_refl|].
    split; [done|]. split.
    + intros r Hr. inversion Hr.
    + intros _ i r Hi. rewrite lookup_nil in Hi. discriminate.
  - destruct (Ha r) as [e He]; [left|].
    simpl. unfold bind, load, store. rewrite He.
    set (b := content_to_binary R (content e) (is_speaker e)).
    set (e1 := set_offsets cur (cur + len b - 1) (set_binary_data b e)).
    set (h1 := <[r := e1]> h).
    assert (Hs1 : stable h h1) by (apply (stable_store h r e e1 He); reflexivity).
    destruct (IH (cur + len b) h1) as (h' & Hrun & Hs & Hout & Hbin & Hoff).
    { apply (stable_live h h1); [done|]. intros r' Hr'. apply Ha. by right. }
    exists h'. split; [exact Hrun|]. split; [eapply stable_trans; eauto|].
    assert (Hr1 : r ∉ rest -> h' !! r = Some e1).
    { intros Hn. rewrite (Hout r Hn). unfold h1. apply lookup_insert_eq. }
    split; [|split].
    + intros r' Hr'. apply not_elem_of_cons in Hr' as [Hne Hn].
      rewrite (Hout r' Hn). unfold h1. by rewrite lookup_insert_ne.
    + intros r' Hr'. destruct (decide (r' ∈ rest)) as [Hin|Hn]; [by apply Hbin|].
      apply elem_of_cons in Hr' as [->|Hin]; [|done].
      exists e1. split; [by apply Hr1|]. reflexivity.
    + intros Hnd i r' Hi. apply NoDup_cons in Hnd as [Hn Hnd].
      destruct i as [|j]; simpl in Hi.
      * injection Hi as <-. exists e1. split; [by apply Hr1|].
        simpl. unfold total_length, binary_of. rewrite He. simpl.
        fold b. change (len (@nil byte)) with 0. split; lia.
      * destruct (Hoff Hnd j r' Hi) as (e' & He' & Hst & Hen).
        exists e'. split; [done|].
        rewrite (stable_total_length h h1) in Hst by done.
        rewrite (stable_binary_of h h1) in Hen by done.
        simpl. rewrite total_length_cons. unfold binary_of at 1. rewrite He.
        fold b. split; lia.
Qed.

Lemma forallb_pointwise {A} (f g : A -> bool) (l : list A) :
  (forall x, f x = g x) -> forallb f l = forallb g l.
Proof. intros E. induction l as [|x l IH]; simpl; [done|]. by rewrite E, IH. Qed.

(** [preserve_original_offsets] *)
Lemma preserve_original_offsets_spec refs : forall h,
  live h refs ->
  exists ok h',
    preserve_original_offsets R refs h = Some (ok, h')
    /\ stable h h'
    /\ (forall r, offsets_of <$> (h' !! r) = offsets_of <$> (h !! r))
    /\ (forall r, r ∉ refs -> h' !! r = h !! r)
    /\ ok = forallb (length_matches R h) refs
    /\ (ok = true -> forall r, r ∈ refs -> bin_set R h' r).
Proof.
  induction refs as [|r rest IH]; intros h Ha.
  - exists true, h. simpl. unfold ret. split; [done|].
    split; [apply stable_refl|]. split; [done|]. split; [done|].
    split; [done|]. intros _ r Hr. inversion Hr.
  - destruct (Ha r) as [e He]; [left|].
    simpl. unfold bind, load, store. rewrite He.
    set (b := content_to_binary R (content e) (is_speaker e)).
    set (e1 := set_binary_data b e).
    set (h1 := <[r := e1]> h).
    assert (Hs1 : stable h h1) by (apply (stable_store h r e e1 He); reflexivity).
    assert (Ho1 : forall r', offsets_of <$> (h1 !! r') = offsets_of <$> (h !! r')).
    { intros r'. unfold h1. destruct (decide (r = r')) as [<-|Hne].
      - rewrite lookup_insert_eq, He. reflexivity.
      - by rewrite lookup_insert_ne. }
    assert (Hm : length_matches R h r = (len b =? original_length e + 1)).
    { unfold length_matches. rewrite He. reflexivity. }
    rewrite Hm.
    destruct (len b =? original_length e + 1) eqn:Hlen; simpl.
    + destruct (IH h1) as (ok & h' & Hrun & Hs & Ho & Hout & Hok & Hbin).
      { apply (stable_live h h1); [done|]. intros r' Hr'. apply Ha. by right. }
      exists ok, h'. split; [exact Hrun|]. split; [eapply stable_trans; eauto|].
      split; [intros r'; rewrite Ho; apply Ho1|].
      split; [|split].
      * intros r' Hr'. apply not_elem_of_cons in Hr' as [Hne Hn].
        rewrite (Hout r' Hn). unfold h1. by rewrite lookup_insert_ne.
      * rewrite Hok. apply forallb_pointwise. intros r'.
        apply stable_length_matches, Hs1.
      * intros Htrue r' Hr'.
        destruct (decide (r' ∈ rest)) as [Hin|Hn]; [by apply Hbin|].
        apply elem_of_cons in Hr' as [->|Hin]; [|done].
        exists e1. split; [|reflexivity].
        rewrite (Hout r Hn). unfold h1. apply lookup_insert_eq.
    + exists false, h1. unfold ret. split; [done|]. split; [done|].
      split; [done|]. split; [|split; [done|discriminate]].
      intros r' Hr'. apply not_elem_of_cons in Hr' as [Hne Hn].
      unfold h1. by rewrite lookup_insert_ne.
Qed.

(** The final concatenation. *)
Lemma combine_loop_spec refs : forall acc h,
  (forall r, r ∈ refs -> bin_set R h r) ->
  combine_loop refs acc h = Some (acc ++ mjoin (map (binary_of R h) refs), h).
Proof.
  induction refs as [|r rest IH]; intros acc h Hb; simpl.
  - unfold ret. by rewrite app_nil_r.
  - destruct (bin_set_binary_of h r) as (e & He & Hbin); [apply Hb; left|].
    unfold bind, load. rewrite He, Hbin.
    rewrite IH by (intros r' Hr'; apply Hb; by right).
    by rewrite <- app_assoc.
Qed.

Lemma encode_record_ends_with_null (marker : bytes) (s : str) :
  exists body, encode_record R marker s = body ++ [x00].
Proof.
  unfold encode_record.
  destruct (encode R cp932 s) as [e|].
  { exists (marker ++ e). by rewrite <- app_assoc. }
  destruct (encode_loop R [cp932; shift_jis; latin_1] s) as [e|].
  { exists (marker ++ e). by rewrite <- app_assoc. }
  simpl. exists (marker ++ latin1_encode_replace s). by rewrite <- app_assoc.
Qed.

Lemma content_to_binary_ends_with_null (c : str) (sp : bool) :
  exists body, content_to_binary R c sp = body ++ [x00].
Proof.
  unfold content_to_binary.
  destruct sp, (strip c); try (by exists []);
    try destruct (_ && _); apply encode_record_ends_with_null.
Qed.

Lemma content_to_binary_blank (c : str) (sp : bool) :
  strip c = [] -> content_to_binary R c sp = [x00].
Proof. intros E. unfold content_to_binary. rewrite E. by destruct sp. Qed.

(** [reconstruct_wsc_binary], in either mode. *)
Lemma reconstruct_spec (preserve : bool) refs h :
  live h refs ->
  exists h',
    reconstruct_wsc_binary R refs preserve h
    = Some (mjoin (map (binary_of R h) refs), h')
    /\ stable h h'
    /\ (forall r, r ∉ refs -> h' !! r = h !! r)
    /\ (forall r, r ∈ refs -> bin_set R h' r).
Proof.
  intros Ha. unfold reconstruct_wsc_binary, calculate_new_offsets.
  assert (Hfin : forall h', stable h h' -> (forall r, r ∈ refs -> bin_set R h' r) ->
            combine_loop refs [] h' = Some (mjoin (map (binary_of R h) refs), h')).
  { intros h' Hs Hb. rewrite combine_loop_spec by done. simpl.
    replace (map (binary_of R h') refs) with (map (binary_of R h) refs); [done|].
    apply map_ext. intros r. symmetry. by apply stable_binary_of. }
  destruct preserve.
  - destruct (preserve_original_offsets_spec refs h Ha)
      as (ok & h1 & Hrun & Hs1 & _ & Hout1 & _ & Hbin1).
    unfold bind at 1. unfold bind at 1. rewrite Hrun.
    destruct ok; simpl.
    + unfold ret. exists h1. rewrite Hfin by auto. auto.
    + destruct (calculate_loop_spec refs 0 h1) as (h2 & Hrun2 & Hs2 & Hout2 & Hbin2 & _).
      { by apply (stable_live h h1). }
      rewrite Hrun2. exists h2.
      assert (Hs : stable h h2) by (eapply stable_trans; eauto).
      rewrite Hfin by auto. split; [done|]. split; [done|]. split; [|done].
      intros r Hr. rewrite Hout2, Hout1; auto.
  - destruct (calculate_loop_spec refs 0 h Ha) as (h2 & Hrun2 & Hs2 & Hout2 & Hbin2 & _).
    unfold bind at 1. rewrite Hrun2. exists h2. rewrite Hfin by auto. auto.
Qed.

Lemma sans_offsets_eq (e1 e2 : WSCEntry) :
  text_of e1 = text_of e2 -> binary_data e1 = binary_data e2 ->
  sans_offsets e1 = sans_offsets e2.
Proof.
  destruct e1, e2. unfold text_of, sans_offsets, set_offsets. simpl.
  intros [= -> -> -> -> ->] ->. reflexivity.
Qed.

Lemma bin_set_agree h h1 h2 r :
  stable h h1 -> stable h h2 -> bin_set R h1 r -> bin_set R h2 r ->
  sans_offsets <$> (h1 !! r) = sans_offsets <$> (h2 !! r).
Proof.
  intros Hs1 Hs2 (e1 & He1 & Hb1) (e2 & He2 & Hb2).
  specialize (Hs1 r). specialize (Hs2 r). rewrite He1 in *. rewrite He2 in *.
  simpl. f_equal.
  assert (Ht : text_of e1 = text_of e2).
  { rewrite Hs1 in Hs2. simpl in Hs2. congruence. }
  apply sans_offsets_eq; [done|].
  rewrite Hb1, Hb2. unfold text_of in Ht. injection Ht as -> -> _ _ _. done.
Qed.

(** C9. The bytes [reconstruct_wsc_binary] returns are the same with
    [preserve_offsets] true and false: in both modes the concatenation,
    in entry order, of what [content_to_binary] gives for each entry's
    content and [is_speaker] flag. After the call the entry objects of
    the two modes differ in nothing but their [start_offset] and
    [end_offset]. *)
Theorem reconstruct_bytes_same_in_both_modes
        (h : gmap nat WSCEntry) (refs : list nat) :
  allocated h refs ->
  exists out h1 h2,
    reconstruct_wsc_binary R refs true h = Some (out, h1)
    /\ reconstruct_wsc_binary R refs false h = Some (out, h2)
    /\ out = mjoin (map (binary_of R h) refs)
    /\ forall r, sans_offsets <$> (h1 !! r) = sans_offsets <$> (h2 !! r).
Proof.
  intros Ha. unfold allocated in Ha. rewrite Forall_forall in Ha.
  destruct (reconstruct_spec true refs h Ha) as (h1 & Hr1 & Hs1 & Ho1 & Hb1).
  destruct (reconstruct_spec false refs h Ha) as (h2 & Hr2 & Hs2 & Ho2 & Hb2).
  exists (mjoin (map (binary_of R h) refs)), h1, h2.
  split; [done|]. split; [done|]. split; [done|].
  intros r. destruct (decide (r ∈ refs)) as [Hin|Hn].
  - apply (bin_set_agree h); auto.
  - by rewrite Ho1, Ho2.
Qed.

Lemma forallb_Forall_true {A} (f : A -> bool) (l : list A) :
  Forall (fun x => f x = true) l -> forallb f l = true.
Proof. induction 1; simpl; [done|]. by rewrite H, IHForall. Qed.

Lemma forallb_Exists_false {A} (f : A -> bool) (l : list A) :
  Exists (fun x => f x = false) l -> forallb f l = false.
Proof.
  induction 1 as [x l Hx|x l _ IH]; simpl.
  - by rewrite Hx.
  - rewrite IH. apply andb_false_r.
Qed.

(** The entries a parse creates are distinct live objects. *)
Lemma parsed_entries_distinct (es : list WSCEntry) :
  NoDup (identities es) /\ allocated (objects es) (identities es).
Proof.
  unfold identities, objects, allocated. split; [apply NoDup_seq|].
  apply Forall_forall. intros r Hr. apply elem_of_seq in Hr.
  rewrite lookup_map_seq_0. apply lookup_lt_is_Some. lia.
Qed.

(** C1. Reconstruction with [preserve_offsets = True] over distinct
    entry objects, such as a parse creates, returns the concatenation of
    the entries' binaries in entry order. If the re-encoded length of every entry is its
    [original_length + 1], every entry keeps its [start_offset] and
    [end_offset]. If the length of even one entry differs, every entry
    of the list gets sequential offsets: [start_offset] is the number of
    bytes of the entries before it, [end_offset] is that number plus its
    own byte length minus one. *)
Theorem offset_preservation_threshold
        (h : gmap nat WSCEntry) (refs : list nat) :
  NoDup refs ->
  allocated h refs ->
  exists h',
    reconstruct_wsc_binary R refs true h
    = Some (mjoin (map (binary_of R h) refs), h')
    /\ (Forall (fun r => length_matches R h r = true) refs ->
        forall r, offsets_of <$> (h' !! r) = offsets_of <$> (h !! r))
    /\ (Exists (fun r => length_matches R h r = false) refs ->
        forall i r, refs !! i = Some r ->
          exists e, h' !! r = Some e
                    /\ start_offset e = total_length R h (take i refs)
                    /\ end_offset e
                       = total_length R h (take i refs)
                         + len (binary_of R h r) - 1).
Proof.
  intros Hnd Ha. unfold allocated in Ha. rewrite Forall_forall in Ha.
  destruct (reconstruct_spec true refs h Ha) as (h' & Hrun & _).
  exists h'. split; [exact Hrun|].
  unfold reconstruct_wsc_binary, calculate_new_offsets in Hrun.
  destruct (preserve_original_offsets_spec refs h Ha)
    as (ok & h1 & Hp & Hs1 & Hoff1 & _ & Hok & Hbin1).
  unfold bind at 1 in Hrun. unfold bind at 1 in Hrun. rewrite Hp in Hrun.
  split.
  - intros Hall. rewrite (forallb_Forall_true _ _ Hall) in Hok. subst ok.
    simpl in Hrun. unfold ret in Hrun.
    rewrite combine_loop_spec in Hrun by auto.
    injection Hrun as _ <-. exact Hoff1.
  - intros Hex. rewrite (forallb_Exists_false _ _ Hex) in Hok. subst ok.
    simpl in Hrun.
    destruct (calculate_loop_spec refs 0 h1) as (h2 & Hc & Hs2 & _ & Hbin2 & Hseq).
    { by apply (stable_live h h1). }
    rewrite Hc in Hrun. rewrite combine_loop_spec in Hrun by auto.
    injection Hrun as _ <-.
    intros i r Hi. destruct (Hseq Hnd i r Hi) as (e & He & Hst & Hen).
    exists e. split; [done|].
    rewrite (stable_total_length h h1) in Hst by done.
    rewrite (stable_binary_of h h1) in Hen by done.
    split; lia.
Qed.

Lemma mjoin_ends_with_null (l : list bytes) :
  l <> [] ->
  Forall (fun b => exists body, b = body ++ [x00]) l ->
  exists body, mjoin l = body ++ [x00].
Proof.
  induction l as [|b l IH]; [done|]. intros _ Hall.
  apply Forall_cons in Hall as [[body ->] Hall].
  destruct l as [|b' l'].
  - exists body. simpl. by rewrite app_nil_r.
  - destruct IH as [body' E]; [done|done|].
    exists ((body ++ [x00]) ++ body'). simpl in *. rewrite E.
    by rewrite <- !app_assoc.
Qed.

Lemma count_nulls_app (a b : bytes) :
  count_occ Byte.byte_eq_dec (a ++ b) x00
  = (count_occ Byte.byte_eq_dec a x00 + count_occ Byte.byte_eq_dec b x00)%nat.
Proof. apply count_occ_app. Qed.

Lemma mjoin_count_nulls (l : list bytes) :
  Forall (fun b => exists body, b = body ++ [x00]) l ->
  (length l <= count_occ Byte.byte_eq_dec (mjoin l) x00)%nat.
Proof.
  induction 1 as [|b l [body ->] _ IH]; simpl; [lia|].
  rewrite !count_nulls_app. simpl. lia.
Qed.

Lemma binary_of_ends_with_null h refs :
  live h refs ->
  Forall (fun b => exists body, b = body ++ [x00]) (map (binary_of R h) refs).
Proof.
  intros Ha. apply Forall_forall. intros b Hb.
  apply list_elem_of_In, in_map_iff in Hb as (r & <- & Hr).
  apply list_elem_of_In, Ha in Hr as [e He].
  unfold binary_of. rewrite He. apply content_to_binary_ends_with_null.
Qed.

(** C10. [content_to_binary] returns, for every content and flag, a
    byte string that is not empty and whose last byte is the null byte;
    for a blank content it is the lone null byte. So the reconstructed
    buffer holds at least one null byte per entry, and for a list that
    is not empty it is not empty and ends with a null byte. *)
Theorem content_to_binary_null_terminated :
  (forall (c : str) (sp : bool),
      (exists body, content_to_binary R c sp = body ++ [x00])
      /\ (strip c = [] -> content_to_binary R c sp = [x00]))
  /\ (forall (h : gmap nat WSCEntry) (refs : list nat) (preserve : bool),
        allocated h refs ->
        exists out h',
          reconstruct_wsc_binary R refs preserve h = Some (out, h')
          /\ (length refs <= count_occ Byte.byte_eq_dec out x00)%nat
          /\ (refs <> [] -> exists body, out = body ++ [x00])).
Proof.
  split.
  - intros c sp. split.
    + apply content_to_binary_ends_with_null.
    + apply content_to_binary_blank.
  - intros h refs preserve Ha. unfold allocated in Ha. rewrite Forall_forall in Ha.
    destruct (reconstruct_spec preserve refs h Ha) as (h' & Hrun & _).
    exists (mjoin (map (binary_of R h) refs)), h'. split; [done|].
    pose proof (binary_of_ends_with_null h refs Ha) as Hall. split.
    + etransitivity; [|apply mjoin_count_nulls, Hall]. by rewrite length_map.
    + intros Hne. apply mjoin_ends_with_null; [|done]. by destruct refs.
Qed.

(** ** String extraction *)

Lemma while_exit {St} (fuel : nat) (cond : St -> bool) body (s : St) :
  cond s = false -> while fuel cond body s = Some s.
Proof. intros E. destruct fuel; simpl; by rewrite E. Qed.

Lemma while_step {St} (fuel : nat) (cond : St -> bool) body (s s' : St) :
  cond s = true -> body s = Some s' ->
  while (S fuel) cond body s = while fuel cond body s'.
Proof. intros E B. simpl. by rewrite E, B. Qed.

Lemma byte_eqb_true (a b : byte) : Byte.eqb a b = true <-> a = b.
Proof. split; [apply Byte.byte_dec_bl|apply Byte.byte_dec_lb]. Qed.

Lemma byte_eqb_false (a b : byte) : Byte.eqb a b = false <-> a <> b.
Proof.
  rewrite <- byte_eqb_true. destruct (Byte.eqb a b); split; congruence.
Qed.

(** A byte string starts with a longest stretch of non-zero bytes. *)
Lemma span_nonzero (l : bytes) :
  exists r rest,
    l = r ++ rest /\ Forall (fun b => b <> x00) r
    /\ (rest = [] \/ exists t, rest = x00 :: t).
Proof.
  induction l as [|b l (r & rest & -> & Hr & Hrest)].
  - exists [], []. auto.
  - destruct (Byte.eqb b x00) eqn:E.
    + apply byte_eqb_true in E as ->. exists [], (x00 :: r ++ rest).
      split; [done|]. split; [constructor|]. right. eauto.
    + apply byte_eqb_false in E. exists (b :: r), rest. split; [done|].
      split; [by constructor|done].
Qed.

(** The inner loop stops at the end of the stretch it starts in. *)
Lemma inner_loop_spec (data : bytes) (r : bytes) :
  forall (pre rest : bytes) (fuel : nat),
    data = pre ++ r ++ rest ->
    Forall (fun b => b <> x00) r ->
    (rest = [] \/ exists t, rest = x00 :: t) ->
    (length r <= fuel)%nat ->
    while fuel (in_run data) (fun p => Some (S p)) (length pre)
    = Some (length pre + length r)%nat.
Proof.
  induction r as [|b r IH]; intros pre rest fuel -> Hnz Hrest Hfuel.
  - simpl. rewrite Nat.add_0_r. apply while_exit. unfold in_run.
    destruct Hrest as [->|[t ->]].
    + rewrite app_nil_r. rewrite (proj2 (Nat.ltb_ge _ _)); [done|lia].
    + rewrite lookup_app_r by lia. rewrite Nat.sub_diag. simpl.
      apply andb_false_r.
  - apply Forall_cons in Hnz as [Hb Hnz]. simpl in Hfuel.
    destruct fuel as [|fuel]; [lia|].
    rewrite (while_step _ _ _ _ (S (length pre))).
    + replace (S (length pre)) with (length (pre ++ [b])) by (rewrite length_app; simpl; lia).
      rewrite (IH (pre ++ [b]) rest fuel); [|by rewrite <- app_assoc|done|done|lia].
      f_equal. rewrite length_app. simpl. lia.
    + unfold in_run. rewrite lookup_app_r by lia. rewrite Nat.sub_diag. simpl.
      apply byte_eqb_false in Hb. rewrite Hb. simpl. rewrite andb_true_r.
      apply Nat.ltb_lt. rewrite length_app. simpl. lia.
    + done.
Qed.

Lemma slice_middle {A} (pre r rest : list A) :
  slice (pre ++ r ++ rest) (length pre) (length pre + length r) = r.
Proof.
  unfold slice. rewrite drop_app_length.
  replace (length pre + length r - length pre)%nat with (length r) by lia.
  apply take_app_length.
Qed.

(** The outer loop, started anywhere in the buffer with any fuel that
    covers what is left, splits the rest of the buffer. *)
Lemma outer_loop_spec (data : bytes) (fuel : nat) :
  forall (pre l : bytes) (out : list (nat * nat * bytes * str)),
    data = pre ++ l ->
    (length l <= fuel)%nat ->
    exists p rs,
      while fuel
            (fun st : nat * list (nat * nat * bytes * str) =>
               (fst st <? length data)%nat)
            (extract_body R data) (length pre, out)
      = Some (p, out ++ rs)
      /\ decomposes R (length pre) l rs.
Proof.
  induction fuel as [|fuel IH]; intros pre l out Hd Hfuel.
  - destruct l; [|simpl in Hfuel; lia].
    exists (length pre), []. rewrite app_nil_r. split; [|constructor].
    apply while_exit. simpl. apply Nat.ltb_ge. subst. rewrite app_nil_r. lia.
  - destruct l as [|b t].
    { exists (length pre), []. rewrite app_nil_r. split; [|constructor].
      apply while_exit. simpl. apply Nat.ltb_ge. subst. rewrite app_nil_r. lia. }
    assert (Hcond : (length pre <? length data)%nat = true).
    { apply Nat.ltb_lt. subst. rewrite length_app. simpl. lia. }
    assert (Hlook : data !! length pre = Some b).
    { subst. rewrite lookup_app_r by lia. by rewrite Nat.sub_diag. }
    destruct (Byte.eqb b x00) eqn:Eb.
    + apply byte_eqb_true in Eb as ->.
      destruct (IH (pre ++ [x00]) t out) as (p & rs & Hrun & Hdec).
      { subst. by rewrite <- app_assoc. }
      { simpl in Hfuel. lia. }
      exists p, rs. split.
      * rewrite (while_step _ _ _ _ (S (length pre), out)); [|done|].
        -- rewrite length_app in Hrun. simpl in Hrun.
           by rewrite Nat.add_1_r in Hrun.
        -- unfold extract_body. rewrite Hlook. reflexivity.
      * constructor. rewrite length_app in Hdec. simpl in Hdec.
        by rewrite Nat.add_1_r in Hdec.
    + destruct (span_nonzero (b :: t)) as (r & rest & Hsplit & Hnz & Hrest).
      assert (Hr : r <> []).
      { intros ->. simpl in Hsplit. subst rest.
        destruct Hrest as [?|[? [= -> _]]]; [done|].
        by rewrite (proj2 (byte_eqb_true _ _) eq_refl) in Eb. }
      destruct (decode_try_some r) as (decoded & enc & Hdt).
      set (run := (length pre, (length pre + length r)%nat, r, decoded)).
      assert (Hbody : extract_body R data (length pre, out)
                      = Some (S (length pre + length r), out ++ [run])).
      { unfold extract_body. rewrite Hlook, Eb.
        rewrite (inner_loop_spec data r pre rest); [| |done|done|].
        - subst data. rewrite Hsplit, slice_middle, Hdt. reflexivity.
        - subst data. by rewrite Hsplit.
        - subst data. rewrite Hsplit, !length_app. lia. }
      rewrite Hsplit in *.
      destruct Hrest as [->|[t' ->]].
      * exists (S (length pre + length r)), [run]. split.
        -- rewrite (while_step _ _ _ _ (S (length pre + length r), out ++ [run]));
             [|exact Hcond|exact Hbody]. apply while_exit.
           simpl. apply Nat.ltb_ge. subst data. rewrite !length_app. simpl. lia.
        -- rewrite app_nil_r. by apply (dec_tail R _ _ decoded enc).
      * destruct (IH (pre ++ r ++ [x00]) t' (out ++ [run])) as (p & rs & Hrun & Hdec).
        { subst data. by rewrite <- !app_assoc. }
        { rewrite length_app in Hfuel. simpl in Hfuel.
          destruct r; [done|]. simpl in Hfuel. lia. }
        assert (Hlen : length (pre ++ r ++ [x00]) = S (length pre + length r)).
        { rewrite !length_app. simpl. lia. }
        rewrite Hlen in *.
        exists p, (run :: rs). split.
        -- rewrite (while_step _ _ _ _ (S (length pre + length r), out ++ [run]));
             [|exact Hcond|exact Hbody].
           rewrite Hrun. by rewrite <- app_assoc.
        -- by apply (dec_run R _ _ _ _ decoded enc).
Qed.

Lemma ascending_weaken (rs : list (nat * nat * bytes * str)) (pos pos' : nat) :
  (pos <= pos')%nat -> ascending pos' rs -> ascending pos rs.
Proof.
  destruct rs as [|[[[s e] raw] d] rs]; simpl; [done|].
  intros Hle (Hs & He & Hrest). split; [lia|done].
Qed.

Lemma decomposes_ascending pos l rs :
  decomposes R pos l rs -> ascending pos rs.
Proof.
  induction 1 as [pos|pos t rs _ IH|pos r d enc Hr _ _|pos r t rs d enc Hr _ _ _ IH];
    simpl.
  - done.
  - apply (ascending_weaken rs pos (S pos)); [lia|done].
  - destruct r; [done|]. simpl. split; [lia|]. split; [lia|done].
  - destruct r; [done|]. simpl in *. split; [lia|]. split; [lia|done].
Qed.

Lemma rebuild_shift (N e : nat) (rs : list (nat * nat * bytes * str)) :
  ascending (S e) rs -> (S e <= N)%nat ->
  rebuild N e rs = x00 :: rebuild N (S e) rs.
Proof.
  destruct rs as [|[[[s e'] raw] d] rs]; simpl.
  - intros _ Hle. replace (N - e)%nat with (S (N - S e)) by lia. done.
  - intros (Hs & _ & _) _. replace (s - e)%nat with (S (s - S e)) by lia. done.
Qed.

Lemma decomposes_rebuild pos l rs :
  decomposes R pos l rs -> rebuild (pos + length l) pos rs = l.
Proof.
  induction 1 as [pos|pos t rs Hd IH|pos r d enc Hr _ _|pos r t rs d enc Hr _ _ Hd IH];
    simpl.
  - by rewrite Nat.add_0_r, Nat.sub_diag.
  - rewrite rebuild_shift; [|by eapply decomposes_ascending|lia].
    replace (pos + S (length t))%nat with (S pos + length t)%nat by lia.
    by rewrite IH.
  - rewrite !Nat.sub_diag. simpl. apply app_nil_r.
  - rewrite Nat.sub_diag. simpl. f_equal.
    rewrite rebuild_shift;
      [|by eapply decomposes_ascending|rewrite length_app; simpl; lia].
    replace (pos + length (r ++ x00 :: t))%nat
      with (S (pos + length r) + length t)%nat
      by (rewrite length_app; simpl; lia).
    by rewrite IH.
Qed.

Lemma decomposes_maximal pos l rs :
  decomposes R pos l rs ->
  forall pre : bytes,
    pos = length pre ->
    (pre = [] \/ exists pre', pre = pre' ++ [x00]) ->
    Forall (maximal_run R (pre ++ l)) rs.
Proof.
  assert (Hbefore : forall (pre l0 : bytes),
             (pre = [] \/ exists pre', pre = pre' ++ [x00]) ->
             length pre = O \/ (pre ++ l0) !! (length pre - 1)%nat = Some x00).
  { intros pre l0 [->|[pre' ->]]; [by left|right].
    rewrite length_app. simpl.
    replace (length pre' + 1 - 1)%nat with (length pre') by lia.
    rewrite <- !app_assoc. rewrite lookup_app_r by lia.
    by rewrite Nat.sub_diag. }
  induction 1 as [pos|pos t rs _ IH|pos r d enc Hr Hnz Hdt|pos r t rs d enc Hr Hnz Hdt _ IH];
    intros pre -> Hpre.
  - constructor.
  - replace (pre ++ x00 :: t) with ((pre ++ [x00]) ++ t) by (by rewrite <- app_assoc).
    apply IH; [rewrite length_app; simpl; lia|right; eauto].
  - constructor; [|constructor]. unfold maximal_run.
    split; [destruct r; [done|]; rewrite length_app; simpl; lia|].
    split.
    { pose proof (slice_middle pre r []) as Hs. rewrite app_nil_r in Hs.
      by rewrite Hs. }
    split; [done|]. split; [by apply Hbefore|].
    split; [left; by rewrite length_app|eauto].
  - constructor.
    + unfold maximal_run.
      split; [destruct r; [done|]; rewrite !length_app; simpl; lia|].
      split; [by rewrite slice_middle|].
      split; [done|]. split; [by apply Hbefore|].
      split; [|eauto]. right.
      rewrite app_assoc. rewrite lookup_app_r by (rewrite length_app; lia).
      rewrite length_app, Nat.sub_diag. done.
    + replace (pre ++ r ++ x00 :: t) with ((pre ++ r ++ [x00]) ++ t)
        by (by rewrite <- !app_assoc).
      apply IH; [rewrite !length_app; simpl; lia|].
      right. exists (pre ++ r). by rewrite <- app_assoc.
Qed.

Lemma covered_cons run rs i : covered rs i -> covered (run :: rs) i.
Proof.
  intros (s & e & raw & d & Hin & Hi). exists s, e, raw, d. split; [by right|done].
Qed.

Lemma decomposes_covered pos l rs :
  decomposes R pos l rs ->
  forall (pre : bytes) (i : nat) (b : byte),
    pos = length pre ->
    (pre ++ l) !! i = Some b -> (length pre <= i)%nat -> b <> x00 ->
    covered rs i.
Proof.
  induction 1 as [pos|pos t rs _ IH|pos r d enc Hr Hnz Hdt|pos r t rs d enc Hr Hnz Hdt _ IH];
    intros pre i b -> Hi Hle Hb.
  - rewrite app_nil_r in Hi. apply lookup_lt_Some in Hi. lia.
  - destruct (decide (i = length pre)) as [->|Hne].
    + rewrite lookup_app_r in Hi by lia. rewrite Nat.sub_diag in Hi.
      simpl in Hi. congruence.
    + apply (IH (pre ++ [x00]) i b).
      * rewrite length_app. simpl. lia.
      * by rewrite <- app_assoc.
      * rewrite length_app. simpl. lia.
      * done.
  - exists (length pre), (length pre + length r)%nat, r, d.
    split; [by left|]. apply lookup_lt_Some in Hi. rewrite length_app in Hi. lia.
  - destruct (decide (i < length pre + length r)%nat) as [Hlt|Hge].
    { exists (length pre), (length pre + length r)%nat, r, d.
      split; [by left|lia]. }
    apply covered_cons.
    destruct (decide (i = length pre + length r)%nat) as [->|Hne].
    + rewrite app_assoc in Hi.
      rewrite lookup_app_r in Hi by (rewrite length_app; lia).
      rewrite length_app, Nat.sub_diag in Hi. simpl in Hi. congruence.
    + apply (IH (pre ++ r ++ [x00]) i b).
      * rewrite !length_app. simpl. lia.
      * by rewrite <- !app_assoc.
      * rewrite !length_app. simpl. lia.
      * done.
Qed.

(** C6. For every byte buffer, [extract_all_null_strings] returns
    without raising, and what it returns is exactly the maximal runs of
    non-zero bytes: every emitted record is a non-empty run of non-zero
    bytes, given with its absolute half-open range, that starts at the
    start of the buffer or after a null and ends at a null or, for a
    tail without a terminator, at the end of the buffer; the records are
    in ascending order; every non-zero byte of the buffer lies in one of
    them; and the bytes of the runs, with nulls in every other position
    (the terminators and the skipped empty runs), are the buffer. *)
Theorem extraction_complete (data : bytes) :
  exists runs,
    extract_all_null_strings R data = Some runs
    /\ Forall (maximal_run R data) runs
    /\ ascending O runs
    /\ (forall (i : nat) (b : byte),
          data !! i = Some b -> b <> x00 -> covered runs i)
    /\ rebuild (length data) O runs = data.
Proof.
  destruct (outer_loop_spec data (length data) [] data []) as (p & rs & Hrun & Hdec);
    [done|done|].
  exists rs. unfold extract_all_null_strings. simpl in Hrun. rewrite Hrun.
  split; [done|]. split.
  { apply (decomposes_maximal O data rs Hdec []); [done|by left]. }
  split; [by apply (decomposes_ascending O data)|]. split.
  - intros i b Hi Hb. apply (decomposes_covered O data rs Hdec [] i b); [done|done|simpl; lia|done].
  - by apply (decomposes_rebuild O data rs).
Qed.


Lemma app_null_unique (r : bytes) : forall (r' t t' : bytes),
  Forall (fun b => b <> x00) r -> Forall (fun b => b <> x00) r' ->
  r ++ x00 :: t = r' ++ x00 :: t' -> r = r' /\ t = t'.
Proof.
  induction r as [|b r IH]; intros r' t t' Hr Hr' E.
  - destruct r' as [|b' r']; simpl in E.
    + by injection E as ->.
    + injection E as <- _. apply Forall_cons in Hr' as [Hb _]. done.
  - apply Forall_cons in Hr as [Hb Hr].
    destruct r' as [|b' r']; simpl in E.
    + injection E as -> _. done.
    + injection E as <- E. apply Forall_cons in Hr' as [_ Hr'].
      destruct (IH r' t t' Hr Hr' E) as [-> ->]. done.
Qed.

Lemma nonzero_no_null (r t : bytes) :
  Forall (fun b => b <> x00) (r ++ x00 :: t) -> False.
Proof.
  intros Hl. apply Forall_app in Hl as [_ Hl].
  apply Forall_cons in Hl as [Hb _]. done.
Qed.

(** A buffer tail splits in one way only. *)
Lemma decomposes_inv pos l rs :
  decomposes R pos l rs ->
  (l = [] /\ rs = [])
  \/ (exists t, l = x00 :: t /\ decomposes R (S pos) t rs)
  \/ (exists d enc,
        l <> [] /\ Forall (fun b => b <> x00) l
        /\ decode_try R l = Some (d, enc)
        /\ rs = [(pos, (pos + length l)%nat, l, d)])
  \/ (exists r t rs0 d enc,
        l = r ++ x00 :: t /\ r <> [] /\ Forall (fun b => b <> x00) r
        /\ decode_try R r = Some (d, enc)
        /\ decomposes R (S (pos + length r)) t rs0
        /\ rs = (pos, (pos + length r)%nat, r, d) :: rs0).
Proof.
  destruct 1 as [pos|pos t rs Hd|pos r d enc Hr Hnz Hdt|pos r t rs d enc Hr Hnz Hdt Hd].
  - by left.
  - right; left. eauto.
  - right; right; left. exists d, enc. eauto.
  - right; right; right. exists r, t, rs, d, enc. eauto 10.
Qed.

Lemma decomposes_functional pos l rs :
  decomposes R pos l rs -> forall rs', decomposes R pos l rs' -> rs = rs'.
Proof.
  induction 1 as [pos|pos t rs _ IH|pos r d enc Hr Hnz Hdt|pos r t rs d enc Hr Hnz Hdt _ IH];
    intros rs' H';
    apply decomposes_inv in H'
      as [(E & ->)
         |[(t' & E & H')
          |[(d' & enc' & Hr' & Hnz' & Hdt' & ->)
           |(r' & t' & rs0 & d' & enc' & E & Hr' & Hnz' & Hdt' & H' & ->)]]].
  - done.
  - discriminate.
  - done.
  - by destruct r'.
  - discriminate.
  - injection E as <-. by apply IH.
  - by apply Forall_cons in Hnz' as [? _].
  - destruct r' as [|b' r']; [done|]. injection E as <- _.
    by apply Forall_cons in Hnz' as [? _].
  - done.
  - subst r. by apply Forall_cons in Hnz as [? _].
  - congruence.
  - subst r. destruct (nonzero_no_null _ _ Hnz).
  - by destruct r.
  - destruct r as [|b r]; [done|]. injection E as -> _.
    by apply Forall_cons in Hnz as [? _].
  - destruct (nonzero_no_null _ _ Hnz').
  - destruct (app_null_unique r r' t t' Hnz Hnz' E) as [<- <-].
    rewrite Hdt in Hdt'. injection Hdt' as <- _. f_equal. by apply IH.
Qed.

(** The records [extract_all_null_strings] returns are the split of the
    buffer. *)
Lemma extract_of_decomposition (data : bytes) rs :
  decomposes R O data rs -> extract_all_null_strings R data = Some rs.
Proof.
  intros Hd.
  destruct (outer_loop_spec data (length data) [] data []) as (p & rs' & Hrun & Hdec);
    [done|done|].
  unfold extract_all_null_strings. simpl in Hrun. rewrite Hrun.
  f_equal. by apply (decomposes_functional O data).
Qed.

(** ** Trimming *)

Lemma lstrip_nil_iff (s : str) : lstrip s = [] <-> forallb isspace s = true.
Proof.
  induction s as [|c s IH]; simpl; [done|].
  destruct (isspace c); simpl; [done|]. split; discriminate.
Qed.

Lemma lstrip_head (s : str) (c : Z) (t : str) :
  lstrip s = c :: t -> isspace c = false.
Proof.
  induction s as [|c' s IH]; simpl; [discriminate|].
  destruct (isspace c') eqn:E; [done|]. intros [= -> _]. done.
Qed.

Lemma forallb_rev {A} (f : A -> bool) (l : list A) :
  forallb f (rev l) = forallb f l.
Proof.
  induction l as [|x l IH]; simpl; [done|].
  rewrite forallb_app, IH. simpl. rewrite andb_true_r. apply andb_comm.
Qed.

Lemma rev_nil_inv {A} (l : list A) : rev l = [] -> l = [].
Proof. destruct l; simpl; [done|]. intros E. by apply app_eq_nil in E as [_ ?]. Qed.

Lemma strip_nil_iff (s : str) : strip s = [] <-> forallb isspace s = true.
Proof.
  unfold strip, rstrip. split.
  - intros E. apply rev_nil_inv, lstrip_nil_iff in E. rewrite forallb_rev in E.
    destruct (lstrip s) as [|c t] eqn:El; [by apply lstrip_nil_iff|].
    apply lstrip_head in El. simpl in E. by rewrite El in E.
  - intros E. apply lstrip_nil_iff in E. by rewrite E.
Qed.

Lemma strip_last_not_space (s : str) (c : Z) :
  last (strip s) = Some c -> isspace c = false.
Proof.
  unfold strip, rstrip. intros E. apply last_Some in E as [l' E].
  apply (f_equal (@rev Z)) in E. rewrite rev_involutive, rev_app_distr in E.
  simpl in E. by apply lstrip_head in E.
Qed.

(** ** The regular expressions *)

Lemma search_chr_from (p : Z -> bool) (s : str) : forall at0,
  search_from (Chr p) at0 s = existsb p s.
Proof.
  induction s as [|c s IH]; intros at0; simpl; [done|].
  rewrite IH. unfold accept. by rewrite andb_true_r.
Qed.

Lemma search_chr (p : Z -> bool) (s : str) : search (Chr p) s = existsb p s.
Proof. apply search_chr_from. Qed.

Lemma keep_loop_existsb (ps : list regex) (s : str) :
  keep_loop ps s = existsb (fun p => search p s) ps.
Proof.
  induction ps as [|p ps IH]; simpl; [done|]. rewrite IH.
  by destruct (search p s).
Qed.

Lemma count_printable_filter (s : str) :
  count_printable R s = len (List.filter (isprintable R) s).
Proof.
  unfold len. induction s as [|c s IH]; simpl; [done|].
  destruct (isprintable R c); simpl; lia.
Qed.

Lemma startswith_marker (raw : bytes) :
  bytes_startswith raw SPEAKER_BYTE
  = match raw with
    | b :: _ => Byte.eqb b x0f
    | [] => false
    end.
Proof.
  destruct raw; [done|].
  unfold bytes_startswith, SPEAKER_BYTE. simpl. apply andb_true_r.
Qed.

(** C4, as the code has it. For every decoded text and raw record,
    [is_meaningful] decides by the first rule that applies: a text of
    whitespace only (or empty) is dropped; a record whose first byte is
    the marker byte is kept; then, on the text with the whitespace at
    both ends trimmed off: a text with a character of the East-Asian
    ranges is kept; a text one of the keep-patterns finds a match in is
    kept; any other text is kept exactly when it has at least three
    characters and at least half of them are printable. *)
Theorem is_meaningful_rules (decoded : str) (raw : bytes) :
  is_meaningful R decoded raw
  = if forallb isspace decoded then false
    else if match raw with b :: _ => Byte.eqb b x0f | [] => false end then true
    else if existsb cjk (strip decoded) then true
    else if existsb (fun p => search p (strip decoded)) KEEP_PATTERNS then true
    else (3 <=? len (strip decoded))
         && (len (strip decoded)
             <=? 2 * len (List.filter (isprintable R) (strip decoded))).
Proof.
  unfold is_meaningful.
  destruct (forallb isspace decoded) eqn:Ews.
  { apply strip_nil_iff in Ews. by rewrite Ews. }
  destruct (strip decoded) as [|c t] eqn:Es.
  { apply strip_nil_iff in Es. congruence. }
  unfold re_cjk.
  rewrite startswith_marker, search_chr, keep_loop_existsb, count_printable_filter.
  unfold ratio_ge_half.
  repeat match goal with |- context [if ?b then _ else _] => destruct b end;
    reflexivity.
Qed.

(** A repetition [p{lo,hi}] matches the first [n] characters for some
    [n] within its bounds. *)
Lemma rep_spec (p : Z -> bool) (s : str) :
  forall (lo : nat) (hi : option nat) (moved : bool) (k : bool -> str -> bool),
    rep p lo hi moved s k = true
    <-> exists n : nat,
        (lo <= n)%nat
        /\ match hi with Some h => (n <= h)%nat | None => True end
        /\ (n <= length s)%nat
        /\ forallb p (take n s) = true
        /\ k (moved || negb (n =? 0)%nat) (drop n s) = true.
Proof.
  induction s as [|c t IH]; intros lo hi moved k.
  - assert (E : rep p lo hi moved [] k
                = match lo with O => k moved [] | S _ => false end).
    { simpl. destruct hi as [[|h]|]; apply orb_false_r. }
    rewrite E. split.
    + destruct lo; [|discriminate]. intros Hk. exists O.
      simpl. rewrite orb_false_r. repeat split; try done; try lia.
      destruct hi; [lia|done].
    + intros (n & Hlo & _ & Hn & _ & Hk). simpl in Hn.
      assert (n = O) by lia. subst n. assert (lo = O) by lia. subst lo.
      simpl in Hk. by rewrite orb_false_r in Hk.
  - simpl. rewrite orb_true_iff. split.
    + intros [Hz|Hs].
      * destruct lo; [|discriminate]. exists O. simpl. rewrite orb_false_r.
        repeat split; try done; try lia. destruct hi; [lia|done].
      * assert (Hs' : p c && rep p (Nat.pred lo) (option_map Nat.pred hi) true t k
                      = true /\ hi <> Some O).
        { destruct hi as [[|h]|]; [discriminate|by split|by split]. }
        clear Hs. destruct Hs' as [Hs Hhi].
        apply andb_true_iff in Hs as [Hc Hs].
        apply IH in Hs as (n & Hlo & Hh & Hn & Hall & Hk).
        exists (S n). simpl. rewrite Hc, Hall. rewrite orb_true_r.
        simpl in Hk. repeat split; try done; try lia.
        destruct hi as [[|h]|]; simpl in Hh; [done|lia|done].
    + intros (n & Hlo & Hh & Hn & Hall & Hk). destruct n as [|n].
      * left. assert (lo = O) by lia. subst lo. simpl in Hk.
        by rewrite orb_false_r in Hk.
      * right. simpl in Hall. apply andb_true_iff in Hall as [Hc Hall].
        simpl in Hk. rewrite orb_true_r in Hk. simpl in Hn.
        assert (Hr : rep p (Nat.pred lo) (option_map Nat.pred hi) true t k = true).
        { apply IH. exists n. simpl. repeat split; try done; try lia.
          destruct hi as [h|]; simpl; [lia|done]. }
        rewrite Hc, Hr. destruct hi as [[|h]|]; [lia|done|done].
Qed.

Lemma match_japanese_name_unfold (s : str) :
  match_ re_japanese_name s
  = rep name_char 1 (Some 8%nat) false s (fun _ t => at_eol t && true).
Proof. reflexivity. Qed.

Lemma at_eol_cases (s : str) : at_eol s = true -> s = [] \/ s = [10].
Proof.
  destruct s as [|c [|c' s]]; simpl; [by left| |discriminate].
  intros E. apply Z.eqb_eq in E as ->. by right.
Qed.

(** A text that does not end in a newline passes the name check of
    [convert_speaker] exactly when it has one to eight characters, all
    of them in the ranges of the name pattern. *)
Lemma name_check_shape (s : str) :
  last s <> Some 10 ->
  (1 <=? len s) && (len s <=? 8) && match_ re_japanese_name s = name_shape s.
Proof.
  intros Hlast. unfold name_shape.
  destruct ((1 <=? len s) && (len s <=? 8)) eqn:Hlen; [|done]. simpl.
  apply andb_true_iff in Hlen as [H1 H8].
  apply Z.leb_le in H1, H8. unfold len in *.
  rewrite match_japanese_name_unfold.
  destruct (forallb name_char s) eqn:Hall.
  - apply rep_spec. exists (length s). rewrite firstn_all, drop_all.
    repeat split; try done; lia.
  - apply not_true_is_false. intros Hm.
    apply rep_spec in Hm as (n & _ & _ & Hn & Hp & Hk).
    apply andb_true_iff in Hk as [Hk _].
    apply at_eol_cases in Hk as [Hk|Hk].
    + apply drop_nil_inv in Hk. assert (n = length s) by lia. subst n.
      rewrite firstn_all in Hp. congruence.
    + apply Hlast. rewrite <- (take_drop n s), Hk. apply last_snoc.
Qed.

Lemma strip_no_final_newline (s : str) : last (strip s) <> Some 10.
Proof. intros E. by apply strip_last_not_space in E. Qed.

(** The marker loop of [convert_speaker] counts the marker bytes the
    record starts with. *)
Lemma marker_loop_spec (k : nat) :
  forall (pre rest : bytes) (fuel : nat),
    head rest <> Some x0f ->
    (k <= fuel)%nat ->
    while fuel (at_marker (pre ++ repeat x0f k ++ rest))
          (fun i => Some (S i)) (length pre)
    = Some (length pre + k)%nat.
Proof.
  induction k as [|k IH]; intros pre rest fuel Hrest Hfuel.
  - simpl. rewrite Nat.add_0_r. apply while_exit. unfold at_marker.
    rewrite lookup_app_r by lia. rewrite Nat.sub_diag.
    destruct rest as [|b rest]; simpl.
    + apply andb_false_r.
    + assert (Hb : Byte.eqb b x0f = false).
      { apply byte_eqb_false. intros ->. by apply Hrest. }
      rewrite Hb. apply andb_false_r.
  - destruct fuel as [|fuel]; [lia|].
    rewrite (while_step _ _ _ _ (S (length pre))).
    + replace (pre ++ repeat x0f (S k) ++ rest)
        with ((pre ++ [x0f]) ++ repeat x0f k ++ rest)
        by (by rewrite <- app_assoc).
      replace (S (length pre)) with (length (pre ++ [x0f]))
        by (rewrite length_app; simpl; lia).
      rewrite IH by (done || lia). f_equal. rewrite length_app. simpl. lia.
    + unfold at_marker. rewrite lookup_app_r by lia. rewrite Nat.sub_diag.
      simpl. rewrite andb_true_r. apply Nat.ltb_lt.
      rewrite length_app. simpl. lia.
    + done.
Qed.

(** [convert_speaker] on a record of [k >= 1] marker bytes and a
    remainder that is not empty: the form of the trimmed remainder
    alone decides between a dotted name and plain text. *)
Lemma convert_speaker_spec (decoded : str) (k : nat) (rest : bytes)
      (remainder : str) :
  (1 <= k)%nat ->
  rest <> [] ->
  head rest <> Some x0f ->
  (cp932_decode R rest = Some remainder
   \/ (cp932_decode R rest = None
       /\ exists enc, decode_try R rest = Some (remainder, enc))) ->
  convert_speaker R decoded (repeat x0f k ++ rest)
  = Some (if name_shape (strip remainder)
          then 46 :: strip remainder
          else strip remainder).
Proof.
  intros Hk Hne Hhd Hdec. unfold convert_speaker.
  assert (Hsw : bytes_startswith (repeat x0f k ++ rest) SPEAKER_BYTE = true).
  { destruct k; [lia|]. reflexivity. }
  rewrite Hsw. simpl negb. cbv iota.
  pose proof (marker_loop_spec k [] rest (length (repeat x0f k ++ rest)) Hhd)
    as Hloop.
  simpl in Hloop. rewrite Hloop by (rewrite length_app, repeat_length; lia).
  assert (Hdrop : drop k (repeat x0f k ++ rest) = rest).
  { rewrite <- (repeat_length x0f k) at 1. apply drop_app_length. }
  cbv zeta. rewrite !Hdrop.
  destruct rest as [|b rest]; [done|].
  assert (Hrem : match cp932_decode R (b :: rest) with
                 | Some r => Some r
                 | None => match decode_try R (b :: rest) with
                           | Some (r, _) => Some r
                           | None => None
                           end
                 end = Some remainder).
  { destruct Hdec as [->|[-> [enc ->]]]; reflexivity. }
  cbv zeta. rewrite Hrem.
  rewrite (name_check_shape _ (strip_no_final_newline remainder)).
  by destruct (name_shape (strip remainder)).
Qed.

(** C2, as the code has it. For every raw record that starts with one
    or more marker bytes and goes on with other bytes, [convert_speaker]
    strips all the markers, decodes what remains (with CP932 if it can,
    else as [decode_try] does) and trims it; when the trimmed remainder
    is not one to eight characters of the name ranges, the result is
    that trimmed remainder as it is, with no dot put in front, be there
    one marker or several. *)
Theorem convert_speaker_failed_shape_is_narration
        (decoded : str) (k : nat) (rest : bytes) (remainder : str) :
  (1 <= k)%nat ->
  rest <> [] ->
  head rest <> Some x0f ->
  (cp932_decode R rest = Some remainder
   \/ (cp932_decode R rest = None
       /\ exists enc, decode_try R rest = Some (remainder, enc))) ->
  name_shape (strip remainder) = false ->
  convert_speaker R decoded (repeat x0f k ++ rest) = Some (strip remainder).
Proof.
  intros Hk Hne Hhd Hdec Hshape.
  rewrite (convert_speaker_spec decoded k rest remainder) by done.
  by rewrite Hshape.
Qed.


(** ** The encode direction on the repository's test sentence *)

(** C3 (the code departs from the claim). The ten-character sentence
    [kyou_wa_ii_tenki] of the repository's tests has characters of the
    East-Asian ranges and no resource, audio or command prefix, and
    [is_speaker] is false; yet [content_to_binary] returns its CP932
    bytes and the terminator with no marker byte in front: the test for
    Japanese text is the anchored name pattern, which a text of more
    than eight characters does not match. *)
Theorem long_narration_gets_no_marker (encoded : bytes) :
  cp932_encode R Fixture.kyou_wa_ii_tenki = Some encoded ->
  existsb cjk Fixture.kyou_wa_ii_tenki = true
  /\ match_ re_resource Fixture.kyou_wa_ii_tenki = false
  /\ search re_japanese_name Fixture.kyou_wa_ii_tenki = false
  /\ content_to_binary R Fixture.kyou_wa_ii_tenki false = encoded ++ [x00].
Proof.
  intros Henc.
  split; [reflexivity|]. split; [reflexivity|]. split; [reflexivity|].
  unfold content_to_binary.
  change (strip Fixture.kyou_wa_ii_tenki) with Fixture.kyou_wa_ii_tenki.
  change (search re_japanese_name Fixture.kyou_wa_ii_tenki) with false.
  simpl. unfold encode_record. simpl. by rewrite Henc.
Qed.

(** ** Transcript parsing *)

(** C8 (the code departs from the claim). A header line with one hex
    digit on each side is accepted: the transcript [<0:F>] followed by
    the content line [hello] parses into one entry with offsets 0 and
    15 and a valid result without errors. *)
Theorem short_hex_header_is_accepted :
  parse_github_format R (lit "<0:F>" ++ [10] ++ lit "hello")
  = Some ([new_entry 0 15 (lit "hello") false],
          {| is_valid := true; errors := []; warnings := [];
             suggestions := []; needs_recalculation := false |}).
Proof. vm_compute. reflexivity. Qed.

Lemma ordering_loop_keeps (rest : list WSCEntry) :
  forall (i : Z) (prev : WSCEntry) (result : ValidationResult),
    is_valid (ordering_loop i prev rest result) = is_valid result
    /\ errors (ordering_loop i prev rest result) = errors result.
Proof.
  induction rest as [|e rest IH]; intros i prev result; simpl; [done|].
  destruct (start_offset e <=? start_offset prev).
  - destruct (IH (i + 1) e
                (set_needs_recalculation true
                   (add_warning (OffsetOrderingIssue i (i - 1)) result)))
      as [-> ->].
    done.
  - apply IH.
Qed.

(** A parse result with an error is not valid. *)
Lemma parse_errors_invalid (text : str) entries result :
  parse_github_format R text = Some (entries, result) ->
  errors result <> [] -> is_valid result = false.
Proof.
  unfold parse_github_format.
  destruct (while _ _ _ _) as [[[i es] r]|]; [|discriminate].
  destruct es as [|e0 rest]; intros [= <- <-] Herr; [done|].
  destruct (ordering_loop_keeps rest 1 e0 (set_is_valid (no_errors r) r))
    as [Hv He].
  rewrite Hv. rewrite He in Herr. simpl in *. unfold no_errors.
  by destruct (errors r).
Qed.

(** With a parse error, [recompile_wsc_file] returns failure with the
    parse result and writes no file. *)
Lemma recompile_stops_on_parse_errors (text : str) (preserve : bool)
      entries result :
  parse_github_format R text = Some (entries, result) ->
  errors result <> [] ->
  recompile_wsc_file R (Some text) preserve = Some (false, result, None).
Proof.
  intros Hp Herr. unfold recompile_wsc_file. rewrite Hp.
  by rewrite (parse_errors_invalid text entries result Hp Herr).
Qed.

(** ** Nothing raises *)

(** A loop whose body never raises and makes a measure decrease leaves
    through its exit within as many turns as the measure allows. *)
Lemma while_total {St} (measure : St -> nat) (cond : St -> bool)
      (body : St -> option St) :
  (forall s, cond s = true ->
             exists s', body s = Some s' /\ (measure s' < measure s)%nat) ->
  forall (fuel : nat) (s : St),
    (measure s <= fuel)%nat ->
    exists s', while fuel cond body s = Some s' /\ cond s' = false.
Proof.
  intros Hbody. induction fuel as [|fuel IH]; intros s Hm.
  - destruct (cond s) eqn:E.
    + destruct (Hbody s E) as (s' & _ & Hlt). lia.
    + exists s. split; [by apply while_exit|done].
  - destruct (cond s) eqn:E.
    + destruct (Hbody s E) as (s' & Hb & Hlt).
      destruct (IH s') as (s'' & Hw & Hc); [lia|].
      exists s''. split; [|done]. by rewrite (while_step _ _ _ _ s').
    + exists s. split; [by apply while_exit|done].
Qed.

(** [convert_speaker] returns a text for every record. *)
Lemma convert_speaker_total (decoded : str) (raw : bytes) :
  exists out, convert_speaker R decoded raw = Some out.
Proof.
  unfold convert_speaker.
  destruct (bytes_startswith raw SPEAKER_BYTE); simpl; [|eauto].
  destruct (while_total (fun i => (length raw - i)%nat) (at_marker raw)
              (fun i => Some (S i))) with (fuel := length raw) (s := O)
    as (idx & -> & _).
  - intros i Hi. exists (S i). split; [done|].
    unfold at_marker in Hi. apply andb_true_iff in Hi as [Hi _].
    apply Nat.ltb_lt in Hi. lia.
  - lia.
  - destruct (drop idx raw) as [|b rest]; [eauto|].
    destruct (cp932_decode R (b :: rest)) as [r|].
    + destruct (_ && _); eauto.
    + destruct (decode_try_some (b :: rest)) as (r & enc & ->).
      destruct (_ && _); eauto.
Qed.

Lemma write_records_total (strings : list (nat * nat * bytes * str)) :
  exists text, write_records R strings = Some text.
Proof.
  induction strings as [|[[[s e] raw] decoded] rest [tail IH]]; simpl; [eauto|].
  destruct (is_meaningful R decoded raw); simpl; [|eauto].
  destruct (convert_speaker_total (sanitize decoded) raw) as [cleaned ->].
  rewrite IH. eauto.
Qed.

(** [decompile_wsc_file] writes a transcript for every buffer. *)
Lemma decompile_wsc_file_total (data : bytes) :
  exists text, decompile_wsc_file R data = Some text.
Proof.
  unfold decompile_wsc_file, extract_all_null_strings.
  destruct (outer_loop_spec data (length data) [] data []) as (p & rs & Hrun & _);
    [done|done|].
  simpl in Hrun. rewrite Hrun. apply write_records_total.
Qed.

(** [parse_github_format] returns for every text. *)
Lemma parse_github_format_total (text : str) :
  exists entries result, parse_github_format R text = Some (entries, result).
Proof.
  unfold parse_github_format.
  set (lines := split 10 (strip text)).
  destruct (while_total
              (fun st : nat * list WSCEntry * ValidationResult =>
                 (length lines - fst (fst st))%nat)
              (fun st => (fst (fst st) <? length lines)%nat)
              (parse_body R lines))
    with (fuel := length lines) (s := (O, @nil WSCEntry, new_result))
    as ([[i es] r] & -> & _).
  - intros [[i es] r] Hi. simpl in Hi. apply Nat.ltb_lt in Hi.
    unfold parse_body.
    destruct (lookup_lt_is_Some_2 lines i Hi) as [l ->].
    destruct (strip l) as [|c line]; [eexists; split; [done|simpl; lia]|].
    destruct (_ && _).
    + destruct (parse_entry R lines i (c :: line));
        eexists; (split; [done|simpl; lia]).
    + eexists; split; [done|simpl; lia].
  - simpl. lia.
  - destruct es; eauto.
Qed.

(** ** The round-trip scenario *)

Lemma decode_try_cp932 (raw : bytes) (s : str) :
  cp932_decode R raw = Some s -> decode_try R raw = Some (s, cp932).
Proof. intros E. unfold decode_try. simpl. by rewrite E. Qed.

Lemma nonzero_check (r : bytes) :
  forallb (fun b => negb (Byte.eqb b x00)) r = true ->
  Forall (fun b => b <> x00) r.
Proof.
  induction r as [|b r IH]; simpl; [constructor|].
  intros E. apply andb_true_iff in E as [Hb E]. constructor; [|by apply IH].
  intros ->. discriminate.
Qed.

Lemma scenario_extraction :
  Fixture.scenario_codec R ->
  extract_all_null_strings R Fixture.scenario = Some Fixture.scenario_records
  /\ extract_all_null_strings R Fixture.scenario_recompiled
     = Some Fixture.scenario_records_again.
Proof.
  intros (D1 & D2 & D3 & D4 & D5 & D6 & D7 & _).
  split; apply extract_of_decomposition.
  - apply (dec_run R 0 (bascii "DAY0904") _ _ (lit "DAY0904") cp932);
      [discriminate|by apply nonzero_check|by apply decode_try_cp932|].
    apply (dec_run R 8 (blit [0x0F; 0x0F; 0x96; 0xE9; 0x8B; 0x76]) _ _
             (15 :: 15 :: Fixture.yaku) cp932);
      [discriminate|by apply nonzero_check|by apply decode_try_cp932|].
    apply (dec_run R 15
             (blit [0x0F; 0x82; 0xB1; 0x82; 0xF1; 0x82; 0xC9; 0x82; 0xBF; 0x82;
                    0xCD; 0x90; 0xA2; 0x8A; 0x45]) _ _
             (15 :: Fixture.konnichiwa_sekai) cp932);
      [discriminate|by apply nonzero_check|by apply decode_try_cp932|].
    apply (dec_run R 31 (bascii "SE_104.ogg") [] [] (lit "SE_104.ogg") cp932);
      [discriminate|by apply nonzero_check|by apply decode_try_cp932|].
    apply dec_nil.
  - apply (dec_run R 0 (bascii "DAY0904") _ _ (lit "DAY0904") cp932);
      [discriminate|by apply nonzero_check|by apply decode_try_cp932|].
    apply (dec_run R 8 (blit [0x0F; 0x0F; 0x96; 0xE9; 0x8B; 0x76]) _ _
             (15 :: 15 :: Fixture.yaku) cp932);
      [discriminate|by apply nonzero_check|by apply decode_try_cp932|].
    apply (dec_run R 15
             (blit [0x0F; 0x0F; 0x82; 0xB1; 0x82; 0xF1; 0x82; 0xC9; 0x82; 0xBF;
                    0x82; 0xCD; 0x90; 0xA2; 0x8A; 0x45]) _ _
             (15 :: 15 :: Fixture.konnichiwa_sekai) cp932);
      [discriminate|by apply nonzero_check|by apply decode_try_cp932|].
    apply (dec_run R 32 (bascii "SE_104.ogg") [] [] (lit "SE_104.ogg") cp932);
      [discriminate|by apply nonzero_check|by apply decode_try_cp932|].
    apply dec_nil.
Qed.

(** C5 (the code departs from the claim). On the buffer of the
    repository's round-trip test, with any runtime whose CP932 codec
    has the table entries the buffer needs, decoding yields four
    entries, but the third, the sentence behind a single marker byte,
    is written with a dot in front like the speaker before it; the
    transcript parses into two speaker entries; and recompiling it with
    [preserve_offsets = False] succeeds and writes a buffer with four
    null bytes in which the sentence sits behind two marker bytes, so
    that buffer is not the original one; decoding it again gives the
    same four content lines. *)
Theorem scenario_narration_comes_back_as_speaker :
  Fixture.scenario_codec R ->
  decompile_wsc_file R Fixture.scenario = Some Fixture.scenario_transcript
  /\ (exists result,
        parse_github_format R Fixture.scenario_transcript
        = Some ([new_entry 0 7 (lit "DAY0904") false;
                 new_entry 8 14 Fixture.yaku true;
                 new_entry 15 30 Fixture.konnichiwa_sekai true;
                 new_entry 31 41 (lit "SE_104.ogg") false],
                result))
  /\ recompile_wsc_file R (Some Fixture.scenario_transcript) false
     = Some (true,
             {| is_valid := true; errors := []; warnings := [];
                suggestions := [SuccessfullyRecompiled 4];
                needs_recalculation := false |},
             Some Fixture.scenario_recompiled)
  /\ count_occ Byte.byte_eq_dec Fixture.scenario_recompiled x00 = 4%nat
  /\ Fixture.scenario_recompiled <> Fixture.scenario
  /\ decompile_wsc_file R Fixture.scenario_recompiled
     = Some Fixture.scenario_transcript_again.
Proof.
  intros Hcodec.
  destruct (scenario_extraction Hcodec) as [Hext Hext'].
  destruct Hcodec as (D1 & D2 & D3 & D4 & D5 & D6 & D7 & E1 & E2 & E3 & E4).
  vm_compute in D3, D6, E1, E2, E3, E4.
  split.
  { unfold decompile_wsc_file. rewrite Hext.
    vm_compute. rewrite D3. vm_compute. rewrite D6. vm_compute. reflexivity. }
  split; [eexists; vm_compute; reflexivity|].
  split.
  { vm_compute. rewrite ?E1, ?E2, ?E3, ?E4.
    vm_compute. rewrite ?E1, ?E2, ?E3, ?E4.
    vm_compute. reflexivity. }
  split; [vm_compute; reflexivity|].
  split; [vm_compute; discriminate|].
  unfold decompile_wsc_file. rewrite Hext'.
  vm_compute. rewrite D3. vm_compute. rewrite D6. vm_compute. reflexivity.
Qed.

End Properties.

(* ================================================================== *)
(** * The repository's test data                                       *)
(* ================================================================== *)

Import Fixture.

(** C2 as stated does not hold. A record of two marker bytes whose
    remainder [AB] is not of the name form comes out as the bare text
    [AB], the form of narration, not as a dotted speaker record; and a
    record of a single marker byte whose remainder is the seven-character
    sentence [konnichiwa_sekai] comes out with a dot in front. *)
Lemma convert_speaker_counterexample :
  (name_shape (lit "AB") = false
   /\ convert_speaker runtime [15; 15; 65; 66] (blit [0x0F; 0x0F; 0x41; 0x42])
      = Some (lit "AB"))
  /\ (cp932_encode runtime konnichiwa_sekai
      = Some (blit [0x82; 0xB1; 0x82; 0xF1; 0x82; 0xC9; 0x82; 0xBF; 0x82; 0xCD;
                    0x90; 0xA2; 0x8A; 0x45])
      /\ convert_speaker runtime (15 :: konnichiwa_sekai)
           (blit [0x0F; 0x82; 0xB1; 0x82; 0xF1; 0x82; 0xC9; 0x82; 0xBF; 0x82;
                  0xCD; 0x90; 0xA2; 0x8A; 0x45])
         = Some (46 :: konnichiwa_sekai)).
Proof. vm_compute. auto. Qed.

Lemma convert_speaker_failed_shape_is_narration_witness :
  convert_speaker runtime [15; 15; 65; 66] (repeat x0f 2 ++ bascii "AB")
  = Some (strip (lit "AB")).
Proof.
  apply (convert_speaker_failed_shape_is_narration runtime
           [15; 15; 65; 66] 2 (bascii "AB") (lit "AB")).
  - lia.
  - discriminate.
  - discriminate.
  - left. reflexivity.
  - reflexivity.
Defined.

(** C4 as stated does not hold on the text as it is given. The text
    [ ab ] (blanks at both ends) is not whitespace only, its record
    does not start with the marker byte, it has no East-Asian character
    and matches no keep-pattern, it has four characters and all four
    are printable; yet it is dropped, its trimmed form [ab] having two
    characters. And the text U+3000 [ab] has a character of the
    East-Asian ranges and is dropped as well. *)
Lemma is_meaningful_counterexample :
  (forallb isspace (lit " ab ") = false
   /\ bytes_startswith (bascii " ab ") SPEAKER_BYTE = false
   /\ existsb cjk (lit " ab ") = false
   /\ existsb (fun p => search p (lit " ab ")) KEEP_PATTERNS = false
   /\ 3 <= len (lit " ab ")
   /\ len (lit " ab ") <= 2 * len (List.filter (isprintable runtime) (lit " ab "))
   /\ decode_try runtime (bascii " ab ") = Some (lit " ab ", cp932)
   /\ is_meaningful runtime (lit " ab ") (bascii " ab ") = false)
  /\ (forallb isspace (0x3000 :: lit "ab") = false
      /\ bytes_startswith (blit [0x81; 0x40; 0x61; 0x62]) SPEAKER_BYTE = false
      /\ existsb cjk (0x3000 :: lit "ab") = true
      /\ decode_try runtime (blit [0x81; 0x40; 0x61; 0x62])
         = Some (0x3000 :: lit "ab", cp932)
      /\ is_meaningful runtime (0x3000 :: lit "ab") (blit [0x81; 0x40; 0x61; 0x62])
         = false).
Proof. vm_compute. repeat split; (discriminate || reflexivity). Qed.

Lemma long_narration_gets_no_marker_witness :
  existsb cjk kyou_wa_ii_tenki = true
  /\ match_ re_resource kyou_wa_ii_tenki = false
  /\ search re_japanese_name kyou_wa_ii_tenki = false
  /\ content_to_binary runtime kyou_wa_ii_tenki false
     = kyou_wa_ii_tenki_cp932 ++ [x00].
Proof.
  apply (long_narration_gets_no_marker runtime kyou_wa_ii_tenki_cp932).
  reflexivity.
Defined.

Lemma offset_preservation_threshold_witness :
  (exists h',
      reconstruct_wsc_binary runtime [O; 1%nat] true unedited
      = Some (mjoin (map (binary_of runtime unedited) [O; 1%nat]), h')
      /\ forall r, offsets_of <$> (h' !! r) = offsets_of <$> (unedited !! r))
  /\ (exists h',
         reconstruct_wsc_binary runtime [O; 1%nat] true edited
         = Some (mjoin (map (binary_of runtime edited) [O; 1%nat]), h')
         /\ forall i r, [O; 1%nat] !! i = Some r ->
              exists e, h' !! r = Some e
                        /\ start_offset e
                           = total_length runtime edited (take i [O; 1%nat])
                        /\ end_offset e
                           = total_length runtime edited (take i [O; 1%nat])
                             + len (binary_of runtime edited r) - 1).
Proof.
  split.
  - destruct (parsed_entries_distinct
                [new_entry 0 7 (lit "DAY0904") false; new_entry 8 14 yaku true])
      as [Hnd Hlive].
    destruct (offset_preservation_threshold runtime unedited [O; 1%nat]
                Hnd Hlive) as (h' & Hrun & Hall & _).
    exists h'. split; [exact Hrun|]. apply Hall.
    repeat constructor.
  - destruct (parsed_entries_distinct
                [new_entry 0 7 (lit "DAY0904") false;
                 new_entry 8 14 (lit "AB") true])
      as [Hnd Hlive].
    destruct (offset_preservation_threshold runtime edited [O; 1%nat]
                Hnd Hlive) as (h' & Hrun & _ & Hex).
    exists h'. split; [exact Hrun|]. apply Hex.
    apply Exists_cons_tl, Exists_cons_hd. reflexivity.
Defined.

Lemma reconstruct_bytes_same_in_both_modes_witness :
  exists out h1 h2,
    reconstruct_wsc_binary runtime [O; 1%nat] true edited = Some (out, h1)
    /\ reconstruct_wsc_binary runtime [O; 1%nat] false edited = Some (out, h2)
    /\ out = mjoin (map (binary_of runtime edited) [O; 1%nat])
    /\ forall r, sans_offsets <$> (h1 !! r) = sans_offsets <$> (h2 !! r).
Proof.
  apply (reconstruct_bytes_same_in_both_modes runtime edited [O; 1%nat]).
  apply (parsed_entries_distinct
           [new_entry 0 7 (lit "DAY0904") false; new_entry 8 14 (lit "AB") true]).
Defined.

Lemma content_to_binary_null_terminated_witness :
  exists out h',
    reconstruct_wsc_binary runtime [O; 1%nat] true edited = Some (out, h')
    /\ (length [O; 1%nat] <= count_occ Byte.byte_eq_dec out x00)%nat
    /\ exists body, out = body ++ [x00].
Proof.
  destruct (proj2 (content_to_binary_null_terminated runtime)
              edited [O; 1%nat] true
              (proj2 (parsed_entries_distinct
                        [new_entry 0 7 (lit "DAY0904") false;
                         new_entry 8 14 (lit "AB") true])))
    as (out & h' & Hrun & Hcount & Hend).
  exists out, h'. split; [exact Hrun|]. split; [exact Hcount|].
  apply Hend. discriminate.
Defined.

Lemma scenario_narration_comes_back_as_speaker_witness :
  decompile_wsc_file runtime scenario = Some scenario_transcript
  /\ (exists result,
        parse_github_format runtime scenario_transcript
        = Some ([new_entry 0 7 (lit "DAY0904") false;
                 new_entry 8 14 yaku true;
                 new_entry 15 30 konnichiwa_sekai true;
                 new_entry 31 41 (lit "SE_104.ogg") false],
                result))
  /\ recompile_wsc_file runtime (Some scenario_transcript) false
     = Some (true,
             {| is_valid := true; errors := []; warnings := [];
                suggestions := [SuccessfullyRecompiled 4];
                needs_recalculation := false |},
             Some scenario_recompiled)
  /\ count_occ Byte.byte_eq_dec scenario_recompiled x00 = 4%nat
  /\ scenario_recompiled <> scenario
  /\ decompile_wsc_file runtime scenario_recompiled
     = Some scenario_transcript_again.
Proof.
  apply (scenario_narration_comes_back_as_speaker runtime).
  repeat split; reflexivity.
Defined.

(* ================================================================== *)
(** * Further properties                                              *)
(* ================================================================== *)

Import SpecLayout SpecTranscript SpecValidator.

Section CodecProperties.
Context (R : Runtime).

(** ** Extraction at the end of the buffer *)

Lemma decomposes_app_null pos l rs :
  decomposes R pos l rs -> decomposes R pos (l ++ [x00]) rs.
Proof.
  induction 1 as [pos|pos t rs _ IH|pos r d enc Hr Hnz Hdt|pos r t rs d enc Hr Hnz Hdt _ IH];
    simpl.
  - apply dec_null, dec_nil.
  - by apply dec_null.
  - apply (dec_run R pos r [] [] d enc); [done|done|done|apply dec_nil].
  - rewrite <- app_assoc. simpl.
    by apply (dec_run R pos r (t ++ [x00]) rs d enc).
Qed.

Lemma extract_decomposes (data : bytes) :
  exists rs, extract_all_null_strings R data = Some rs /\ decomposes R O data rs.
Proof.
  destruct (outer_loop_spec R data (length data) [] data []) as (p & rs & Hrun & Hdec);
    [done|done|].
  exists rs. split; [|done]. by apply extract_of_decomposition.
Qed.

(** X1. A terminator appended to the buffer changes nothing: a last run
    that lacks its null byte is extracted as if it had one, and a null
    byte after a terminated buffer is an empty run and is skipped. *)
Theorem extract_final_terminator_optional (data : bytes) :
  extract_all_null_strings R (data ++ [x00]) = extract_all_null_strings R data.
Proof.
  destruct (extract_decomposes data) as (rs & -> & Hdec).
  apply extract_of_decomposition. by apply decomposes_app_null.
Qed.

(** ** Newlines in content lines *)

Lemma replace_newline_unfold (s : str) :
  replace [10] [92; 110] s
  = flat_map (fun c => if c =? 10 then [92; 110] else [c]) s.
Proof.
  unfold replace. induction s as [|c s IH]; simpl; [done|].
  unfold str_startswith. simpl. rewrite andb_true_r.
  destruct (c =? 10); simpl; by rewrite IH.
Qed.

Lemma replace_cr_unfold (s : str) :
  replace [13] [] s = List.filter (fun c => negb (c =? 13)) s.
Proof.
  unfold replace. induction s as [|c s IH]; simpl; [done|].
  unfold str_startswith. simpl. rewrite andb_true_r.
  destruct (c =? 13); simpl; by rewrite IH.
Qed.

(** X2. The text [sanitize] returns holds neither a carriage return nor
    a newline, so it is a single line of the transcript. *)
Theorem sanitize_is_one_line (s : str) :
  Forall (fun c => c <> 10 /\ c <> 13) (sanitize s).
Proof.
  apply List.Forall_forall.
  unfold sanitize. rewrite replace_newline_unfold, replace_cr_unfold.
  intros c Hc. apply in_flat_map in Hc as (a & Ha & Hc).
  apply filter_In in Ha as [_ Ha]. apply negb_true_iff, Z.eqb_neq in Ha.
  destruct (a =? 10) eqn:E.
  - simpl in Hc. destruct Hc as [<-|[<-|[]]]; split; discriminate.
  - apply Z.eqb_neq in E. simpl in Hc. destruct Hc as [<-|[]]. done.
Qed.

Lemma unescape_cons (c : Z) (t : str) :
  ~ (c = 92 /\ head t = Some 110) ->
  replace [92; 110] [10] (c :: t) = c :: replace [92; 110] [10] t.
Proof.
  intros Hn. unfold replace. simpl. unfold str_startswith. simpl.
  destruct (c =? 92) eqn:Ec; [|done].
  apply Z.eqb_eq in Ec as ->.
  destruct t as [|b t]; [done|]. simpl.
  destruct (b =? 110) eqn:Eb; [|done].
  apply Z.eqb_eq in Eb as ->. destruct Hn. done.
Qed.

Lemma unescape_escape (t : str) :
  replace [92; 110] [10] (92 :: 110 :: t) = 10 :: replace [92; 110] [10] t.
Proof. reflexivity. Qed.

(** X3. Reading back undoes [sanitize]: for a text without carriage
    returns in which no backslash is directly followed by the letter
    [n], replacing the two-character escape by a newline, as
    [parse_github_format] does, gives the text again. *)
Theorem unescape_sanitize (s : str) :
  ~ In 13 s -> no_escape s ->
  replace [92; 110] [10] (sanitize s) = s.
Proof.
  intros Hcr Hesc. unfold sanitize.
  rewrite replace_cr_unfold.
  assert (Hf : List.filter (fun c => negb (c =? 13)) s = s).
  { clear Hesc. induction s as [|c s IH]; simpl; [done|].
    destruct (c =? 13) eqn:E.
    - apply Z.eqb_eq in E as ->. destruct Hcr. by left.
    - simpl. rewrite IH; [done|]. intros H. apply Hcr. by right. }
  rewrite Hf, replace_newline_unfold. clear Hf Hcr.
  induction s as [|c s IH]; [done|].
  assert (Hs : no_escape s) by (destruct s; [done|apply Hesc]).
  simpl. destruct (c =? 10) eqn:E.
  - apply Z.eqb_eq in E as ->. simpl. rewrite unescape_escape. by rewrite IH.
  - simpl. rewrite unescape_cons; [by rewrite IH|].
    intros [-> Hh]. destruct s as [|b s]; [done|]. simpl in *.
    destruct (b =? 10) eqn:Eb; simpl in Hh.
    + discriminate.
    + injection Hh as ->. destruct Hesc as [Hn _]. by apply Hn.
Qed.

(** ** Short tokens *)

(** A match consumes at least [min_len] characters. *)
Lemma run_min_len (r : regex) :
  forall (at0 : bool) (s : str) (k : bool -> str -> bool),
    run r at0 s k = true ->
    exists a t, k a t = true /\ (min_len r + length t <= length s)%nat.
Proof.
  induction r as [| | |p|p lo hi|r1 IH1 r2 IH2|r1 IH1 r2 IH2];
    intros at0 s k H; simpl in H.
  - exists at0, s. split; [done|simpl; lia].
  - apply andb_true_iff in H as [_ H]. exists at0, s. split; [done|simpl; lia].
  - apply andb_true_iff in H as [_ H]. exists at0, s. split; [done|simpl; lia].
  - destruct s as [|c t]; [discriminate|].
    apply andb_true_iff in H as [_ H]. exists false, t. split; [done|simpl; lia].
  - apply rep_spec in H as (n & Hlo & _ & Hn & _ & Hk).
    eexists _, (drop n s). split; [exact Hk|].
    rewrite length_drop. simpl. lia.
  - apply IH1 in H as (a1 & t1 & H & Hlen1).
    apply IH2 in H as (a2 & t2 & H & Hlen2).
    exists a2, t2. split; [done|simpl; lia].
  - apply orb_true_iff in H as [H|H].
    + apply IH1 in H as (a & t & H & Hlen). exists a, t. split; [done|simpl; lia].
    + apply IH2 in H as (a & t & H & Hlen). exists a, t. split; [done|simpl; lia].
Qed.

Lemma search_min_len (r : regex) (s : str) : forall at0,
  search_from r at0 s = true -> (min_len r <= length s)%nat.
Proof.
  induction s as [|c s IH]; intros at0 H; simpl in H.
  - rewrite orb_false_r in H. apply run_min_len in H as (a & t & _ & Hlen).
    simpl in Hlen. lia.
  - apply orb_true_iff in H as [H|H].
    + apply run_min_len in H as (a & t & _ & Hlen). lia.
    + apply IH in H. simpl. lia.
Qed.

Lemma search_too_short (r : regex) (s : str) :
  (length s < min_len r)%nat -> search r s = false.
Proof.
  intros Hlt. apply not_true_is_false. intros H.
  apply search_min_len in H. lia.
Qed.

Lemma search_percent_from (s : str) : forall at0,
  search_from (text "%") at0 s = existsb (Z.eqb 37) s.
Proof.
  change (text "%") with (Cat (Chr (one 37)) Eps).
  induction s as [|c s IH]; intros at0; simpl; [done|].
  rewrite IH. unfold one, accept. rewrite andb_true_r.
  by rewrite (Z.eqb_sym c 37).
Qed.

(** On a text of fewer than three characters only the last
    keep-pattern, the percent sign, can find a match. *)
Lemma keep_loop_short (s : str) :
  (length s < 3)%nat -> keep_loop KEEP_PATTERNS s = existsb (Z.eqb 37) s.
Proof.
  intros Hlen. unfold KEEP_PATTERNS. simpl keep_loop.
  repeat (rewrite search_too_short by (simpl; lia)).
  unfold search. rewrite search_percent_from.
  by destruct (existsb (Z.eqb 37) s).
Qed.

(** X4. Garbage filtering. A text whose trimmed form has fewer than
    three characters is kept in three cases only: its record starts
    with the marker byte, or it has a character of the East-Asian
    ranges, or it has a percent sign. Any other token of one or two
    characters is dropped. *)
Theorem short_tokens_kept_only_if_marked (decoded : str) (raw : bytes) :
  (length (strip decoded) < 3)%nat ->
  is_meaningful R decoded raw
  = negb (forallb isspace decoded)
    && (bytes_startswith raw SPEAKER_BYTE
        || existsb cjk (strip decoded)
        || existsb (Z.eqb 37) (strip decoded)).
Proof.
  intros Hlen. unfold is_meaningful.
  destruct (forallb isspace decoded) eqn:Ews.
  { apply strip_nil_iff in Ews. by rewrite Ews. }
  destruct (strip decoded) as [|c t] eqn:Es.
  { apply strip_nil_iff in Es. congruence. }
  unfold re_cjk. rewrite search_chr, keep_loop_short by done.
  assert (Hlt : (3 <=? len (c :: t)) = false).
  { apply Z.leb_gt. unfold len. lia. }
  rewrite Hlt. simpl negb. cbv beta iota.
  destruct (bytes_startswith raw SPEAKER_BYTE); [done|].
  destruct (existsb cjk (c :: t)); [done|].
  by destruct (existsb (Z.eqb 37) (c :: t)).
Qed.

(** ** Speaker names *)

Lemma name_char_not_space (c : Z) : name_char c = true -> isspace c = false.
Proof.
  intros H. apply not_true_is_false. intros E.
  unfold name_char, union, range in H. unfold isspace in E.
  rewrite ?orb_true_iff, ?andb_true_iff, ?Z.leb_le, ?Z.eqb_eq in H.
  rewrite ?orb_true_iff, ?andb_true_iff, ?Z.leb_le, ?Z.eqb_eq in E.
  lia.
Qed.

Lemma lstrip_id (s : str) :
  match s with c :: _ => isspace c = false | [] => True end -> lstrip s = s.
Proof. destruct s as [|c s]; simpl; [done|]. by intros ->. Qed.

(** A text that neither starts nor ends with whitespace is its own
    trimmed form. *)
Lemma strip_id (s : str) :
  Forall (fun c => isspace c = false) s -> strip s = s.
Proof.
  intros Hall. unfold strip, rstrip.
  rewrite (lstrip_id s) by (destruct Hall; done).
  rewrite (lstrip_id (rev s)); [apply rev_involutive|].
  apply Forall_rev in Hall. by destruct Hall.
Qed.

Lemma name_shape_strip (name : str) : name_shape name = true -> strip name = name.
Proof.
  unfold name_shape. intros H. apply andb_true_iff in H as [_ H].
  apply strip_id. apply Forall_forall. intros c Hc.
  apply name_char_not_space. rewrite forallb_forall in H. apply H.
  by apply list_elem_of_In.
Qed.

(** X5. Speaker round trip. For a name of one to eight characters of
    the name ranges that CP932 encodes and decodes back,
    [content_to_binary] with the speaker flag gives two marker bytes,
    the encoded name and the terminator, and [convert_speaker] on the
    two markers and the encoded name gives the name with the dot in
    front. *)
Theorem speaker_round_trip (name : str) (encoded : bytes) (decoded : str) :
  name_shape name = true ->
  cp932_encode R name = Some encoded ->
  cp932_decode R encoded = Some name ->
  encoded <> [] ->
  head encoded <> Some x0f ->
  content_to_binary R name true = [x0f; x0f] ++ encoded ++ [x00]
  /\ convert_speaker R decoded ([x0f; x0f] ++ encoded) = Some (46 :: name).
Proof.
  intros Hshape Henc Hdec Hne Hhd.
  pose proof (name_shape_strip name Hshape) as Hstrip. split.
  - unfold content_to_binary. rewrite Hstrip.
    destruct name as [|c name]; [discriminate|].
    unfold encode_record. simpl. by rewrite Henc.
  - change ([x0f; x0f] ++ encoded) with (repeat x0f 2 ++ encoded).
    rewrite (convert_speaker_spec R decoded 2 encoded name); [|lia|done|done|by left].
    by rewrite Hstrip, Hshape.
Qed.

(** ** Parsing: validity of the result *)

Lemma parse_result_shape (text : str) entries result :
  parse_github_format R text = Some (entries, result) ->
  (entries <> [] /\ is_valid result = no_errors result)
  \/ (entries = [] /\ is_valid result = false
      /\ exists errs, errors result = errs ++ [NoValidEntries]).
Proof.
  unfold parse_github_format.
  destruct (while _ _ _ _) as [[[i es] r]|]; [|discriminate].
  destruct es as [|e0 rest]; intros [= <- <-].
  - right. split; [done|]. split; [done|]. by exists (errors r).
  - left. split; [done|].
    destruct (ordering_loop_keeps rest 1 e0 (set_is_valid (no_errors r) r))
      as [Hv He].
    rewrite Hv. unfold no_errors at 2. rewrite He. reflexivity.
Qed.

(** X6. [parse_github_format] returns for every text, and its result is
    valid exactly when at least one entry was read and no error was
    recorded; when no entry was read, the last error says so. *)
Theorem parse_valid_iff (text : str) :
  exists entries result,
    parse_github_format R text = Some (entries, result)
    /\ (is_valid result = true <-> entries <> [] /\ errors result = [])
    /\ (entries = [] -> last (errors result) = Some NoValidEntries).
Proof.
  destruct (parse_github_format_total R text) as (entries & result & Hp).
  exists entries, result. split; [done|].
  destruct (parse_result_shape text entries result Hp)
    as [[Hne Hv]|(-> & Hv & errs & He)].
  - split; [|done]. rewrite Hv. unfold no_errors.
    destruct (errors result); split; try done. by intros [_ ?].
  - split.
    + rewrite Hv. split; [done|]. by intros [? _].
    + intros _. rewrite He. apply last_snoc.
Qed.

Lemma split_nil (sep : Z) : split sep [] = [[]].
Proof. reflexivity. Qed.

(** X7. An empty transcript, or one of whitespace only, has no entries:
    the result is invalid and its only error is that no valid entry
    was found. *)
Theorem parse_blank_text (text : str) :
  forallb isspace text = true ->
  parse_github_format R text
  = Some ([], add_suggestion EnsureFileContains
                (add_error NoValidEntries new_result)).
Proof.
  intros Hws. apply strip_nil_iff in Hws.
  unfold parse_github_format. rewrite Hws. reflexivity.
Qed.

(** ** Validation of parsed entries *)

Lemma validate_loop_spec (refs : list nat) :
  forall (i : Z) (result : ValidationResult) (h : gmap nat WSCEntry),
    live h refs ->
    exists result',
      validate_loop R refs i result h = Some (result', h)
      /\ errors result' = errors result.
Proof.
  induction refs as [|r rest IH]; intros i result h Ha; simpl.
  - exists result. done.
  - destruct (Ha r) as [e He]; [left|].
    unfold bind, load. rewrite He.
    match goal with
    | |- exists _, validate_loop R rest (i + 1) ?res h = _ /\ _ =>
        destruct (IH (i + 1) res h) as (result' & Hrun & Herr)
    end.
    { intros r' Hr'. apply Ha. by right. }
    exists result'. split; [done|]. rewrite Herr.
    destruct (cp932_encode R (content e)), (is_speaker e),
      (negb (match_ re_japanese_name (strip (content e)))
       || (8 <? len (strip (content e)))),
      (strip (content e)); reflexivity.
Qed.

Lemma no_overlap_cons (s e s' e' : Z) (l : list (Z * Z)) :
  no_overlap ((s, e) :: (s', e') :: l) <-> e < s' /\ no_overlap ((s', e') :: l).
Proof. reflexivity. Qed.

Lemma offsets_at_some (h : gmap nat WSCEntry) (r : nat) (e : WSCEntry) :
  h !! r = Some e -> offsets_at h r = (start_offset e, end_offset e).
Proof. intros He. unfold offsets_at. by rewrite He. Qed.

Lemma conflict_loop_spec (rest : list nat) :
  forall (i : Z) (prev : nat) (result : ValidationResult)
         (h : gmap nat WSCEntry),
    live h (prev :: rest) ->
    exists result',
      conflict_loop i prev rest result h = Some (result', h)
      /\ (errors result' = []
          <-> errors result = []
              /\ no_overlap (map (offsets_at h) (prev :: rest))).
Proof.
  induction rest as [|r rest IH]; intros i prev result h Ha.
  - exists result. split; [done|]. simpl. unfold offsets_at.
    destruct (h !! prev); tauto.
  - destruct (Ha r) as [e He]; [right; left|].
    destruct (Ha prev) as [p Hp]; [left|].
    simpl conflict_loop. unfold bind, load. rewrite He, Hp.
    match goal with
    | |- exists _, conflict_loop (i + 1) r rest ?res h = _ /\ _ =>
        destruct (IH (i + 1) r res h) as (result' & Hrun & Hiff)
    end.
    { intros r' Hr'. apply Ha. by right. }
    exists result'. split; [done|]. rewrite Hiff.
    rewrite !map_cons.
    rewrite (offsets_at_some h r e He), (offsets_at_some h prev p Hp).
    rewrite no_overlap_cons.
    destruct (start_offset e <=? end_offset p) eqn:Ecmp.
    + apply Z.leb_le in Ecmp. simpl. split.
      * intros [Herr _]. by destruct (errors result).
      * intros [_ [Hlt _]]. lia.
    + apply Z.leb_gt in Ecmp. tauto.
Qed.

Lemma validate_spec (h : gmap nat WSCEntry) (refs : list nat) :
  live h refs ->
  exists result,
    validate_wsc_entries R refs h = Some (result, h)
    /\ (is_valid result = true <-> no_overlap (map (offsets_at h) refs)).
Proof.
  intros Ha.
  unfold validate_wsc_entries.
  destruct (validate_loop_spec refs 0 new_result h Ha) as (r1 & Hrun1 & Herr1).
  unfold bind at 1. rewrite Hrun1.
  destruct refs as [|r0 rest].
  - unfold bind, ret. eexists. split; [done|]. simpl. unfold no_errors.
    rewrite Herr1. simpl. tauto.
  - destruct (conflict_loop_spec rest 1 r0 r1 h Ha) as (r2 & Hrun2 & Hiff).
    unfold bind at 1. rewrite Hrun2. unfold ret. eexists. split; [done|].
    simpl. unfold no_errors. rewrite Herr1 in Hiff. simpl in Hiff.
    destruct (errors r2).
    + split; [intros _|done]. by apply Hiff.
    + split; [done|]. intros Hno.
      assert (Hnil : m :: l = []) by (apply Hiff; done). done.
Qed.

(** X8. [validate_wsc_entries] changes no entry and returns a result
    that is valid exactly when every entry starts after the end of the
    entry before it; its warnings (encoding, unusual speaker names,
    empty content) never make the result invalid. *)
Theorem validate_wsc_entries_valid_iff
        (h : gmap nat WSCEntry) (refs : list nat) :
  allocated h refs ->
  exists result,
    validate_wsc_entries R refs h = Some (result, h)
    /\ (is_valid result = true <-> no_overlap (map (offsets_at h) refs)).
Proof.
  intros Ha. unfold allocated in Ha. rewrite Forall_forall in Ha.
  by apply validate_spec.
Qed.

(** ** Recalculated offsets *)

Lemma contiguous_no_overlap (l : list (Z * Z)) :
  forall from, contiguous from l -> no_overlap l.
Proof.
  induction l as [|[s e] l IH]; intros from H; [done|].
  destruct H as (_ & _ & H). destruct l as [|[s' e'] l]; [done|].
  apply no_overlap_cons. split; [|by apply (IH (e + 1))].
  destruct H as (-> & _). lia.
Qed.

Lemma calculate_contiguous (refs : list nat) :
  forall (cur : Z) (h : gmap nat WSCEntry),
    NoDup refs -> live h refs ->
    exists h',
      calculate_loop R refs cur h = Some (tt, h')
      /\ contiguous cur (map (offsets_at h') refs).
Proof.
  induction refs as [|r rest IH]; intros cur h Hnd Ha.
  - exists h. done.
  - apply NoDup_cons in Hnd as [Hn Hnd].
    destruct (Ha r) as [e He]; [left|].
    simpl calculate_loop. unfold bind, load, store. rewrite He.
    set (b := content_to_binary R (content e) (is_speaker e)).
    set (e1 := set_offsets cur (cur + len b - 1) (set_binary_data b e)).
    set (h1 := <[r := e1]> h).
    assert (Ha1 : live h1 rest).
    { intros r' Hr'. unfold h1. destruct (decide (r = r')) as [<-|Hne].
      - rewrite lookup_insert_eq. eauto.
      - rewrite lookup_insert_ne by done. apply Ha. by right. }
    destruct (IH (cur + len b) h1 Hnd Ha1) as (h' & Hrun & Hcont).
    destruct (calculate_loop_spec R rest (cur + len b) h1 Ha1)
      as (h'' & Hrun' & _ & Hout & _).
    rewrite Hrun in Hrun'. injection Hrun' as <-.
    exists h'. split; [done|]. rewrite map_cons.
    assert (Hr : h' !! r = Some e1).
    { rewrite (Hout r Hn). unfold h1. apply lookup_insert_eq. }
    rewrite (offsets_at_some h' r e1 Hr). simpl.
    destruct (content_to_binary_ends_with_null R (content e) (is_speaker e))
      as [body Hb].
    assert (Hlen : 1 <= len b).
    { unfold b. rewrite Hb. unfold len. rewrite length_app. simpl. lia. }
    split; [done|]. split; [lia|].
    by replace (cur + len b - 1 + 1) with (cur + len b) by lia.
Qed.

(** X9. After [calculate_new_offsets] on distinct entries the offsets
    are contiguous: the first entry starts at 0, every entry ends at or
    after its start, every other entry starts right after the end of
    the one before. So [validate_wsc_entries] finds no conflict in
    them. *)
Theorem recalculated_offsets_contiguous
        (h : gmap nat WSCEntry) (refs : list nat) :
  NoDup refs ->
  allocated h refs ->
  exists h' result,
    calculate_new_offsets R refs h = Some (tt, h')
    /\ contiguous 0 (map (offsets_at h') refs)
    /\ validate_wsc_entries R refs h' = Some (result, h')
    /\ is_valid result = true.
Proof.
  intros Hnd Ha. unfold allocated in Ha. rewrite Forall_forall in Ha.
  destruct (calculate_contiguous refs 0 h Hnd Ha) as (h' & Hrun & Hcont).
  destruct (calculate_loop_spec R refs 0 h Ha) as (h'' & Hrun' & Hst & _).
  unfold calculate_new_offsets. rewrite Hrun in Hrun'. injection Hrun' as <-.
  destruct (validate_spec h' refs) as (result & Hv & Hiff).
  { by apply (stable_live h h'). }
  exists h', result. split; [done|]. split; [done|]. split; [done|].
  apply Hiff. by apply (contiguous_no_overlap _ 0).
Qed.

(** ** Reconstruction again *)

(** X10. Reconstruction can be repeated: a second call on the entries
    the first call has left, in either mode, returns the same bytes. *)
Theorem reconstruct_repeatable
        (h h' : gmap nat WSCEntry) (refs : list nat) (p p' : bool)
        (out : bytes) :
  allocated h refs ->
  reconstruct_wsc_binary R refs p h = Some (out, h') ->
  exists h'', reconstruct_wsc_binary R refs p' h' = Some (out, h'').
Proof.
  intros Ha Hrun. unfold allocated in Ha. rewrite Forall_forall in Ha.
  destruct (reconstruct_spec R p refs h Ha) as (h0 & Hrun0 & Hst & _).
  rewrite Hrun in Hrun0. injection Hrun0 as -> <-.
  destruct (reconstruct_spec R p' refs h') as (h'' & Hrun' & _).
  { by apply (stable_live h h'). }
  exists h''. rewrite Hrun'. do 2 f_equal. f_equal.
  apply map_ext. intros r. by apply stable_binary_of.
Qed.

(** ** Recompiling a transcript *)

Lemma objects_lookup (es : list WSCEntry) (i : nat) :
  objects es !! i = es !! i.
Proof. unfold objects. apply lookup_map_seq_0. Qed.

Lemma map_identities {B} (es : list WSCEntry) (g : nat -> B) (f : WSCEntry -> B) :
  (forall i e, es !! i = Some e -> g i = f e) ->
  map g (identities es) = map f es.
Proof.
  intros Hgf. apply list_eq. intros i. unfold identities.
  rewrite !list_lookup_fmap.
  destruct (es !! i) as [e|] eqn:E.
  - rewrite lookup_seq_lt by (by apply lookup_lt_Some in E).
    simpl. f_equal. by apply Hgf.
  - rewrite lookup_seq_ge by (by apply lookup_ge_None in E). done.
Qed.

Lemma binaries_of_objects (es : list WSCEntry) :
  map (binary_of R (objects es)) (identities es)
  = map (fun e => content_to_binary R (content e) (is_speaker e)) es.
Proof.
  apply map_identities. intros i e He. unfold binary_of.
  by rewrite objects_lookup, He.
Qed.

Lemma offsets_of_objects (es : list WSCEntry) :
  map (offsets_at (objects es)) (identities es) = map offsets_of es.
Proof.
  apply map_identities. intros i e He. unfold offsets_at.
  by rewrite objects_lookup, He.
Qed.

Lemma identities_live (es : list WSCEntry) : live (objects es) (identities es).
Proof.
  destruct (parsed_entries_distinct es) as [_ Ha].
  unfold allocated in Ha. by rewrite Forall_forall in Ha.
Qed.

(** X11. [recompile_wsc_file] on a transcript that parses to a valid
    result whose entries do not overlap succeeds, with a valid final
    result, and the file it writes is the concatenation, in order, of
    what [content_to_binary] gives for each parsed entry, whatever the
    value of [preserve_offsets]. *)
Theorem recompile_writes_concatenation
        (text : str) (preserve : bool) entries result :
  parse_github_format R text = Some (entries, result) ->
  is_valid result = true ->
  no_overlap (map offsets_of entries) ->
  exists final,
    recompile_wsc_file R (Some text) preserve
    = Some (true, final,
            Some (mjoin (map (fun e => content_to_binary R (content e)
                                         (is_speaker e)) entries)))
    /\ is_valid final = true.
Proof.
  intros Hp Hv Hno. unfold recompile_wsc_file. rewrite Hp, Hv. simpl negb.
  cbv iota.
  destruct (validate_spec (objects entries) (identities entries)
              (identities_live entries)) as (vr & Hval & Hiff).
  rewrite Hval. rewrite offsets_of_objects in Hiff.
  apply Hiff in Hno. rewrite Hno. simpl negb. cbv iota.
  destruct (reconstruct_spec R preserve (identities entries) (objects entries)
              (identities_live entries)) as (h2 & Hrun & Hst & _).
  rewrite Hrun, binaries_of_objects.
  destruct preserve.
  - destruct (preserve_original_offsets_spec R (identities entries) h2)
      as (ok & h3 & Hpre & _).
    { apply (stable_live (objects entries) h2); [done|apply identities_live]. }
    rewrite Hpre. destruct ok; eexists; (split; [reflexivity|done]).
  - eexists. split; [reflexivity|done].
Qed.

(** X12. [recompile_wsc_file] writes no file and returns failure when
    the parse result is not valid (an error was recorded or no entry
    was read) or when an entry starts at or before the end of the entry
    before it. *)
Theorem recompile_refuses
        (text : str) (preserve : bool) entries result :
  parse_github_format R text = Some (entries, result) ->
  is_valid result = false \/ ~ no_overlap (map offsets_of entries) ->
  exists r, recompile_wsc_file R (Some text) preserve = Some (false, r, None).
Proof.
  intros Hp Hbad. unfold recompile_wsc_file. rewrite Hp.
  destruct (is_valid result) eqn:Hv; simpl negb; cbv iota; [|eauto].
  destruct Hbad as [?|Hov]; [done|].
  destruct (validate_spec (objects entries) (identities entries)
              (identities_live entries)) as (vr & Hval & Hiff).
  rewrite Hval. rewrite offsets_of_objects in Hiff.
  destruct (is_valid vr) eqn:Hvv; simpl negb; cbv iota; [|eauto].
  destruct Hov. by apply Hiff.
Qed.

(** ** The rebuilt file, read again *)

Lemma decomposes_join (bins : list bytes) :
  forall pos,
    Forall well_terminated bins ->
    exists rs,
      decomposes R pos (mjoin bins) rs
      /\ map span_of rs = spans (Z.of_nat pos) bins
      /\ map (fun rec => raw_of rec ++ [x00]) rs = bins.
Proof.
  induction bins as [|b t IH]; intros pos Hw.
  - exists []. split; [constructor|done].
  - apply Forall_cons in Hw as [(body & -> & Hne & Hnz) Hw].
    destruct (IH (S (pos + length body)) Hw) as (rs & Hd & Hsp & Hraw).
    destruct (decode_try_some R body) as (decoded & enc & Hdec).
    exists ((pos, (pos + length body)%nat, body, decoded) :: rs).
    split; [|split].
    + simpl mjoin. rewrite <- app_assoc. simpl.
      by apply (dec_run R pos body (mjoin t) rs decoded enc).
    + simpl. rewrite Hsp. unfold len. rewrite length_app. simpl.
      f_equal; [f_equal; lia|f_equal; lia].
    + simpl. by rewrite Hraw.
Qed.

Lemma calculate_spans (refs : list nat) :
  forall (cur : Z) (h : gmap nat WSCEntry),
    NoDup refs -> live h refs ->
    exists h',
      calculate_loop R refs cur h = Some (tt, h')
      /\ map (offsets_at h') refs = spans cur (map (binary_of R h) refs).
Proof.
  induction refs as [|r rest IH]; intros cur h Hnd Ha.
  - exists h. done.
  - apply NoDup_cons in Hnd as [Hn Hnd].
    destruct (Ha r) as [e He]; [left|].
    simpl calculate_loop. unfold bind, load, store. rewrite He.
    set (b := content_to_binary R (content e) (is_speaker e)).
    set (e1 := set_offsets cur (cur + len b - 1) (set_binary_data b e)).
    set (h1 := <[r := e1]> h).
    assert (Hs1 : stable h h1) by (by apply (stable_store h r e e1)).
    assert (Ha1 : live h1 rest).
    { apply (stable_live h h1 rest Hs1). intros r' Hr'. apply Ha. by right. }
    destruct (IH (cur + len b) h1 Hnd Ha1) as (h' & Hrun & Hsp).
    destruct (calculate_loop_spec R rest (cur + len b) h1 Ha1)
      as (h'' & Hrun' & _ & Hout & _).
    rewrite Hrun in Hrun'. injection Hrun' as <-.
    exists h'. split; [done|]. rewrite !map_cons.
    assert (Hr : h' !! r = Some e1).
    { rewrite (Hout r Hn). unfold h1. apply lookup_insert_eq. }
    rewrite (offsets_at_some h' r e1 Hr). simpl.
    assert (Hb : binary_of R h r = b) by (unfold binary_of; by rewrite He).
    rewrite Hb, Hsp. do 2 f_equal.
    apply map_ext. intros r'. by apply stable_binary_of.
Qed.

(** X13. The offsets [calculate_new_offsets] stores are the offsets the
    decompiler reads: when every entry re-encodes to a non-empty run of
    non-zero bytes and its terminator, [extract_all_null_strings] on the
    file rebuilt without offset preservation finds one record per
    entry, in order, with the entry's bytes and at the entry's new
    start and end offsets. *)
Theorem rebuilt_file_reads_back_at_new_offsets
        (h : gmap nat WSCEntry) (refs : list nat) :
  NoDup refs ->
  allocated h refs ->
  Forall well_terminated (map (binary_of R h) refs) ->
  exists h' out strings,
    reconstruct_wsc_binary R refs false h = Some (out, h')
    /\ extract_all_null_strings R out = Some strings
    /\ map span_of strings = map (offsets_at h') refs
    /\ map (fun rec => raw_of rec ++ [x00]) strings = map (binary_of R h) refs.
Proof.
  intros Hnd Ha Hw. unfold allocated in Ha. rewrite Forall_forall in Ha.
  destruct (calculate_spans refs 0 h Hnd Ha) as (h' & Hrun & Hsp).
  destruct (calculate_loop_spec R refs 0 h Ha) as (h'' & Hrun' & Hst & _ & Hbin & _).
  rewrite Hrun in Hrun'. injection Hrun' as <-.
  destruct (decomposes_join (map (binary_of R h) refs) O Hw)
    as (rs & Hd & Hspans & Hraw).
  exists h', (mjoin (map (binary_of R h) refs)), rs.
  split; [|split; [|split]].
  - unfold reconstruct_wsc_binary, calculate_new_offsets, bind.
    rewrite Hrun. rewrite (combine_loop_spec R) by done. simpl. do 3 f_equal.
    apply map_ext. intros r. by apply stable_binary_of.
  - by apply extract_of_decomposition.
  - by rewrite Hspans, Hsp.
  - done.
Qed.

(** ** Speaker records and the sanitised text *)

(** X14. For a record that starts with marker bytes and has a byte after
    them, [convert_speaker] does not use its first argument: the text
    it returns is decoded again from the bytes after the markers, so
    whatever [sanitize] did to the first argument is not in it. *)
Theorem convert_speaker_ignores_text
        (decoded decoded' : str) (k : nat) (rest : bytes) :
  (1 <= k)%nat ->
  rest <> [] ->
  head rest <> Some x0f ->
  convert_speaker R decoded (repeat x0f k ++ rest)
  = convert_speaker R decoded' (repeat x0f k ++ rest).
Proof.
  intros Hk Hne Hhd.
  destruct (cp932_decode R rest) as [remainder|] eqn:E.
  - rewrite (convert_speaker_spec R decoded k rest remainder) by auto.
    by rewrite (convert_speaker_spec R decoded' k rest remainder) by auto.
  - destruct (decode_try_some R rest) as (remainder & enc & Hd).
    rewrite (convert_speaker_spec R decoded k rest remainder) by eauto.
    by rewrite (convert_speaker_spec R decoded' k rest remainder) by eauto.
Qed.

End CodecProperties.

Section TranscriptProperties.
Context (R : Runtime).

Ltac zbool :=
  repeat match goal with
         | |- context [?a <=? ?b] => destruct (Z.leb_spec a b)
         | |- context [?a <? ?b] => destruct (Z.ltb_spec a b)
         | |- context [?a =? ?b] => destruct (Z.eqb_spec a b)
         | H : context [?a <=? ?b] |- _ => destruct (Z.leb_spec a b)
         | H : context [?a <? ?b] |- _ => destruct (Z.ltb_spec a b)
         | H : context [?a =? ?b] |- _ => destruct (Z.eqb_spec a b)
         end.

Lemma hex_digit_range (c d : Z) :
  hex_digit c = Some d ->
  0 <= d < 16 /\ 48 <= c < 127 /\ c <> 95 /\ c <> 58 /\ c <> 43 /\ c <> 45
  /\ c <> 120 /\ c <> 88 /\ c <> 10 /\ c_isspace c = false.
Proof.
  unfold hex_digit, c_isspace. intros H.
  zbool; simpl in *; try discriminate; injection H as <-; repeat split; lia.
Qed.

Lemma hex_digit_hex_char (d : Z) :
  0 <= d < 16 -> hex_digit (hex_char d) = Some d.
Proof.
  intros Hd. unfold hex_digit, hex_char.
  zbool; simpl; try lia; f_equal; lia.
Qed.

Lemma hex_value_app (a : Z) (s t : str) :
  hex_value a (s ++ t) = hex_value (hex_value a s) t.
Proof. unfold hex_value. apply fold_left_app. Qed.

Lemma hex_digits_spec (fuel : nat) :
  forall (n : Z) (acc : str),
    0 <= n < 16 ^ Z.of_nat fuel ->
    exists ds,
      hex_digits fuel n acc = ds ++ acc
      /\ forallb is_hex ds = true
      /\ (length ds <= fuel)%nat
      /\ forall a, hex_value a ds = a * 16 ^ Z.of_nat (length ds) + n.
Proof.
  induction fuel as [|f IH]; intros n acc Hn.
  - exists []. simpl in *. repeat split; [lia|]. intros a. unfold hex_value. simpl. lia.
  - simpl hex_digits.
    assert (Hm : 0 <= n mod 16 < 16) by (apply Z.mod_pos_bound; lia).
    assert (Hdm : n = 16 * (n / 16) + n mod 16) by (apply Z.div_mod; lia).
    destruct (Z.eqb_spec (n / 16) 0) as [E|E].
    + exists [hex_char (n mod 16)]. split; [done|]. split; [|split].
      * simpl. unfold is_hex. by rewrite hex_digit_hex_char.
      * simpl. lia.
      * intros a. unfold hex_value. simpl. rewrite hex_digit_hex_char by done.
        simpl. lia.
    + assert (Hq : 0 <= n / 16 < 16 ^ Z.of_nat f).
      { split; [apply Z.div_pos; lia|].
        apply Z.div_lt_upper_bound; [lia|].
        replace (16 * 16 ^ Z.of_nat f) with (16 ^ Z.of_nat (S f)); [lia|].
        rewrite Nat2Z.inj_succ, Z.pow_succ_r by lia. done. }
      destruct (IH (n / 16) (hex_char (n mod 16) :: acc) Hq)
        as (ds & Hrun & Hhex & Hlen & Hval).
      exists (ds ++ [hex_char (n mod 16)]). split; [|split; [|split]].
      * rewrite Hrun. by rewrite <- app_assoc.
      * rewrite forallb_app, Hhex. simpl. unfold is_hex.
        by rewrite hex_digit_hex_char.
      * rewrite length_app. simpl. lia.
      * intros a. rewrite hex_value_app, Hval. unfold hex_value at 1. simpl.
        rewrite hex_digit_hex_char by done. simpl.
        rewrite length_app. simpl.
        replace (Z.of_nat (length ds + 1)) with (Z.succ (Z.of_nat (length ds))) by lia.
        rewrite Z.pow_succ_r by lia. lia.
Qed.

Lemma hex_upper_spec (n : Z) :
  0 <= n ->
  forallb is_hex (hex_upper n) = true /\ hex_value 0 (hex_upper n) = n.
Proof.
  intros Hn. unfold hex_upper.
  destruct (hex_digits_spec (S (Z.to_nat (Z.log2 n))) n [])
    as (ds & Hrun & Hhex & _ & Hval).
  { split; [done|].
    destruct (Z.eq_dec n 0) as [->|Hnz]; [simpl; lia|].
    assert (Hl : n < 2 ^ Z.succ (Z.log2 n)) by (apply Z.log2_spec; lia).
    assert (0 <= Z.log2 n) by apply Z.log2_nonneg.
    rewrite Nat2Z.inj_succ, Z2Nat.id by done.
    eapply Z.lt_le_trans; [apply Hl|].
    apply Z.pow_le_mono_l. lia. }
  rewrite Hrun, app_nil_r. split; [done|]. rewrite Hval. lia.
Qed.

Lemma hex_value_zeros (k : nat) (s : str) :
  hex_value 0 (repeat 48 k ++ s) = hex_value 0 s.
Proof.
  induction k as [|k IH]; [done|]. simpl. unfold hex_value in *. simpl. apply IH.
Qed.

Lemma format_08X_spec (n : Z) :
  0 <= n ->
  forallb is_hex (format_08X n) = true
  /\ (8 <= length (format_08X n))%nat
  /\ hex_value 0 (format_08X n) = n.
Proof.
  intros Hn. destruct (hex_upper_spec n Hn) as [Hhex Hval].
  unfold format_08X. destruct (Z.ltb_spec n 0); [lia|].
  unfold zero_pad. split; [|split].
  - rewrite forallb_app, Hhex, andb_true_r.
    apply forallb_forall. intros c Hc. apply repeat_spec in Hc. by subst.
  - rewrite length_app, repeat_length. lia.
  - by rewrite hex_value_zeros.
Qed.

Lemma scan_digits_hex (s : str) :
  forall (k : nat) (acc : Z),
    forallb is_hex s = true ->
    scan_digits false k acc s = Some ((k + length s)%nat, hex_value acc s, []).
Proof.
  induction s as [|c t IH]; intros k acc Hs.
  - simpl. do 3 f_equal. lia.
  - simpl in Hs. apply andb_true_iff in Hs as [Hc Ht].
    unfold is_hex in Hc. destruct (hex_digit c) as [d|] eqn:E; [|discriminate].
    destruct (hex_digit_range c d E) as (_ & _ & H95 & _).
    simpl scan_digits. destruct (Z.eqb_spec c 95); [done|]. rewrite E.
    rewrite IH by done.
    change (hex_value acc (c :: t))
      with (hex_value (16 * acc + default 0 (hex_digit c)) t).
    rewrite E. simpl. do 3 f_equal. lia.
Qed.

Lemma mapM_to_ascii_hex (s : str) :
  forallb is_hex s = true -> mapM (to_ascii (todecimal R)) s = Some s.
Proof.
  intros Hs. apply mapM_Some. induction s as [|c t IH]; [constructor|].
  simpl in Hs. apply andb_true_iff in Hs as [Hc Ht].
  constructor; [|by apply IH].
  unfold is_hex in Hc. destruct (hex_digit c) as [d|] eqn:E; [|discriminate].
  destruct (hex_digit_range c d E) as (_ & Hr & _).
  unfold to_ascii. destruct (Z.ltb_spec c 127); [done|lia].
Qed.

(** [int(s, 16)] on a non-empty string of hex digits. *)
Lemma int16_hex (s : str) :
  forallb is_hex s = true -> s <> [] ->
  int16 (todecimal R) s = Some (hex_value 0 s).
Proof.
  intros Hs Hne. unfold int16. rewrite mapM_to_ascii_hex by done.
  destruct s as [|c t]; [done|].
  pose proof Hs as Hs'. simpl in Hs'. apply andb_true_iff in Hs' as [Hc Ht].
  unfold is_hex in Hc. destruct (hex_digit c) as [d|] eqn:E; [|discriminate].
  destruct (hex_digit_range c d E) as (_ & _ & H95 & _ & H43 & H45 & _ & _ & _ & Hsp).
  simpl skip_spaces. rewrite Hsp.
  destruct (Z.eqb_spec c 43); [done|]. destruct (Z.eqb_spec c 45); [done|].
  assert (Hs3 : match c :: t with
                | c0 :: x :: t0 =>
                    if (c0 =? 48) && ((x =? 120) || (x =? 88))
                    then match t0 with
                         | u :: t' => if u =? 95 then t' else t0
                         | [] => t0
                         end
                    else c :: t
                | _ => c :: t
                end = c :: t).
  { destruct t as [|x t0]; [done|].
    simpl in Ht. apply andb_true_iff in Ht as [Hx _].
    unfold is_hex in Hx. destruct (hex_digit x) as [dx|] eqn:Ex; [|discriminate].
    destruct (hex_digit_range x dx Ex) as (_ & _ & _ & _ & _ & _ & H120 & H88 & _).
    destruct (Z.eqb_spec x 120); [done|]. destruct (Z.eqb_spec x 88); [done|].
    by rewrite andb_false_r. }
  cbv zeta. rewrite Hs3.
  destruct (Z.eqb_spec c 95); [done|].
  rewrite scan_digits_hex by done. simpl. f_equal. lia.
Qed.

(** The header line is read back: [int(f"{n:08X}", 16) == n]. *)
Lemma int16_format_08X (n : Z) :
  0 <= n -> int16 (todecimal R) (format_08X n) = Some n.
Proof.
  intros Hn. destruct (format_08X_spec n Hn) as (Hhex & Hlen & Hval).
  rewrite int16_hex; [by rewrite Hval|done|].
  intros E. rewrite E in Hlen. simpl in Hlen. lia.
Qed.

Lemma split_no_sep (sep : Z) (s : str) :
  ~ In sep s -> split sep s = [s].
Proof.
  induction s as [|c t IH]; intros Hn; [done|].
  simpl. destruct (Z.eqb_spec c sep) as [->|_]; [destruct Hn; by left|].
  rewrite IH; [done|]. intros H. apply Hn. by right.
Qed.

Lemma split_app_sep (sep : Z) (a b : str) :
  ~ In sep a -> split sep (a ++ sep :: b) = a :: split sep b.
Proof.
  induction a as [|c t IH]; intros Hn.
  - simpl. by rewrite Z.eqb_refl.
  - simpl. destruct (Z.eqb_spec c sep) as [->|_]; [destruct Hn; by left|].
    rewrite IH; [done|]. intros H. apply Hn. by right.
Qed.

Lemma hex_not_in (c : Z) (s : str) :
  forallb is_hex s = true -> is_hex c = false -> ~ In c s.
Proof.
  intros Hs Hc Hin. rewrite forallb_forall in Hs. specialize (Hs c Hin). congruence.
Qed.

Lemma strip_brackets_spec (a : Z) (s : str) (b : Z) :
  strip_brackets (a :: s ++ [b]) = s.
Proof.
  unfold strip_brackets.
  replace (length (a :: s ++ [b]) - 2)%nat with (length s)
    by (simpl; rewrite length_app; simpl; lia).
  simpl drop. rewrite drop_0. apply take_app_length.
Qed.

(** A header of two hex fields is read by [parse_entry]. *)
Lemma parse_entry_hex (lines : list str) (i : nat) (fs fe : str) :
  forallb is_hex fs = true -> fs <> [] ->
  forallb is_hex fe = true -> fe <> [] ->
  parse_entry R lines i ([60] ++ fs ++ [58] ++ fe ++ [62])
  = let content := match lines !! S i with Some l => strip l | None => [] end in
    let is_speaker := str_startswith content (lit ".") && (1 <? len content) in
    Some (new_entry (hex_value 0 fs) (hex_value 0 fe)
            (replace [92; 110] [10] (if is_speaker then drop 1 content else content))
            is_speaker).
Proof.
  intros Hs Hsn He Hen. unfold parse_entry.
  replace ([60] ++ fs ++ [58] ++ fe ++ [62]) with (60 :: (fs ++ 58 :: fe) ++ [62])
    by (simpl; by rewrite <- app_assoc).
  rewrite strip_brackets_spec.
  rewrite split_app_sep by (by apply hex_not_in).
  rewrite split_no_sep by (by apply hex_not_in).
  by rewrite !int16_hex by done.
Qed.

(** ** Trimming *)











(** ** The lines of a written transcript *)

Lemma header_unfold (s e : Z) :
  header s e = 60 :: (format_08X s ++ 58 :: format_08X e) ++ [62].
Proof. unfold header. simpl. by rewrite <- app_assoc. Qed.

Lemma format_08X_no (c : Z) (n : Z) :
  0 <= n -> is_hex c = false -> ~ In c (format_08X n).
Proof.
  intros Hn Hc. destruct (format_08X_spec n Hn) as (Hhex & _).
  by apply hex_not_in.
Qed.

Lemma header_no_newline (s e : Z) : 0 <= s -> 0 <= e -> ~ In 10 (header s e).
Proof.
  intros Hs He. rewrite header_unfold. intros [H|H]; [done|].
  apply in_app_or in H as [H|[H|[]]]; [|done].
  apply in_app_or in H as [H|[H|H]]; [|done|].
  - by apply (format_08X_no 10 s).
  - by apply (format_08X_no 10 e).
Qed.

Lemma render_unfold (s e : Z) (l : str) (t : list (Z * Z * str)) :
  render ((s, e, l) :: t) = header s e ++ [10] ++ l ++ [10; 10] ++ render t.
Proof. reflexivity. Qed.

Lemma render_app (a b : list (Z * Z * str)) :
  render (a ++ b) = render a ++ render b.
Proof.
  induction a as [|[[s e] l] a IH]; [done|].
  rewrite <- app_comm_cons, !render_unfold, IH.
  generalize (header s e) (render a) (render b). intros h ra rb.
  by rewrite <- !app_assoc.
Qed.

Lemma render_cons (s e : Z) (l : str) (t : list (Z * Z * str)) (x : str) :
  render ((s, e, l) :: t) ++ x
  = header s e ++ 10 :: l ++ 10 :: ([] ++ 10 :: render t ++ x).
Proof.
  rewrite render_unfold. generalize (header s e) (render t). intros h r.
  by rewrite <- !app_assoc.
Qed.

Lemma split_render (recs : list (Z * Z * str)) (x : str) :
  Forall one_line recs ->
  split 10 (render recs ++ x) = lines_of recs (split 10 x).
Proof.
  induction recs as [|[[s e] l] t IH]; intros Hok; [done|].
  apply Forall_cons in Hok as [(Hs & He & Hl) Hok].
  rewrite render_cons.
  rewrite split_app_sep by (by apply header_no_newline).
  rewrite split_app_sep by done.
  rewrite split_app_sep by (by intros []).
  simpl. by rewrite IH.
Qed.



(** ** The parse loop on a written transcript *)


Lemma hex_line_step (lines : list str) (i : nat) (l fs fe : str)
      (es : list WSCEntry) (res : ValidationResult) :
  lines !! i = Some l ->
  strip l = 60 :: (fs ++ 58 :: fe) ++ [62] ->
  forallb is_hex fs = true -> fs <> [] ->
  forallb is_hex fe = true -> fe <> [] ->
  parse_body R lines (i, es, res)
  = Some (S (S i),
          es ++ [entry_of_content (hex_value 0 fs) (hex_value 0 fe)
                   (match lines !! S i with Some l => strip l | None => [] end)],
          res).
Proof.
  intros Hl Hline Hfs Hns Hfe Hne. unfold parse_body. rewrite Hl, Hline.
  assert (Hsw : str_startswith (60 :: (fs ++ 58 :: fe) ++ [62]) (lit "<") = true)
    by reflexivity.
  assert (Hc : contains 58 (60 :: (fs ++ 58 :: fe) ++ [62]) = true).
  { unfold contains. simpl existsb. rewrite !existsb_app. simpl.
    by rewrite orb_true_r. }
  assert (Hew : str_endswith (60 :: (fs ++ 58 :: fe) ++ [62]) (lit ">") = true).
  { unfold str_endswith. simpl rev. by rewrite rev_app_distr. }
  rewrite Hsw, Hc, Hew. simpl andb. cbv iota.
  replace (60 :: (fs ++ 58 :: fe) ++ [62])
    with ([60] ++ fs ++ [58] ++ fe ++ [62])
    by (simpl; by rewrite <- app_assoc).
  by rewrite parse_entry_hex.
Qed.










Lemma write_records_render (strings : list (nat * nat * bytes * str)) :
  forall text,
    write_records R strings = Some text -> text = render (written R strings).
Proof.
  induction strings as [|[[[start end_] raw] decoded] rest IH]; intros text.
  - simpl. by intros [= <-].
  - simpl write_records. simpl written.
    destruct (is_meaningful R decoded raw); simpl negb; cbv iota; [|apply IH].
    destruct (convert_speaker R (sanitize decoded) raw) as [cleaned|];
      [|discriminate].
    destruct (write_records R rest) as [tail|]; [|discriminate].
    intros [= <-]. rewrite render_unfold, <- (IH tail eq_refl).
    unfold header. by rewrite <- !app_assoc.
Qed.

Lemma written_offsets (strings : list (nat * nat * bytes * str)) :
  Forall (fun rec => 0 <= fst (fst rec) /\ 0 <= snd (fst rec))
         (written R strings).
Proof.
  induction strings as [|[[[start end_] raw] decoded] rest IH]; [constructor|].
  simpl. destruct (is_meaningful R decoded raw); [|done].
  destruct (convert_speaker R (sanitize decoded) raw); [|done].
  constructor; [simpl; lia|done].
Qed.


(** X16. A header line as [decompile_wsc_file] writes it, two offsets
    in eight or more upper-case hex digits, is read back by the parser
    to the same two offsets. *)
Theorem header_round_trip (lines : list str) (i : nat) (s e : Z) :
  0 <= s -> 0 <= e ->
  exists entry,
    parse_entry R lines i (header s e) = Some entry
    /\ start_offset entry = s /\ end_offset entry = e.
Proof.
  intros Hs He.
  destruct (format_08X_spec s Hs) as (Hhs & Hls & Hvs).
  destruct (format_08X_spec e He) as (Hhe & Hle & Hve).
  unfold header.
  change (lit "<") with [60]. change (lit ":") with [58]. change (lit ">") with [62].
  rewrite parse_entry_hex; try done.
  - cbv zeta. eexists. split; [reflexivity|]. by rewrite Hvs, Hve.
  - intros E. rewrite E in Hls. simpl in Hls. lia.
  - intros E. rewrite E in Hle. simpl in Hle. lia.
Qed.

End TranscriptProperties.

Section ValidatorProperties.
Context (R : Runtime).

Lemma hex_class_is_hex (c : Z) : Validator.hex_class c = is_hex c.
Proof.
  unfold Validator.hex_class, is_hex, hex_digit, union, range.
  destruct (Z.leb_spec 48 c), (Z.leb_spec c 57), (Z.leb_spec 97 c),
    (Z.leb_spec c 102), (Z.leb_spec 65 c), (Z.leb_spec c 70);
    simpl; try reflexivity; lia.
Qed.

Lemma forallb_hex_class (s : str) :
  forallb Validator.hex_class s = forallb is_hex s.
Proof. induction s as [|c s IH]; simpl; [done|]. by rewrite hex_class_is_hex, IH. Qed.

(** What the pattern of an offset line accepts. *)
Lemma offset_line_shape (s : str) :
  match_ Validator.offset_line s = true ->
  exists fs fe tail,
    s = 60 :: (fs ++ 58 :: fe) ++ 62 :: tail
    /\ forallb is_hex fs = true /\ length fs = 8%nat
    /\ forallb is_hex fe = true /\ length fe = 8%nat
    /\ (tail = [] \/ tail = [10]).
Proof.
  unfold match_, Validator.offset_line. simpl cats. simpl run.
  destruct s as [|c t]; [discriminate|].
  intros H. apply andb_true_iff in H as [Hc H].
  unfold one in Hc. apply Z.eqb_eq in Hc as ->.
  apply rep_spec in H as (n & Hlo & Hhi & Hlen & Hall & H).
  assert (n = 8%nat) as -> by lia.
  destruct (drop 8 t) as [|c2 t2] eqn:E2; [discriminate|].
  apply andb_true_iff in H as [Hc H].
  unfold one in Hc. apply Z.eqb_eq in Hc as ->.
  apply rep_spec in H as (n & Hlo' & Hhi' & Hlen' & Hall' & H).
  assert (n = 8%nat) as -> by lia.
  destruct (drop 8 t2) as [|c3 t3] eqn:E3; [discriminate|].
  apply andb_true_iff in H as [Hc H].
  unfold one in Hc. apply Z.eqb_eq in Hc as ->.
  apply andb_true_iff in H as [H _]. apply at_eol_cases in H.
  exists (take 8 t), (take 8 t2), t3.
  rewrite forallb_hex_class in Hall, Hall'.
  split; [|split; [done|split; [|split; [done|split; [|done]]]]].
  - f_equal. rewrite <- (take_drop 8 t) at 1. rewrite E2.
    rewrite <- (take_drop 8 t2) at 1. rewrite E3.
    by rewrite <- !app_assoc.
  - rewrite length_take. lia.
  - rewrite length_take. lia.
Qed.

(** A trimmed line the pattern accepts is read by the parser. *)
Lemma strict_line_step (lines : list str) (i : nat) (l : str)
      (es : list WSCEntry) (res : ValidationResult) :
  lines !! i = Some l ->
  match_ Validator.offset_line (strip l) = true ->
  exists entry,
    parse_body R lines (i, es, res) = Some (S (S i), es ++ [entry], res).
Proof.
  intros Hl Hm.
  destruct (offset_line_shape (strip l) Hm)
    as (fs & fe & tail & Hs & Hfs & Hls & Hfe & Hle & Htail).
  assert (tail = []) as ->.
  { destruct Htail as [->| ->]; [done|].
    destruct (strip_no_final_newline l). rewrite Hs.
    replace (60 :: (fs ++ 58 :: fe) ++ [62; 10])
      with ((60 :: (fs ++ 58 :: fe) ++ [62]) ++ [10])
      by (simpl; by rewrite <- app_assoc).
    apply last_snoc. }
  eexists.
  apply (hex_line_step R lines i l fs fe es res Hl Hs Hfs); [|done|].
  - intros E. by rewrite E in Hls.
  - intros E. by rewrite E in Hle.
Qed.

Lemma while_O {St} (cond : St -> bool) (body : St -> option St) (s : St) :
  while O cond body s = if cond s then None else Some s.
Proof. reflexivity. Qed.

Lemma while_S {St} (fuel : nat) (cond : St -> bool) (body : St -> option St)
      (s : St) :
  while (S fuel) cond body s
  = if cond s then
      match body s with
      | Some s' => while fuel cond body s'
      | None => None
      end
    else Some s.
Proof. reflexivity. Qed.

(** Errors of the format check are never taken back. *)
Lemma format_errors_stay (lines : list str) (fuel : nat) :
  forall st st',
    while fuel (format_cond lines) (Validator.format_body lines) st = Some st' ->
    Validator.errors (snd (fst st)) <> [] ->
    Validator.errors (snd (fst st')) <> [].
Proof.
  induction fuel as [|fuel IH]; intros [[[i n] rv] b] st' Hrun Herr.
  - rewrite while_O in Hrun. destruct (format_cond _ _); [discriminate|].
    by injection Hrun as <-.
  - rewrite while_S in Hrun. destruct (format_cond lines (i, n, rv, b)).
    2:{ by injection Hrun as <-. }
    destruct (Validator.format_body lines (i, n, rv, b)) as [st1|] eqn:Hb;
      [|discriminate].
    apply (IH st1 st' Hrun).
    unfold Validator.format_body in Hb. cbv beta iota zeta in Hb.
    destruct (lines !! i) as [l|]; [|discriminate].
    destruct (strip l) as [|c t]; [by injection Hb as <-|].
    destruct (negb _).
    { injection Hb as <-. simpl. by destruct (Validator.errors rv). }
    destruct (_ <=? _)%nat.
    { injection Hb as <-. simpl. by destruct (Validator.errors rv). }
    destruct (lines !! S i); [|discriminate]. by injection Hb as <-.
Qed.

(** While the format check records no error, the parser walks the
    same lines and records none either. *)
Lemma format_parse_lockstep (lines : list str) (fuel : nat) :
  forall i n rv es rp stv,
    while fuel (format_cond lines) (Validator.format_body lines)
          (i, n, rv, false) = Some stv ->
    Validator.errors (snd (fst stv)) = [] ->
    exists i' es',
      while fuel (parse_cond lines) (parse_body R lines) (i, es, rp)
      = Some (i', es ++ es', rp)
      /\ Z.of_nat (length es') = snd (fst (fst stv)) - n.
Proof.
  induction fuel as [|fuel IH]; intros i n rv es rp stv Hrun Herr.
  - rewrite while_O in Hrun. rewrite while_O.
    unfold format_cond in Hrun. unfold parse_cond.
    simpl fst in *. simpl snd in *. simpl negb in *. simpl andb in *.
    destruct (i <? length lines)%nat; [discriminate|].
    injection Hrun as <-. exists i, []. rewrite app_nil_r. simpl. split; [done|lia].
  - rewrite while_S in Hrun. rewrite while_S.
    unfold format_cond at 1 in Hrun. unfold parse_cond at 1.
    simpl fst in *. simpl snd in *. simpl negb in *. simpl andb in *.
    destruct (i <? length lines)%nat eqn:Hi.
    2:{ injection Hrun as <-. exists i, []. rewrite app_nil_r. simpl.
        split; [done|lia]. }
    destruct (Validator.format_body lines (i, n, rv, false)) as [st1|] eqn:Hb;
      [|discriminate].
    unfold Validator.format_body in Hb. cbv beta iota zeta in Hb.
    destruct (lines !! i) as [l|] eqn:Hl; [|discriminate].
    destruct (strip l) as [|c t] eqn:Hs.
    { injection Hb as <-.
      assert (Hp : parse_body R lines (i, es, rp) = Some (S i, es, rp)).
      { unfold parse_body. by rewrite Hl, Hs. }
      rewrite Hp. by apply (IH (S i) n rv es rp stv). }
    destruct (match_ Validator.offset_line (c :: t)) eqn:Hm; simpl negb in Hb;
      cbv iota in Hb.
    2:{ injection Hb as <-. apply format_errors_stay in Hrun; [done|].
        simpl. by destruct (Validator.errors rv). }
    destruct (length lines <=? i + 1)%nat.
    { injection Hb as <-. apply format_errors_stay in Hrun; [done|].
      simpl. by destruct (Validator.errors rv). }
    destruct (lines !! S i); [|discriminate]. injection Hb as <-.
    rewrite <- Hs in Hm.
    destruct (strict_line_step lines i l es rp Hl Hm) as [entry Hp].
    rewrite Hp.
    destruct (IH (S (S i)) (n + 1) rv (es ++ [entry]) rp stv Hrun Herr)
      as (i' & es' & Hrun' & Hcount).
    exists i', (entry :: es'). rewrite Hrun'. split.
    + by rewrite <- app_assoc.
    + simpl length. lia.
Qed.

(** The format check returns. *)
Lemma format_loop_total (lines : list str) :
  exists st,
    while (length lines) (format_cond lines) (Validator.format_body lines)
          (O, 0, Validator.new_result, false) = Some st.
Proof.
  destruct (while_total
              (fun st : nat * Z * Validator.ValidationResult * bool =>
                 if snd st then O else (length lines - fst (fst (fst st)))%nat)
              (format_cond lines) (Validator.format_body lines)) with
    (fuel := length lines) (s := (O, 0, Validator.new_result, false))
    as (st & Hrun & _).
  - intros [[[i n] rv] b]. unfold format_cond. simpl.
    destruct b; [discriminate|]. simpl. intros Hi. apply Nat.ltb_lt in Hi.
    destruct (lookup_lt_is_Some_2 lines i Hi) as [l Hl]. rewrite Hl.
    destruct (strip l) as [|c t].
    { eexists. split; [reflexivity|]. simpl. lia. }
    destruct (negb _).
    { eexists. split; [reflexivity|]. simpl. lia. }
    destruct (Nat.leb_spec (length lines) (i + 1)).
    { eexists. split; [reflexivity|]. simpl. lia. }
    destruct (lookup_lt_is_Some_2 lines (S i)) as [l' Hl']; [lia|].
    rewrite Hl'. eexists. split; [reflexivity|]. simpl. lia.
  - simpl. lia.
  - eauto.
Qed.

(** X17. What the validator's format check accepts, the parser accepts:
    [validate_format_structure] returns on every text, and when its
    result is valid, [parse_github_format] on the same text gives at
    least one entry and a valid result. *)
Theorem strict_format_is_parsed (text : str) :
  exists rv,
    Validator.validate_format_structure text = Some rv
    /\ (Validator.is_valid rv = true ->
        exists entries rp,
          parse_github_format R text = Some (entries, rp)
          /\ entries <> [] /\ is_valid rp = true /\ errors rp = []).
Proof.
  unfold Validator.validate_format_structure, parse_github_format.
  set (lines := split 10 (strip text)).
  destruct (format_loop_total lines) as [[[[i n] rv] b] Hrun].
  fold (format_cond lines). fold (parse_cond lines). rewrite Hrun.
  eexists. split; [reflexivity|].
  destruct (Z.eqb_spec n 0) as [->|Hn].
  { simpl. unfold Validator.no_errors. simpl.
    by destruct (Validator.errors rv). }
  simpl Validator.is_valid. unfold Validator.no_errors.
  destruct (Validator.errors rv) eqn:Herr; [|discriminate]. intros _.
  destruct (format_parse_lockstep lines (length lines) O 0
              Validator.new_result [] new_result (i, n, rv, b) Hrun Herr)
    as (i' & es' & Hrun' & Hcount).
  rewrite Hrun'. simpl in Hcount. simpl app.
  destruct es' as [|e0 rest]; [simpl in Hcount; lia|].
  eexists _, _. split; [reflexivity|]. split; [done|].
  destruct (ordering_loop_keeps rest 1 e0
              (set_is_valid (no_errors new_result) new_result)) as [-> ->].
  done.
Qed.

(** ** The offset check *)

Lemma ascending_spans_cons (s e s' e' : Z) (l : list (Z * Z)) :
  ascending_spans ((s, e) :: (s', e') :: l)
  <-> s < s' /\ e < s' /\ ascending_spans ((s', e') :: l).
Proof. reflexivity. Qed.

Lemma ascending_spans_no_overlap (l : list (Z * Z)) :
  ascending_spans l -> no_overlap l.
Proof.
  induction l as [|[s e] l IH]; [done|].
  destruct l as [|[s' e'] l]; [done|].
  rewrite ascending_spans_cons, no_overlap_cons. tauto.
Qed.

Lemma v_ordering_loop_spec (rest : list nat) :
  forall (i : Z) (prev : nat) (result : Validator.ValidationResult)
         (h : gmap nat WSCEntry),
    live h (prev :: rest) ->
    exists result',
      Validator.ordering_loop i prev rest result h = Some (result', h)
      /\ (Validator.errors result' = []
          <-> Validator.errors result = []
              /\ ascending_spans (map (offsets_at h) (prev :: rest))).
Proof.
  induction rest as [|r rest IH]; intros i prev result h Ha.
  - exists result. split; [done|]. simpl. unfold offsets_at.
    destruct (h !! prev); tauto.
  - destruct (Ha r) as [e He]; [right; left|].
    destruct (Ha prev) as [p Hp]; [left|].
    simpl Validator.ordering_loop. unfold bind, load. rewrite He, Hp.
    match goal with
    | |- exists _, Validator.ordering_loop (i + 1) r rest ?res h = _ /\ _ =>
        destruct (IH (i + 1) r res h) as (result' & Hrun & Hiff)
    end.
    { intros r' Hr'. apply Ha. by right. }
    exists result'. split; [done|]. rewrite Hiff.
    rewrite !map_cons.
    rewrite (offsets_at_some h r e He), (offsets_at_some h prev p Hp).
    rewrite ascending_spans_cons.
    destruct (Z.leb_spec (start_offset e) (start_offset p)),
      (Z.leb_spec (start_offset e) (end_offset p)); simpl; split;
      try (intros [Herr _]; by destruct (Validator.errors result));
      try (intros [_ (? & ? & _)]; lia); try tauto.
    all: intros [Herr _]; exfalso; revert Herr; clear;
      by destruct (Validator.errors result).
Qed.

Lemma v_gap_loop_spec (rest : list nat) :
  forall (i : Z) (prev : nat) (result : Validator.ValidationResult)
         (h : gmap nat WSCEntry),
    live h (prev :: rest) ->
    exists result',
      Validator.gap_loop i prev rest result h = Some (result', h)
      /\ Validator.errors result' = Validator.errors result.
Proof.
  induction rest as [|r rest IH]; intros i prev result h Ha.
  - exists result. done.
  - destruct (Ha r) as [e He]; [right; left|].
    destruct (Ha prev) as [p Hp]; [left|].
    simpl Validator.gap_loop. unfold bind, load. rewrite He, Hp.
    match goal with
    | |- exists _, Validator.gap_loop (i + 1) r rest ?res h = _ /\ _ =>
        destruct (IH (i + 1) r res h) as (result' & Hrun & Herr)
    end.
    { intros r' Hr'. apply Ha. by right. }
    exists result'. split; [done|]. rewrite Herr.
    destruct (0 <? _); [|done]. by destruct (100 <? _).
Qed.

(** X18. [validate_offset_consistency] is stricter than the check
    [validate_wsc_entries] makes before a file is rebuilt: its result
    is valid exactly when there is at least one entry and every entry
    starts after both the start and the end of the entry before it, and
    then [validate_wsc_entries] finds the entries valid as well. *)
Theorem offset_consistency_is_stricter
        (h : gmap nat WSCEntry) (refs : list nat) :
  allocated h refs ->
  exists vr,
    Validator.validate_offset_consistency refs h = Some (vr, h)
    /\ (Validator.is_valid vr = true
        <-> refs <> [] /\ ascending_spans (map (offsets_at h) refs))
    /\ (Validator.is_valid vr = true ->
        exists result,
          validate_wsc_entries R refs h = Some (result, h)
          /\ is_valid result = true).
Proof.
  intros Ha. unfold allocated in Ha. rewrite Forall_forall in Ha.
  assert (Hchar : exists vr,
             Validator.validate_offset_consistency refs h = Some (vr, h)
             /\ (Validator.is_valid vr = true
                 <-> refs <> [] /\ ascending_spans (map (offsets_at h) refs))).
  { unfold Validator.validate_offset_consistency.
    destruct refs as [|r0 rest].
    - eexists. split; [reflexivity|]. simpl. split; [discriminate|].
      by intros [? _].
    - destruct (v_ordering_loop_spec rest 1 r0 Validator.new_result h Ha)
        as (r1 & Hrun1 & Hiff).
      destruct (v_gap_loop_spec rest 1 r0 r1 h Ha) as (r2 & Hrun2 & Herr).
      unfold bind at 1. rewrite Hrun1. unfold bind at 1. rewrite Hrun2.
      unfold ret. eexists. split; [reflexivity|].
      simpl Validator.is_valid. unfold Validator.no_errors. rewrite Herr.
      destruct (Validator.errors r1).
      + split; [|done]. intros _. split; [done|]. by apply Hiff.
      + split; [discriminate|]. intros [_ Hasc].
        assert (@nil Validator.message = []) as Hnil by done.
        destruct Hiff as [_ Hiff]. by specialize (Hiff (conj eq_refl Hasc)). }
  destruct Hchar as (vr & Hrun & Hiff). exists vr. split; [done|].
  split; [done|]. intros Hv. apply Hiff in Hv as [_ Hasc].
  destruct (validate_spec R h refs Ha) as (result & Hrun' & Hiff').
  exists result. split; [done|]. apply Hiff'.
  by apply ascending_spans_no_overlap.
Qed.

(** ** The length check *)

Lemma binary_loop_spec (refs : list nat) :
  forall (i : Z) (result : Validator.ValidationResult) (h : gmap nat WSCEntry),
    (forall r, r ∈ refs -> binary_current R h r) ->
    exists result' h',
      Validator.binary_loop R refs i result h = Some (result', h')
      /\ stable h h'
      /\ Validator.errors result' = Validator.errors result
      /\ Validator.needs_recalculation result'
         = Validator.needs_recalculation result
           || negb (forallb (length_matches R h) refs).
Proof.
  induction refs as [|r rest IH]; intros i result h Hc.
  - exists result, h. simpl. unfold ret.
    split; [done|]. split; [apply stable_refl|]. split; [done|].
    by rewrite orb_false_r.
  - destruct (Hc r) as (e & He & Hbin); [left|].
    set (b := content_to_binary R (content e) (is_speaker e)).
    set (h1 := match binary_data e with
               | None => <[r := set_binary_data b e]> h
               | Some _ => h
               end).
    assert (Hs1 : stable h h1).
    { unfold h1. destruct (binary_data e); [apply stable_refl|].
      by apply (stable_store h r e). }
    assert (Hc1 : forall r', r' ∈ rest -> binary_current R h1 r').
    { intros r' Hr'. unfold h1. destruct (binary_data e) eqn:Eb.
      - apply Hc. by right.
      - destruct (decide (r = r')) as [<-|Hne].
        + exists (set_binary_data b e). rewrite lookup_insert_eq.
          split; [done|]. by right.
        + destruct (Hc r') as (e' & He' & Hb'); [by right|].
          exists e'. by rewrite lookup_insert_ne. }
    assert (Hm : length_matches R h r = (len b =? original_length e + 1)).
    { unfold length_matches. by rewrite He. }
    match goal with
    | |- exists _ _, Validator.binary_loop R (r :: rest) i result h = _ /\ _ =>
        set (res1 := if negb (len b =? original_length e + 1)
                     then Validator.set_needs_recalculation true
                            (Validator.add_suggestion
                               (Validator.ConsiderEnablingRecalculation
                                  (take 30 (content e)))
                               (Validator.add_warning
                                  (Validator.LengthChanged (i + 1)
                                     (original_length e + 1) (len b))
                                  result))
                     else result)
    end.
    destruct (IH (i + 1) res1 h1 Hc1) as (result' & h' & Hrun & Hs & Herr & Hrec).
    assert (Hstep : Validator.binary_loop R (r :: rest) i result h
                    = Validator.binary_loop R rest (i + 1) res1 h1).
    { simpl Validator.binary_loop. unfold bind at 1. unfold load. rewrite He.
      unfold bind at 1. unfold h1, res1.
      destruct Hbin as [Hb|Hb]; rewrite Hb.
      - unfold bind, store, ret. reflexivity.
      - unfold ret. reflexivity. }
    exists result', h'. rewrite Hstep. split; [done|].
    split; [by apply (stable_trans h h1 h')|]. split.
    + rewrite Herr. unfold res1. by destruct (negb _).
    + rewrite Hrec. simpl forallb. rewrite Hm.
      replace (forallb (length_matches R h1) rest)
        with (forallb (length_matches R h) rest).
      2:{ apply forallb_pointwise. intros r'. symmetry.
          by apply stable_length_matches. }
      unfold res1. destruct (len b =? original_length e + 1); simpl.
      * done.
      * by rewrite orb_true_r.
Qed.

(** X19. The flag [validate_binary_consistency] sets says what offset
    preservation will do: on entries that carry no binary or the binary
    of their content, the check returns a valid result whose
    [needs_recalculation] is set exactly when some entry does not
    re-encode to [original_length + 1] bytes, and
    [preserve_original_offsets], run afterwards, returns the opposite
    of the flag. *)
Theorem binary_consistency_predicts_preservation
        (h : gmap nat WSCEntry) (refs : list nat) :
  Forall (binary_current R h) refs ->
  exists result h',
    Validator.validate_binary_consistency R refs h = Some (result, h')
    /\ Validator.is_valid result = true
    /\ Validator.needs_recalculation result
       = negb (forallb (length_matches R h) refs)
    /\ exists h'',
        preserve_original_offsets R refs h'
        = Some (negb (Validator.needs_recalculation result), h'').
Proof.
  intros Hc. rewrite Forall_forall in Hc.
  destruct (binary_loop_spec refs 0 Validator.new_result h)
    as (r1 & h' & Hrun & Hs & Herr & Hrec).
  { done. }
  unfold Validator.validate_binary_consistency, bind. rewrite Hrun.
  unfold ret. eexists _, h'. split; [reflexivity|].
  simpl. unfold Validator.no_errors. rewrite Herr. simpl.
  split; [done|]. split; [done|].
  destruct (preserve_original_offsets_spec R refs h')
    as (ok & h'' & Hpre & _ & _ & _ & Hok & _).
  { apply (stable_live h h' refs Hs). intros r Hr.
    destruct (Hc r Hr) as (e & He & _). eauto. }
  exists h''. rewrite Hpre, Hok, Hrec. simpl. rewrite negb_involutive.
  do 2 f_equal. apply forallb_pointwise. intros r.
  by apply stable_length_matches.
Qed.

(** ** The quick check and written transcripts *)

Lemma quick_lines_valid (lines : list str) :
  forall (i : nat) (result : Validator.QuickResult),
    Validator.valid (Validator.quick_lines lines i result) = true ->
    Validator.valid result = true
    /\ forall k line,
        lines !! k = Some line ->
        Nat.even (i + k) = true ->
        strip line <> [] ->
        match_ Validator.offset_line (strip line) = true.
Proof.
  induction lines as [|l rest IH]; intros i result Hv.
  - split; [done|]. intros k line Hk. by rewrite lookup_nil in Hk.
  - simpl Validator.quick_lines in Hv. apply IH in Hv as [Hv Hrest].
    assert (Hres : Validator.valid result = true
                   /\ (Nat.even i = true -> strip l <> [] ->
                       match_ Validator.offset_line (strip l) = true)).
    { destruct (strip l) as [|c t]; [done|].
      destruct (Nat.even i); simpl in Hv.
      - destruct (match_ Validator.offset_line (c :: t)); simpl in Hv; done.
      - done. }
    destruct Hres as [Hres Hl]. split; [done|].
    intros [|k] line Hk Hev Hne.
    + injection Hk as <-. rewrite Nat.add_0_r in Hev. by apply Hl.
    + apply (Hrest k line Hk); [|done].
      by replace (S i + k)%nat with (i + S k)%nat by lia.
Qed.

Lemma quick_contents_valid (contents : list str) :
  forall (i : Z) (result : Validator.QuickResult),
    Validator.valid (Validator.quick_contents R contents i result)
    = Validator.valid result.
Proof.
  induction contents as [|c rest IH]; intros i result; [done|].
  simpl. rewrite IH. destruct c; [done|]. by destruct (cp932_encode R _).
Qed.

(** X20. [quick_validate] takes every line with an even index for an
    offset line, but [decompile_wsc_file] writes three lines per
    record. So a written transcript whose first two content lines hold
    no newline, and whose second content line is not blank and not
    itself of the form of an offset line, is reported as not valid. *)
Theorem quick_validate_rejects_written_transcript
        (strings : list (nat * nat * bytes * str)) (text : str)
        (r1 : Z * Z * str) (s2 e2 : Z) (l2 : str) (rest : list (Z * Z * str)) :
  write_records R strings = Some text ->
  written R strings = r1 :: (s2, e2, l2) :: rest ->
  ~ In 10 (snd r1) -> ~ In 10 l2 ->
  strip l2 <> [] ->
  match_ Validator.offset_line (strip l2) = false ->
  Validator.valid (Validator.quick_validate R text) = false.
Proof.
  intros Hw Hrecs Hn1 Hn2 Hne Hm.
  rewrite (write_records_render R strings text Hw).
  pose proof (written_offsets R strings) as Hoff. rewrite Hrecs in *.
  apply Forall_cons in Hoff as [H1 Hoff]. apply Forall_cons in Hoff as [H2 _].
  destruct r1 as [[s1 e1] l1]. simpl in Hn1, H1, H2.
  apply not_true_is_false. intros Hv.
  unfold Validator.quick_validate in Hv.
  assert (Hq : Validator.valid
                 (Validator.quick_lines
                    (split 10 (render ((s1, e1, l1) :: (s2, e2, l2) :: rest))) 0
                    {| Validator.valid := true; Validator.quick_errors := [];
                       Validator.quick_warnings := [] |}) = true).
  { cbv zeta in Hv.
    destruct (Validator.valid (Validator.quick_lines _ _ _)) eqn:E; [done|].
    simpl andb in Hv. cbv iota in Hv. congruence. }
  apply quick_lines_valid in Hq as [_ Hq].
  specialize (Hq 4%nat l2).
  change ((s1, e1, l1) :: (s2, e2, l2) :: rest)
    with ([(s1, e1, l1); (s2, e2, l2)] ++ rest) in Hq.
  rewrite render_app, split_render in Hq.
  2:{ repeat constructor; simpl; tauto. }
  rewrite Hq in Hm; done.
Qed.

End ValidatorProperties.

Section RecompilationProperties.
Context (R : Runtime).

(** ** What reconstruction writes *)

(** X21. [reconstruct_wsc_binary] writes offsets and binaries only: in
    either mode the content, the speaker flag, the original length and
    the message lists of every entry stay as they were, an object that
    is not in the list is not touched, and every listed entry ends up
    carrying the binary of its own content. *)
Theorem reconstruct_writes_offsets_and_binary_only
        (h h' : gmap nat WSCEntry) (refs : list nat) (preserve : bool)
        (out : bytes) :
  allocated h refs ->
  reconstruct_wsc_binary R refs preserve h = Some (out, h') ->
  stable h h'
  /\ (forall r, r ∉ refs -> h' !! r = h !! r)
  /\ (forall r, r ∈ refs -> bin_set R h' r).
Proof.
  intros Ha Hrun. unfold allocated in Ha. rewrite Forall_forall in Ha.
  destruct (reconstruct_spec R preserve refs h Ha) as (h0 & Hrun0 & Hspec).
  rewrite Hrun in Hrun0. by injection Hrun0 as -> <-.
Qed.

(** ** The recalculation warning *)

Lemma while_invariant {St} (P : St -> Prop) (cond : St -> bool)
      (body : St -> option St) :
  (forall s s', body s = Some s' -> P s -> P s') ->
  forall (fuel : nat) (s s' : St),
    while fuel cond body s = Some s' -> P s -> P s'.
Proof.
  intros Hstep. induction fuel as [|fuel IH]; intros s s' Hrun Hs.
  - rewrite while_O in Hrun. destruct (cond s); [discriminate|].
    by injection Hrun as <-.
  - rewrite while_S in Hrun. destruct (cond s).
    + destruct (body s) as [s1|] eqn:Hb; [|discriminate].
      apply (IH s1 s' Hrun). by apply (Hstep s).
    + by injection Hrun as <-.
Qed.

Lemma parse_body_warnings (lines : list str) st st' :
  parse_body R lines st = Some st' ->
  warnings (snd st') = warnings (snd st).
Proof.
  destruct st as [[i es] res]. unfold parse_body.
  destruct (lines !! i) as [l|]; [|discriminate].
  destruct (strip l) as [|c t]; [by intros [= <-]|].
  destruct (_ && _).
  - destruct (parse_entry R lines i (c :: t)); by intros [= <-].
  - by intros [= <-].
Qed.

Lemma ordering_loop_warnings (rest : list WSCEntry) :
  forall (i : Z) (prev : WSCEntry) (result : ValidationResult),
    other_warnings result -> other_warnings (ordering_loop i prev rest result).
Proof.
  induction rest as [|e rest IH]; intros i prev result Hw; [done|].
  simpl. apply IH. destruct (_ <=? _); [|done].
  unfold other_warnings. simpl. rewrite in_app_iff. intros [H|[H|[]]]; [|done].
  by apply Hw.
Qed.

Lemma parse_warnings (text : str) entries result :
  parse_github_format R text = Some (entries, result) ->
  other_warnings result.
Proof.
  unfold parse_github_format.
  set (lines := split 10 (strip text)).
  destruct (while _ _ _ _) as [[[i es] r]|] eqn:Hrun; [|discriminate].
  assert (Hw : warnings r = []).
  { refine (while_invariant
              (fun st : nat * list WSCEntry * ValidationResult =>
                 warnings (snd st) = []) _ _ _ _ _ _ Hrun eq_refl).
    intros s s' Hb Hs. by rewrite (parse_body_warnings lines s s' Hb). }
  destruct es as [|e0 rest]; intros [= <- <-].
  - unfold other_warnings. simpl. rewrite Hw. by intros [].
  - apply ordering_loop_warnings. unfold other_warnings. simpl. rewrite Hw.
    by intros [].
Qed.

Lemma validate_loop_warnings (refs : list nat) :
  forall (i : Z) (result result' : ValidationResult) (h h' : gmap nat WSCEntry),
    validate_loop R refs i result h = Some (result', h') ->
    other_warnings result -> other_warnings result'.
Proof.
  induction refs as [|r rest IH]; intros i result result' h h'; simpl.
  - unfold ret. by intros [= <- <-].
  - unfold bind, load. destruct (h !! r) as [e|]; [|discriminate].
    intros Hrun Hw. apply (IH _ _ _ _ _ Hrun). clear Hrun.
    unfold other_warnings in *.
    destruct (cp932_encode R (content e)), (is_speaker e),
      (negb (match_ re_japanese_name (strip (content e)))
       || (8 <? len (strip (content e)))),
      (strip (content e)); simpl; rewrite ?in_app_iff; simpl;
      intuition discriminate.
Qed.

Lemma conflict_loop_warnings (rest : list nat) :
  forall (i : Z) (prev : nat) (result result' : ValidationResult)
         (h h' : gmap nat WSCEntry),
    conflict_loop i prev rest result h = Some (result', h') ->
    warnings result' = warnings result.
Proof.
  induction rest as [|r rest IH]; intros i prev result result' h h'; simpl.
  - unfold ret. by intros [= <- <-].
  - unfold bind, load. destruct (h !! r) as [e|]; [|discriminate].
    destruct (h !! prev) as [p|]; [|discriminate].
    intros Hrun. rewrite (IH _ _ _ _ _ _ Hrun). by destruct (_ <=? _).
Qed.

Lemma validate_warnings (refs : list nat) (h h' : gmap nat WSCEntry) result :
  validate_wsc_entries R refs h = Some (result, h') -> other_warnings result.
Proof.
  unfold validate_wsc_entries. unfold bind at 1.
  destruct (validate_loop R refs 0 new_result h) as [[r1 h1]|] eqn:H1;
    [|discriminate].
  apply validate_loop_warnings in H1; [|by intros []].
  unfold bind at 1. destruct refs as [|r0 rest].
  - unfold ret. by intros [= <- <-].
  - destruct (conflict_loop 1 r0 rest r1 h1) as [[r2 h2]|] eqn:H2;
      [|discriminate].
    apply conflict_loop_warnings in H2. unfold ret. intros [= <- <-].
    unfold other_warnings in *. simpl. by rewrite H2.
Qed.

Lemma forallb_identities (es : list WSCEntry) (g : nat -> bool)
      (f : WSCEntry -> bool) :
  (forall i e, es !! i = Some e -> g i = f e) ->
  forallb g (identities es) = forallb f es.
Proof.
  intros Hgf.
  assert (Hm : forall {A} (k : A -> bool) (l : list A),
             forallb k l = forallb (fun b => b) (map k l)).
  { intros A k l. induction l as [|x l IH]; simpl; [done|]. by rewrite IH. }
  rewrite (Hm _ g), (Hm _ f). f_equal. by apply map_identities.
Qed.

(** X22. A successful recompilation says when it had to recalculate: the
    warning that offsets were recalculated is in the final result
    exactly when offset preservation was asked for and some entry no
    longer re-encodes to [original_length + 1] bytes. *)
Theorem recalculation_is_reported
        (text : str) (preserve : bool) entries result :
  parse_github_format R text = Some (entries, result) ->
  is_valid result = true ->
  no_overlap (map offsets_of entries) ->
  exists final out,
    recompile_wsc_file R (Some text) preserve = Some (true, final, Some out)
    /\ (In OffsetsRecalculated (warnings final)
        <-> preserve = true
            /\ forallb (fun e => len (content_to_binary R (content e)
                                        (is_speaker e))
                                 =? original_length e + 1) entries = false).
Proof.
  intros Hp Hv Hno. unfold recompile_wsc_file. rewrite Hp, Hv. simpl negb.
  cbv iota.
  pose proof (parse_warnings text entries result Hp) as Hpw.
  destruct (validate_spec R (objects entries) (identities entries)
              (identities_live entries)) as (vr & Hval & Hiff).
  pose proof (validate_warnings _ _ _ _ Hval) as Hvw.
  rewrite Hval. rewrite offsets_of_objects in Hiff.
  apply Hiff in Hno. rewrite Hno. simpl negb. cbv iota.
  destruct (reconstruct_spec R preserve (identities entries) (objects entries)
              (identities_live entries)) as (h2 & Hrun & Hst & _).
  rewrite Hrun.
  assert (Hbase : ~ In OffsetsRecalculated (warnings result ++ warnings vr)).
  { rewrite in_app_iff. intros [H|H]; [by apply Hpw|by apply Hvw]. }
  destruct preserve.
  - destruct (preserve_original_offsets_spec R (identities entries) h2)
      as (ok & h3 & Hpre & _ & _ & _ & Hok & _).
    { apply (stable_live (objects entries) h2); [done|apply identities_live]. }
    rewrite Hpre.
    assert (Hok' : ok = forallb (fun e => len (content_to_binary R (content e)
                                                 (is_speaker e))
                                          =? original_length e + 1) entries).
    { rewrite Hok. rewrite <- (forallb_identities entries
                                 (length_matches R h2)); [done|].
      intros i e He. rewrite (stable_length_matches R (objects entries) h2) by done.
      unfold length_matches. by rewrite objects_lookup, He. }
    rewrite <- Hok'. destruct ok; simpl negb; cbv iota.
    + eexists _, _. split; [reflexivity|]. simpl. split; [done|]. by intros [_ ?].
    + eexists _, _. split; [reflexivity|]. simpl. rewrite in_app_iff. simpl.
      split; [done|]. intros _. right. by left.
  - eexists _, _. split; [reflexivity|]. simpl. split; [done|]. by intros [? _].
Qed.

(** ** Plain records are never written blank *)

Lemma sanitize_blank (s : str) :
  forallb isspace (sanitize s) = true -> forallb isspace s = true.
Proof.
  unfold sanitize. rewrite replace_newline_unfold, replace_cr_unfold.
  induction s as [|c s IH]; [done|]. simpl.
  destruct (Z.eqb_spec c 13) as [->|H13]; simpl.
  - intros H. by rewrite IH.
  - destruct (Z.eqb_spec c 10) as [->|H10]; simpl.
    + intros H. by rewrite IH.
    + intros H. apply andb_true_iff in H as [-> H]. by rewrite IH.
Qed.

(** X23. A record that is kept and does not start with the marker byte
    is written as its sanitised text, and that line is not blank. *)
Theorem kept_plain_record_is_not_blank (decoded : str) (raw : bytes) :
  is_meaningful R decoded raw = true ->
  bytes_startswith raw SPEAKER_BYTE = false ->
  convert_speaker R (sanitize decoded) raw = Some (sanitize decoded)
  /\ strip (sanitize decoded) <> [].
Proof.
  intros Hm Hs. split.
  - unfold convert_speaker. by rewrite Hs.
  - intros E. apply strip_nil_iff, sanitize_blank, strip_nil_iff in E.
    unfold is_meaningful in Hm. by rewrite E in Hm.
Qed.

End RecompilationProperties.

(** ** The same on the repository's test data *)

Lemma unescape_sanitize_witness :
  replace [92; 110] [10] (sanitize (lit "a" ++ [10] ++ lit "b"))
  = lit "a" ++ [10] ++ lit "b".
Proof.
  apply (unescape_sanitize (lit "a" ++ [10] ++ lit "b")).
  - simpl. intros [H|[H|[H|[]]]]; discriminate.
  - simpl. repeat split; intros [H1 H2]; discriminate.
Defined.

Lemma short_tokens_kept_only_if_marked_witness :
  is_meaningful runtime (lit "OK") (bascii "OK") = false
  /\ is_meaningful runtime (lit "%") (bascii "%") = true.
Proof.
  split.
  - apply (short_tokens_kept_only_if_marked runtime (lit "OK") (bascii "OK")).
    vm_compute. lia.
  - apply (short_tokens_kept_only_if_marked runtime (lit "%") (bascii "%")).
    vm_compute. lia.
Defined.

Lemma convert_speaker_ignores_text_witness :
  convert_speaker runtime (lit "x") (repeat x0f 1 ++ bascii "AB")
  = convert_speaker runtime (lit "y") (repeat x0f 1 ++ bascii "AB").
Proof.
  apply (convert_speaker_ignores_text runtime (lit "x") (lit "y") 1 (bascii "AB")).
  - lia.
  - discriminate.
  - discriminate.
Defined.

Lemma kept_plain_record_is_not_blank_witness :
  convert_speaker runtime (sanitize (lit "DAY0904")) (bascii "DAY0904")
  = Some (sanitize (lit "DAY0904"))
  /\ strip (sanitize (lit "DAY0904")) <> [].
Proof.
  apply (kept_plain_record_is_not_blank runtime (lit "DAY0904") (bascii "DAY0904")).
  - reflexivity.
  - reflexivity.
Defined.

Lemma speaker_round_trip_witness :
  content_to_binary runtime yaku true
  = [x0f; x0f] ++ blit [0x96; 0xE9; 0x8B; 0x76] ++ [x00]
  /\ convert_speaker runtime (15 :: 15 :: yaku)
       ([x0f; x0f] ++ blit [0x96; 0xE9; 0x8B; 0x76])
     = Some (46 :: yaku).
Proof.
  apply (speaker_round_trip runtime yaku (blit [0x96; 0xE9; 0x8B; 0x76])
           (15 :: 15 :: yaku)).
  - reflexivity.
  - reflexivity.
  - reflexivity.
  - discriminate.
  - discriminate.
Defined.

Lemma header_round_trip_witness :
  exists entry,
    parse_entry runtime [] O (header 8 14) = Some entry
    /\ start_offset entry = 8 /\ end_offset entry = 14.
Proof.
  apply (header_round_trip runtime [] O 8 14); lia.
Defined.


Lemma parse_blank_text_witness :
  parse_github_format runtime [32; 10]
  = Some ([], add_suggestion EnsureFileContains
                (add_error NoValidEntries new_result)).
Proof.
  apply (parse_blank_text runtime [32; 10]). reflexivity.
Defined.

Lemma validate_wsc_entries_valid_iff_witness :
  exists result,
    validate_wsc_entries runtime [O; 1%nat] unedited = Some (result, unedited)
    /\ (is_valid result = true
        <-> no_overlap (map (offsets_at unedited) [O; 1%nat])).
Proof.
  apply (validate_wsc_entries_valid_iff runtime unedited [O; 1%nat]).
  apply (parsed_entries_distinct
           [new_entry 0 7 (lit "DAY0904") false; new_entry 8 14 yaku true]).
Defined.

Lemma recalculated_offsets_contiguous_witness :
  exists h' result,
    calculate_new_offsets runtime [O; 1%nat] edited = Some (tt, h')
    /\ contiguous 0 (map (offsets_at h') [O; 1%nat])
    /\ validate_wsc_entries runtime [O; 1%nat] h' = Some (result, h')
    /\ is_valid result = true.
Proof.
  apply (recalculated_offsets_contiguous runtime edited [O; 1%nat]);
    apply (parsed_entries_distinct
             [new_entry 0 7 (lit "DAY0904") false;
              new_entry 8 14 (lit "AB") true]).
Defined.

Lemma reconstruct_repeatable_witness :
  exists out h' h'',
    reconstruct_wsc_binary runtime [O; 1%nat] true edited = Some (out, h')
    /\ reconstruct_wsc_binary runtime [O; 1%nat] false h' = Some (out, h'').
Proof.
  destruct (parsed_entries_distinct
              [new_entry 0 7 (lit "DAY0904") false;
               new_entry 8 14 (lit "AB") true]) as [_ Hall].
  destruct (reconstruct_spec runtime true [O; 1%nat] edited
              (identities_live
                 [new_entry 0 7 (lit "DAY0904") false;
                  new_entry 8 14 (lit "AB") true]))
    as (h' & Hrun & _).
  destruct (reconstruct_repeatable runtime edited h' [O; 1%nat] true false _
              Hall Hrun) as [h'' Hagain].
  eexists _, h', h''. split; [exact Hrun|exact Hagain].
Defined.

Lemma reconstruct_writes_offsets_and_binary_only_witness :
  exists out h',
    reconstruct_wsc_binary runtime [O; 1%nat] true edited = Some (out, h')
    /\ stable edited h'
    /\ (forall r, r ∉ [O; 1%nat] -> h' !! r = edited !! r)
    /\ (forall r, r ∈ [O; 1%nat] -> bin_set runtime h' r).
Proof.
  destruct (parsed_entries_distinct
              [new_entry 0 7 (lit "DAY0904") false;
               new_entry 8 14 (lit "AB") true]) as [_ Hall].
  destruct (reconstruct_spec runtime true [O; 1%nat] edited
              (identities_live
                 [new_entry 0 7 (lit "DAY0904") false;
                  new_entry 8 14 (lit "AB") true]))
    as (h' & Hrun & _).
  eexists _, h'. split; [exact Hrun|].
  exact (reconstruct_writes_offsets_and_binary_only runtime edited h'
           [O; 1%nat] true _ Hall Hrun).
Defined.

Lemma rebuilt_file_reads_back_at_new_offsets_witness :
  exists h' out strings,
    reconstruct_wsc_binary runtime [O; 1%nat] false unedited = Some (out, h')
    /\ extract_all_null_strings runtime out = Some strings
    /\ map span_of strings = map (offsets_at h') [O; 1%nat]
    /\ map (fun rec => raw_of rec ++ [x00]) strings
       = map (binary_of runtime unedited) [O; 1%nat].
Proof.
  destruct (parsed_entries_distinct
              [new_entry 0 7 (lit "DAY0904") false; new_entry 8 14 yaku true])
    as [Hnd Hall].
  apply (rebuilt_file_reads_back_at_new_offsets runtime unedited [O; 1%nat]
           Hnd Hall).
  repeat constructor.
  - exists (bascii "DAY0904"). split; [reflexivity|].
    split; [discriminate|]. repeat constructor; discriminate.
  - exists (blit [0x0F; 0x0F; 0x96; 0xE9; 0x8B; 0x76]). split; [reflexivity|].
    split; [discriminate|]. repeat constructor; discriminate.
Defined.

Lemma recompile_writes_concatenation_witness :
  exists final,
    recompile_wsc_file runtime (Some scenario_transcript) true
    = Some (true, final,
            Some (mjoin (map (fun e => content_to_binary runtime (content e)
                                         (is_speaker e))
                             [new_entry 0 7 (lit "DAY0904") false;
                              new_entry 8 14 yaku true;
                              new_entry 15 30 konnichiwa_sekai true;
                              new_entry 31 41 (lit "SE_104.ogg") false])))
    /\ is_valid final = true.
Proof.
  apply (recompile_writes_concatenation runtime scenario_transcript true
           [new_entry 0 7 (lit "DAY0904") false;
            new_entry 8 14 yaku true;
            new_entry 15 30 konnichiwa_sekai true;
            new_entry 31 41 (lit "SE_104.ogg") false]
           {| is_valid := true; errors := []; warnings := [];
              suggestions := []; needs_recalculation := false |}).
  - vm_compute. reflexivity.
  - reflexivity.
  - simpl. lia.
Defined.

Lemma recompile_refuses_witness :
  exists r,
    recompile_wsc_file runtime (Some (lit "hello")) true = Some (false, r, None).
Proof.
  apply (recompile_refuses runtime (lit "hello") true []
           {| is_valid := false;
              errors := [ExpectedOffsetFormat 1 (lit "hello"); NoValidEntries];
              warnings := [];
              suggestions := [EnsureFileContains];
              needs_recalculation := false |}).
  - vm_compute. reflexivity.
  - left. reflexivity.
Defined.

Lemma recalculation_is_reported_witness :
  exists final out,
    recompile_wsc_file runtime (Some scenario_transcript) true
    = Some (true, final, Some out)
    /\ (In OffsetsRecalculated (warnings final)
        <-> true = true
            /\ forallb (fun e => len (content_to_binary runtime (content e)
                                        (is_speaker e))
                                 =? original_length e + 1)
                 [new_entry 0 7 (lit "DAY0904") false;
                  new_entry 8 14 yaku true;
                  new_entry 15 30 konnichiwa_sekai true;
                  new_entry 31 41 (lit "SE_104.ogg") false] = false).
Proof.
  apply (recalculation_is_reported runtime scenario_transcript true
           [new_entry 0 7 (lit "DAY0904") false;
            new_entry 8 14 yaku true;
            new_entry 15 30 konnichiwa_sekai true;
            new_entry 31 41 (lit "SE_104.ogg") false]
           {| is_valid := true; errors := []; warnings := [];
              suggestions := []; needs_recalculation := false |}).
  - vm_compute. reflexivity.
  - reflexivity.
  - simpl. lia.
Defined.

Lemma offset_consistency_is_stricter_witness :
  exists vr,
    Validator.validate_offset_consistency [O; 1%nat] unedited
    = Some (vr, unedited)
    /\ (Validator.is_valid vr = true
        <-> [O; 1%nat] <> []
            /\ ascending_spans (map (offsets_at unedited) [O; 1%nat]))
    /\ (Validator.is_valid vr = true ->
        exists result,
          validate_wsc_entries runtime [O; 1%nat] unedited
          = Some (result, unedited)
          /\ is_valid result = true).
Proof.
  apply (offset_consistency_is_stricter runtime unedited [O; 1%nat]).
  apply (parsed_entries_distinct
           [new_entry 0 7 (lit "DAY0904") false; new_entry 8 14 yaku true]).
Defined.

Lemma binary_consistency_predicts_preservation_witness :
  exists result h',
    Validator.validate_binary_consistency runtime [O; 1%nat] edited
    = Some (result, h')
    /\ Validator.is_valid result = true
    /\ Validator.needs_recalculation result
       = negb (forallb (length_matches runtime edited) [O; 1%nat])
    /\ exists h'',
        preserve_original_offsets runtime [O; 1%nat] h'
        = Some (negb (Validator.needs_recalculation result), h'').
Proof.
  apply (binary_consistency_predicts_preservation runtime edited [O; 1%nat]).
  repeat constructor.
  - exists (new_entry 0 7 (lit "DAY0904") false). split; [reflexivity|].
    left. reflexivity.
  - exists (new_entry 8 14 (lit "AB") true). split; [reflexivity|].
    left. reflexivity.
Defined.

Lemma quick_validate_rejects_written_transcript_witness :
  Validator.valid (Validator.quick_validate runtime scenario_transcript) = false.
Proof.
  apply (quick_validate_rejects_written_transcript runtime scenario_records
           scenario_transcript (0, 7, lit "DAY0904") 8 14 (46 :: yaku)
           [(15, 30, 46 :: konnichiwa_sekai); (31, 41, lit "SE_104.ogg")]).
  - vm_compute. reflexivity.
  - vm_compute. reflexivity.
  - simpl. intuition discriminate.
  - simpl. intuition discriminate.
  - discriminate.
  - reflexivity.
Defined.
